(** * Recurrent subnetwork layer (TFNetworkRecLayer.py): shallow embedding

    The development follows [RecLayer._get_output_subnet_unit], the
    [_SubnetworkRecCell] helper class and [ChoiceLayer] of the source.
    Tensors are lists ([list], nested for several axes), Python dicts and sets
    are [gmap] and [gset], TensorFlow control flow ([tf.while_loop]) is an
    explicit fuel-bounded iteration, and everything that can raise returns an
    [option] or an explicit result type. *)

From stdpp Require Import gmap strings list fin_maps sorting.
From Stdlib Require Import ZArith QArith.
Local Open Scope string_scope.
Local Open Scope list_scope.
Local Open Scope nat_scope.

(** ** Python helpers *)

(** [sorted(...)] on strings: Python compares [str] by code point, which is
    the lexicographic order [String.le] of stdpp. *)
Definition sorted (l : list string) : list string := merge_sort String.le l.

(** [sorted(d.items())] for a dict with string keys: the keys are distinct,
    so the order of the pairs is the order of their keys. *)
Definition sorted_items {V} (l : list (string * V)) : list (string * V) :=
  merge_sort (λ a b, String.le a.1 b.1) l.

(** ** tf.TensorArray *)

(** A tensor array holds one optional element per index.  A write to an index
    beyond the current size grows the array when [dynamic_size] is set and is
    an error otherwise; writing an index twice and reading or stacking an
    unwritten index are errors. *)
Record TensorArray (A : Type) := mkTA {
  ta_dynamic_size : bool;
  ta_elems : list (option A)
}.
Arguments mkTA {A} _ _.
Arguments ta_dynamic_size {A} _.
Arguments ta_elems {A} _.

Definition ta_new {A} (size : nat) (dynamic_size : bool) : TensorArray A :=
  mkTA dynamic_size (replicate size None).

Definition ta_size {A} (ta : TensorArray A) : nat := length (ta_elems ta).

Definition ta_write {A} (ta : TensorArray A) (i : nat) (v : A)
  : option (TensorArray A) :=
  match ta_elems ta !! i with
  | Some None => Some (mkTA (ta_dynamic_size ta) (<[i := Some v]> (ta_elems ta)))
  | Some (Some _) => None
  | None =>
      if ta_dynamic_size ta
      then Some (mkTA true (ta_elems ta
                            ++ replicate (i - length (ta_elems ta)) None
                            ++ [Some v]))
      else None
  end.

Definition ta_read {A} (ta : TensorArray A) (i : nat) : option A :=
  match ta_elems ta !! i with
  | Some (Some v) => Some v
  | _ => None
  end.

Definition ta_stack {A} (ta : TensorArray A) : option (list A) :=
  mapM id (ta_elems ta).

(** ** tf.while_loop *)

Inductive LoopResult (S : Type) :=
  | Finished (s : S)
  | Failed
  | OutOfFuel.
Arguments Finished {S} _.
Arguments Failed {S}.
Arguments OutOfFuel {S}.

(** [cond] is evaluated on the loop variables; while it holds, [body] is run
    on them.  A body that raises aborts the whole loop. *)
Fixpoint while_loop {S} (cond : S → bool) (body : S → option S)
    (fuel : nat) (loop_vars : S) : LoopResult S :=
  match fuel with
  | 0 => OutOfFuel
  | Datatypes.S fuel =>
      if cond loop_vars
      then match body loop_vars with
           | Some loop_vars => while_loop cond body fuel loop_vars
           | None => Failed
           end
      else Finished loop_vars
  end.

(** The loop variables on which [while_loop] invokes [body], in order. *)
Fixpoint body_calls {S} (cond : S → bool) (body : S → option S)
    (fuel : nat) (loop_vars : S) : list S :=
  match fuel with
  | 0 => []
  | Datatypes.S fuel =>
      if cond loop_vars
      then loop_vars :: match body loop_vars with
                        | Some loop_vars => body_calls cond body fuel loop_vars
                        | None => []
                        end
      else []
  end.

(** ** The step loop of [RecLayer._get_output_subnet_unit] *)

(** What the loop needs from the cell: one step of the subnetwork
    ([cell.get_next_loop_vars], which rebuilds [cell.net] for step [i]), the
    output of the "end" layer of the step network, and
    [SearchChoices.filter_seqs], which updates a choice layer of the step
    network in place. *)
Record Cell (NetVars Net : Type) := mkCell {
  get_next_loop_vars : NetVars → nat → NetVars * Net;
  end_output : Net → list bool;
  filter_seqs : string → list bool → Net → Net
}.
Arguments mkCell {NetVars Net} _ _ _.
Arguments get_next_loop_vars {NetVars Net} _ _ _.
Arguments end_output {NetVars Net} _ _.
Arguments filter_seqs {NetVars Net} _ _ _ _.

(** The values fixed before the loop starts. [seq_len] is [None] exactly when
    the sequence length is not known in advance ([have_known_seq_len] is
    false); [outputs_to_accumulate] holds the [get] function of every
    accumulated output. *)
Record LoopSetup (Net Val : Type) := mkLoopSetup {
  max_seq_len : nat;
  seq_len : option (list nat);
  batch_dim : nat;
  output_beam_size : nat;
  out_batch_dim : nat;
  collected_choices : list string;
  outputs_to_accumulate : list (Net → Val)
}.
Arguments mkLoopSetup {Net Val} _ _ _ _ _ _ _.
Arguments max_seq_len {Net Val} _.
Arguments seq_len {Net Val} _.
Arguments batch_dim {Net Val} _.
Arguments output_beam_size {Net Val} _.
Arguments out_batch_dim {Net Val} _.
Arguments collected_choices {Net Val} _.
Arguments outputs_to_accumulate {Net Val} _.

Definition have_known_seq_len {Net Val} (cfg : LoopSetup Net Val) : bool :=
  match seq_len cfg with Some _ => true | None => false end.

(** The loop variables [(i, net_vars, acc_tas[, seq_len_info])];
    [seq_len_info] is the pair [(end_flag, dyn_seq_len)]. *)
Record LoopVars (NetVars Val : Type) := mkLoopVars {
  lv_i : nat;
  lv_net_vars : NetVars;
  lv_acc_tas : list (TensorArray Val);
  lv_seq_len_info : option (list bool * list nat)
}.
Arguments mkLoopVars {NetVars Val} _ _ _ _.
Arguments lv_i {NetVars Val} _.
Arguments lv_net_vars {NetVars Val} _.
Arguments lv_acc_tas {NetVars Val} _.
Arguments lv_seq_len_info {NetVars Val} _.

Section StepLoop.
Context {NetVars Net Val : Type}.
Variable cell : Cell NetVars Net.
Variable cfg : LoopSetup Net Val.

(** [seq_filter_cond] of the body: [i < seq_len] when the lengths are known,
    [not end_flag] otherwise, reshaped to (batch, beam). *)
Definition seq_filter_cond (i : nat) (end_flag : option (list bool))
  : option (list bool) :=
  c ← match seq_len cfg, end_flag with
      | Some seq_len, _ => Some ((λ n, bool_decide (i < n)) <$> seq_len)
      | None, Some end_flag => Some (negb <$> end_flag)
      | None, None => None
      end;
  if decide (length c = batch_dim cfg * output_beam_size cfg)
  then Some c else None.

Definition body (vars : LoopVars NetVars Val) : option (LoopVars NetVars Val) :=
  let i := lv_i vars in
  let '(net_vars, net) := get_next_loop_vars cell (lv_net_vars vars) i in
  let seq_len_info :=
    match lv_seq_len_info vars with
    | Some (end_flag, dyn_seq_len) =>
        let end_flag := zip_with orb end_flag (end_output cell net) in
        let dyn_seq_len :=
          zip_with Nat.add dyn_seq_len
                   ((λ e : bool, if e then 0 else 1) <$> end_flag) in
        Some (end_flag, dyn_seq_len)
    | None => None
    end in
  net ← match collected_choices cfg with
        | [] => Some net
        | names =>
            c ← seq_filter_cond i (fst <$> seq_len_info);
            Some (foldl (λ net name, filter_seqs cell name c net) net names)
        end;
  if decide (length (lv_acc_tas vars) = length (outputs_to_accumulate cfg))
  then
    acc_tas ← mapM (λ p : TensorArray Val * (Net → Val),
                      ta_write p.1 i (p.2 net))
                   (zip (lv_acc_tas vars) (outputs_to_accumulate cfg));
    Some (mkLoopVars (i + 1) net_vars acc_tas seq_len_info)
  else None.

Definition cond (vars : LoopVars NetVars Val) : bool :=
  let res := bool_decide (lv_i vars < max_seq_len cfg) in
  match lv_seq_len_info vars with
  | Some (end_flag, _) => res && existsb negb end_flag
  | None => res
  end.

(** [min_loop_len], the initial size of the accumulators. *)
Definition min_loop_len : nat :=
  if have_known_seq_len cfg then max_seq_len cfg else 0.

Definition init_acc_tas : list (TensorArray Val) :=
  (λ _, ta_new min_loop_len true) <$> outputs_to_accumulate cfg.

Definition init_loop_vars (init_net_vars : NetVars) : LoopVars NetVars Val :=
  mkLoopVars 0 init_net_vars init_acc_tas
    (if have_known_seq_len cfg then None
     else Some (replicate (out_batch_dim cfg) false,
                replicate (out_batch_dim cfg) 0)).

Definition final_loop_vars (fuel : nat) (init_net_vars : NetVars)
  : LoopResult (LoopVars NetVars Val) :=
  while_loop cond body fuel (init_loop_vars init_net_vars).

(** [self.output.size_placeholder[0]] after the loop: the given lengths when
    they are known, the dynamic length counter otherwise. *)
Definition final_seq_len (final : LoopVars NetVars Val) : option (list nat) :=
  match lv_seq_len_info final with
  | Some (_, seq_len) => Some seq_len
  | None => seq_len cfg
  end.

End StepLoop.

(** ** The run of the step loop, step by step *)

(** The values the loop variables take at step [t] when no step raises: the
    carried network variables, the step network before and after sequence
    filtering, the end flags and length counters, and the accumulators. *)
Section StepTrace.
Context {NetVars Net Val : Type}.
Variable cell : Cell NetVars Net.
Variable cfg : LoopSetup Net Val.
Variable init_net_vars : NetVars.

Fixpoint net_vars_at (t : nat) : NetVars :=
  match t with
  | 0 => init_net_vars
  | S t => (get_next_loop_vars cell (net_vars_at t) t).1
  end.

Definition net_at (t : nat) : Net :=
  (get_next_loop_vars cell (net_vars_at t) t).2.

Definition end_at (t : nat) : list bool := end_output cell (net_at t).

Fixpoint seq_len_info_at (t : nat) : option (list bool * list nat) :=
  match t with
  | 0 => lv_seq_len_info (init_loop_vars cfg init_net_vars)
  | S t =>
      match seq_len_info_at t with
      | Some (end_flag, dyn_seq_len) =>
          let end_flag := zip_with orb end_flag (end_at t) in
          Some (end_flag,
                zip_with Nat.add dyn_seq_len
                         ((λ e : bool, if e then 0 else 1) <$> end_flag))
      | None => None
      end
  end.

Definition filtered_net_at (t : nat) : Net :=
  match collected_choices cfg with
  | [] => net_at t
  | names =>
      match seq_filter_cond cfg t (fst <$> seq_len_info_at (S t)) with
      | Some c => foldl (λ net name, filter_seqs cell name c net) (net_at t) names
      | None => net_at t
      end
  end.

Definition acc_ta_at (t : nat) (out : Net → Val) : TensorArray Val :=
  mkTA true (((λ s, Some (out (filtered_net_at s))) <$> seq 0 t)
             ++ replicate (min_loop_len cfg - t) None).

Definition acc_tas_at (t : nat) : list (TensorArray Val) :=
  acc_ta_at t <$> outputs_to_accumulate cfg.

Definition loop_vars_at (t : nat) : LoopVars NetVars Val :=
  mkLoopVars t (net_vars_at t) (acc_tas_at t) (seq_len_info_at t).

(** The reshape of [seq_filter_cond] to (batch, beam) is well-shaped. *)
Definition filter_shape_ok : Prop :=
  collected_choices cfg = [] ∨
  match seq_len cfg with
  | Some seq_len => length seq_len = batch_dim cfg * output_beam_size cfg
  | None => out_batch_dim cfg = batch_dim cfg * output_beam_size cfg
  end.

(** The "end" layer yields one flag per entry of the output batch. *)
Definition end_shape_ok : Prop :=
  ∀ net_vars i,
    length (end_output cell (get_next_loop_vars cell net_vars i).2)
    = out_batch_dim cfg.

End StepTrace.

(** The reading of the recorded length as "one less than the number of
    iterations", for every example. *)
Definition recorded_length_one_less {NetVars Net Val}
    (cell : Cell NetVars Net) (cfg : LoopSetup Net Val)
    (init_net_vars : NetVars) (fuel : nat) : Prop :=
  ∀ final dyn_seq_len b len,
    final_loop_vars cell cfg fuel init_net_vars = Finished final →
    final_seq_len cfg final = Some dyn_seq_len →
    dyn_seq_len !! b = Some len →
    len = length (body_calls (cond cfg) (body cell cfg) fuel
                             (init_loop_vars cfg init_net_vars)) - 1.

(** *** Small step networks used as test inputs *)

(** A step network that is just its step index; the carried variable counts
    the steps.  [fire] lists, per example, the step at which "end" fires. *)
Definition counting_cell (fire : list nat) : Cell nat nat :=
  mkCell (λ net_vars i, (net_vars + 1, i))
         (λ net, (λ t0, bool_decide (t0 ≤ net)) <$> fire)
         (λ _ _ net, net).

(** As [counting_cell], for a single example whose "end" never fires. *)
Definition never_ending_cell : Cell nat nat :=
  mkCell (λ net_vars i, (net_vars + 1, i)) (λ _, [false]) (λ _ _ net, net).

(** Lengths known in advance: two examples of lengths 3 and 2. *)
Definition known_len_setup : LoopSetup nat nat :=
  mkLoopSetup 3 (Some [3; 2]) 2 1 2 [] [λ net, 10 * net].

(** Unknown lengths with at most [max_len] steps for [batch] examples. *)
Definition dynamic_setup (max_len batch : nat) : LoopSetup nat nat :=
  mkLoopSetup max_len None batch 1 batch [] [λ net, 10 * net].

(** ** ChoiceLayer in search mode *)

(** The score arithmetic of the tensor runtime: addition, [tf.log] and the
    comparison used by [tf.nn.top_k]. *)
Class ScoreOps (Score : Type) := {
  score_add : Score → Score → Score;
  score_log : Score → Score;
  score_ltb : Score → Score → bool
}.

(** Integer scores, used for the concrete checks below; [score_log] is the
    binary logarithm. *)
Definition Z_scores : ScoreOps Z :=
  {| score_add := Z.add; score_log := Z.log2; score_ltb := Z.ltb |}.

Section TopK.
Context {Score : Type} {ops : ScoreOps Score}.

(** [tf.nn.top_k]: the entries of a row sorted by decreasing score, an entry
    of lower index first among equal scores; the first [k] are returned as
    (values, indices).  It is an error to ask for more entries than the row
    has. *)
Fixpoint insert_by_score (x : nat * Score) (l : list (nat * Score))
  : list (nat * Score) :=
  match l with
  | [] => [x]
  | y :: l' =>
      if score_ltb x.2 y.2 then y :: insert_by_score x l' else x :: l
  end.

Definition sort_by_score (row : list Score) : list (nat * Score) :=
  foldr insert_by_score [] (imap pair row).

(** The order of the sorted entries: the score does not go up. *)
Definition by_score (a b : nat * Score) : Prop := score_ltb a.2 b.2 = false.

Definition top_k (k : nat) (row : list Score)
  : option (list Score * list nat) :=
  if decide (k ≤ length row)
  then let best := take k (sort_by_score row) in
       Some (snd <$> best, fst <$> best)
  else None.

End TopK.

(** The value a choice layer puts out: class labels of shape (batch * beam)
    after a search step, or the source output passed through. *)
Inductive ChoiceValue (Score : Type) :=
  | Labels (labels : list nat)
  | SourceOutput (x : list (list Score)).
Arguments Labels {Score} _.
Arguments SourceOutput {Score} _.

(** [search_choices] and [output] of the layer after [__init__]. *)
Record ChoiceResult (Score : Type) := mkChoiceResult {
  src_beams : option (list (list nat));
  beam_scores : option (list (list Score));
  choice_output : ChoiceValue Score
}.
Arguments mkChoiceResult {Score} _ _ _.
Arguments src_beams {Score} _.
Arguments beam_scores {Score} _.
Arguments choice_output {Score} _.

Section ChoiceLayer.
Context {Score : Type} {ops : ScoreOps Score}.

(** [beam_in = tf.shape(scores_base)[1]]; [scores_base] has shape
    (batch, beam_in).  For an empty batch the width does not matter. *)
Definition beam_in (scores_base : list (list Score)) : nat :=
  match scores_base with
  | row :: _ => length row
  | [] => 0
  end.

(** [tf.reshape] of a (batch * beam_in, dim) tensor to (batch, beam_in, dim):
    the element counts must agree. *)
Definition reshape_batch_beam (batch beam dim : nat)
    (rows : list (list Score)) : option (list (list (list Score))) :=
  if decide (length rows * dim = batch * beam * dim)
  then Some ((λ b, (λ i, rows !!! (b * beam + i)) <$> seq 0 beam)
             <$> seq 0 batch)
  else None.

(** [scores_in += scores_base], with [scores_base] expanded by a last axis of
    size one; the batch and beam axes must agree (a broadcast along them does
    not occur in the layer and is treated as an error). *)
Definition add_scores_base (scores_in : list (list (list Score)))
    (scores_base : list (list Score)) : option (list (list (list Score))) :=
  if decide (length scores_in = length scores_base
             ∧ Forall2 (λ x y, length x = length y) scores_in scores_base)
  then Some (zip_with
               (zip_with (λ row base, (λ x, score_add x base) <$> row))
               scores_in scores_base)
  else None.

(** What a per-value score contributes to a candidate: its logarithm for a
    "prob" input, itself for a "log_prob" input. *)
Definition score_contribution (input_type : string) (x : Score) : Score :=
  if decide (input_type = "prob") then score_log x else x.

(** The scores are presented in +log space: a "prob" input goes through
    [tf.log], a "log_prob" input is taken as it is, anything else raises. *)
Definition to_log_space (input_type : string) (scores_in : list (list Score))
  : option (list (list Score)) :=
  if decide (input_type = "prob")
  then Some ((λ row : list Score, score_log <$> row) <$> scores_in)
  else if decide (input_type = "log_prob")
  then Some scores_in
  else None.

(** [scores_in_flat], the candidate scores of shape (batch, beam_in * dim). *)
Definition scores_in_flat (input_type : string) (net_batch_dim : nat)
    (scores_base : list (list Score)) (scores_in : list (list Score))
    (scores_in_dim : nat) : option (list (list Score)) :=
  scores_in ← to_log_space input_type scores_in;
  scores_in ← reshape_batch_beam net_batch_dim (beam_in scores_base)
                                 scores_in_dim scores_in;
  scores_in ← add_scores_base scores_in scores_base;
  Some ((λ rows : list (list Score), mjoin rows)
        <$> (scores_in : list (list (list Score)))).

(** [ChoiceLayer.__init__] when [network.search_flag] is set.
    [scores_base] are the beam scores of the source search choice and
    [scores_in] the output of the (single) source layer. *)
Definition choice_layer_search (beam_size : nat) (input_type : string)
    (net_batch_dim : nat) (scores_base : list (list Score))
    (scores_in : list (list Score)) (scores_in_dim : nat)
  : option (ChoiceResult Score) :=
  if decide (input_type = "regression")
  then
    if decide (beam_size = 1)
    then Some (mkChoiceResult None None (SourceOutput scores_in))
    else None
  else
    flat ← scores_in_flat input_type net_batch_dim scores_base scores_in
                          scores_in_dim;
    best ← mapM (top_k beam_size) flat;
    let scores := fst <$> best in
    let labels := snd <$> best in
    Some (mkChoiceResult
            (Some ((λ row : list nat, (λ l, l / scores_in_dim) <$> row) <$> labels))
            (Some scores)
            (Labels (mjoin ((λ row : list nat, (λ l, l mod scores_in_dim) <$> row)
                            <$> labels)))).

End ChoiceLayer.

(** ** Resolving the accumulated output backwards through the beams *)

(** The layer object a search choice is based on, with what its
    [search_choices.src_layer] is: nothing, a [_TemplateLayer] (with its
    [is_prev_time_frame] flag), or another choice layer of the same step. *)
Inductive ChoiceBase :=
  | SrcNone (name : string)
  | SrcTemplate (name : string) (is_prev_time_frame : bool)
  | SrcLayer (name : string) (src_choice_layer : ChoiceBase).

Definition choice_base_name (choice_base : ChoiceBase) : string :=
  match choice_base with
  | SrcNone name | SrcTemplate name _ | SrcLayer name _ => name
  end.

(** Modelled from the spec: [TFUtil.nd_indices], which is not part of this
    file.  On a (batch, beam) index tensor, every beam index is paired with
    the index of its batch entry. *)
Definition nd_indices (indices : list (list nat)) : list (list (nat * nat)) :=
  imap (λ b row, (λ k, (b, k)) <$> row) indices.

(** [tf.gather_nd] on the first two axes; an index out of range raises. *)
Definition gather_nd {A} (params : list (list A))
    (indices : list (list (nat * nat))) : option (list (list A)) :=
  mapM (mapM (λ bk : nat * nat, params !! bk.1 ≫= (.!! bk.2))) indices.

(** [tf.reshape] of a (batch * beam, ...) tensor to (batch, beam, ...) and
    back; the element counts must agree. *)
Definition reshape_to_beams {A} (batch beam : nat) (x : list A)
  : option (list (list A)) :=
  if decide (length x = batch * beam)
  then Some ((λ b, take beam (drop (b * beam) x)) <$> seq 0 batch)
  else None.

Definition reshape_from_beams {A} (batch beam : nat) (x : list (list A))
  : option (list A) :=
  if decide (length (mjoin x) = batch * beam) then Some (mjoin x) else None.

Section SearchResolve.
Context {A : Type}.
Variable batch_dim output_beam_size : nat.
(** [final_acc_tas_dict]: the accumulated "choice_<name>" arrays by layer
    name and the accumulated "output_output" array. *)
Variable choice_tas : gmap string (TensorArray (list (list nat))).
Variable output_ta : TensorArray (list A).
Variable output_choice_base : ChoiceBase.

(** [output] of step [i], gathered by the beams [choice_beams]. *)
Definition gather_output (i : nat) (choice_beams : list (list nat))
  : option (list A) :=
  output ← ta_read output_ta i;
  output ← reshape_to_beams batch_dim output_beam_size output;
  output ← gather_nd output (nd_indices choice_beams);
  reshape_from_beams batch_dim output_beam_size output.

(** The inner [while True] of [search_resolve_body]: walk from the output
    choice through the choice layers of step [i] to the one whose source is
    the previous time frame. *)
Fixpoint resolve_choices (choice_base : ChoiceBase) (is_output_choice : bool)
    (i : nat) (choice_beams : list (list nat))
    (new_acc_output_ta : TensorArray (list A))
  : option (list (list nat) * TensorArray (list A)) :=
  src_choice_beams ← choice_tas !! choice_base_name choice_base
                      ≫= (λ ta, ta_read ta i);
  let idxs_exp := nd_indices choice_beams in
  src_choice_beams ← gather_nd src_choice_beams idxs_exp;
  new_acc_output_ta ←
    (if is_output_choice
     then output ← gather_output i choice_beams;
          ta_write new_acc_output_ta i output
     else Some new_acc_output_ta);
  match choice_base with
  | SrcNone _ => None
  | SrcTemplate _ is_prev_time_frame =>
      if is_prev_time_frame
      then Some (src_choice_beams, new_acc_output_ta)
      else None
  | SrcLayer _ src_choice_layer =>
      resolve_choices src_choice_layer false i src_choice_beams
                      new_acc_output_ta
  end.

(** The loop variables [(i, choice_beams, new_acc_output_ta)]. *)
Definition search_resolve_body
    (vars : Z * list (list nat) * TensorArray (list A))
  : option (Z * list (list nat) * TensorArray (list A)) :=
  let '(i, choice_beams, new_acc_output_ta) := vars in
  r ← resolve_choices output_choice_base true (Z.to_nat i) choice_beams
                      new_acc_output_ta;
  Some ((i - 1)%Z, r.1, r.2).

Definition search_resolve_cond
    (vars : Z * list (list nat) * TensorArray (list A)) : bool :=
  bool_decide (0 ≤ vars.1.1)%Z.

(** [initial_beam_choices]: the beam indices 0..beam-1 for every batch
    entry. *)
Definition initial_beam_choices : list (list nat) :=
  replicate batch_dim (seq 0 output_beam_size).

(** The backward loop; its result replaces the "output_output" array. *)
Definition search_resolve (fuel : nat)
  : LoopResult (Z * list (list nat) * TensorArray (list A)) :=
  while_loop search_resolve_cond search_resolve_body fuel
    ((Z.of_nat (ta_size output_ta) - 1)%Z,
     initial_beam_choices,
     ta_new (ta_size output_ta) false).

(** *** The lineage of the final hypotheses *)

(** The beam slots of the previous step that the slots [slots] of step [t]
    descend from, through all choice layers of the step. *)
Fixpoint chain_parents (choice_base : ChoiceBase) (t : nat)
    (slots : list (list nat)) : option (list (list nat)) :=
  src ← choice_tas !! choice_base_name choice_base ≫= (λ ta, ta_read ta t);
  parents ← gather_nd src (nd_indices slots);
  match choice_base with
  | SrcNone _ => None
  | SrcTemplate _ is_prev_time_frame =>
      if is_prev_time_frame then Some parents else None
  | SrcLayer _ src_choice_layer => chain_parents src_choice_layer t parents
  end.

(** The slots occupied [d] steps before the last one by the ancestors of the
    final hypotheses: the final slots themselves for [d = 0], then parents of
    parents. *)
Fixpoint tracked_slots (d : nat) : option (list (list nat)) :=
  match d with
  | 0 => Some initial_beam_choices
  | S d =>
      slots ← tracked_slots d;
      chain_parents output_choice_base (ta_size output_ta - 1 - d) slots
  end.

(** The output of step [t] along the lineage of the final hypotheses. *)
Definition lineage_output (t : nat) : option (list A) :=
  slots ← tracked_slots (ta_size output_ta - 1 - t);
  gather_output t slots.

(** The new accumulator after [d] steps of the backward loop, when it is to
    end up holding [final]: the last [d] steps are written. *)
Definition resolve_acc_after (final : list (list A)) (d : nat)
  : TensorArray (list A) :=
  mkTA false (replicate (ta_size output_ta - d) None
              ++ (Some <$> drop (ta_size output_ta - d) final)).

(** The reading in which the output of a step is re-indexed by the parent
    slots recorded at that same step. *)
Definition parent_indexed_output (t : nat) : option (list A) :=
  slots ← tracked_slots (ta_size output_ta - t);
  gather_output t slots.

End SearchResolve.

(** A three-step search over two batch entries with beam width 2 in which
    the two hypotheses of the first entry swap their slots at the last step:
    the recorded parent slots of the single choice layer "output" and the raw
    accumulated outputs. *)
Definition swap_choice_tas : gmap string (TensorArray (list (list nat))) :=
  {[ "output" := mkTA true [Some [[0; 0]; [0; 0]];
                            Some [[0; 1]; [1; 1]];
                            Some [[1; 0]; [0; 0]]] ]}.

Definition swap_output_ta : TensorArray (list nat) :=
  mkTA true [Some [10; 11; 12; 13];
             Some [20; 21; 22; 23];
             Some [30; 31; 32; 33]].

Definition swap_choice_base : ChoiceBase := SrcTemplate "output" true.

(** ** Template layers of [_SubnetworkRecCell] *)

(** A layer object a template can depend on: a template of this subnetwork
    (also when it is referred to as "prev:..."), or a layer of the parent
    network ("base:...").  Two references are the same object exactly when
    they are equal. *)
Inductive LayerRef :=
  | SubnetLayer (name : string)
  | BaseLayer (name : string).

Global Instance LayerRef_eq_dec : EqDecision LayerRef.
Proof. solve_decision. Defined.

(** [_TemplateLayer]: its name, whether [init] has run on it (before that it
    is the dummy of class ":uninitialized-template"), and its [dependencies],
    a set kept in insertion order. *)
Record TemplateLayer := mkTemplateLayer {
  tl_name : string;
  tl_initialized : bool;
  dependencies : list LayerRef
}.

(** [list.remove(x)]: drops the first occurrence, raises if there is none. *)
Fixpoint list_remove_first (x : string) (l : list string)
  : option (list string) :=
  match l with
  | [] => None
  | y :: l' =>
      if decide (x = y) then Some l'
      else (y ::.) <$> list_remove_first x l'
  end.

(** ** _SubnetworkRecCell.move_outside_loop *)

(** The four lists the analysis updates; layers are held by name, the key
    under which their template is stored. *)
Record HoistState := mkHoistState {
  layers_in_loop : list string;
  input_layers_moved_out : list string;
  output_layers_moved_out : list string;
  needed_outputs : list string
}.

Section MoveOutsideLoop.
Variable layer_data_templates : gmap string TemplateLayer.
Variable prev_layers_needed : gset string.
(** The dependencies of the real layer of that name in [self.net.layers],
    when it has been constructed. *)
Variable real_dep_layers : string → option (list LayerRef).

(** [_TemplateLayer.get_dep_layers] of a data template; the result is used
    for membership tests only, so its order (by name) is not modelled. *)
Definition get_dep_layers (name : string) : list LayerRef :=
  match real_dep_layers name with
  | Some deps => deps
  | None =>
      match layer_data_templates !! name with
      | Some layer => dependencies layer
      | None => []
      end
  end.

Definition layers_needed_from_prev_frame : list string :=
  sorted (elements prev_layers_needed).

Definition output_can_move_out (st : HoistState) (layer : string) : bool :=
  if decide (layer ∈ layers_needed_from_prev_frame)
  then false
  else forallb (λ other_layer,
                  negb (bool_decide (SubnetLayer layer
                                     ∈ get_dep_layers other_layer)))
               (layers_in_loop st).

Definition find_output_layer_to_move_out (st : HoistState) : option string :=
  find (λ layer, bool_decide (layer ∈ needed_outputs st)
                 && output_can_move_out st layer)
       (layers_in_loop st).

Definition output_move_out (st : HoistState) (layer : string)
  : option HoistState :=
  needed ← list_remove_first layer (needed_outputs st);
  in_loop ← list_remove_first layer (layers_in_loop st);
  Some (mkHoistState in_loop (input_layers_moved_out st)
                     (output_layers_moved_out st ++ [layer]) needed).

Definition input_can_move_out (st : HoistState) (layer : string) : bool :=
  forallb (λ other_layer,
             negb (bool_decide (SubnetLayer other_layer
                                ∈ get_dep_layers layer)))
          (layers_in_loop st).

Definition find_input_layer_to_move_out (st : HoistState) : option string :=
  find (input_can_move_out st) (layers_in_loop st).

Definition input_move_out (st : HoistState) (layer : string)
  : option HoistState :=
  needed ← (if decide (layer ∈ needed_outputs st)
            then list_remove_first layer (needed_outputs st)
            else Some (needed_outputs st));
  in_loop ← list_remove_first layer (layers_in_loop st);
  Some (mkHoistState in_loop (input_layers_moved_out st ++ [layer])
                     (output_layers_moved_out st) needed).

(** One round of the [while True] loop; the flag tells whether the loop goes
    on (it breaks when neither search found a layer). *)
Definition move_round (st : HoistState) : option (HoistState * bool) :=
  let output_layer := find_output_layer_to_move_out st in
  st ← match output_layer with
       | Some layer => output_move_out st layer
       | None => Some st
       end;
  let input_layer := find_input_layer_to_move_out st in
  st ← match input_layer with
       | Some layer => input_move_out st layer
       | None => Some st
       end;
  Some (st, bool_decide (is_Some output_layer ∨ is_Some input_layer)).

Fixpoint move_rounds (fuel : nat) (st : HoistState) : LoopResult HoistState :=
  match fuel with
  | 0 => OutOfFuel
  | S fuel =>
      match move_round st with
      | Some (st, true) => move_rounds fuel st
      | Some (st, false) => Finished st
      | None => Failed
      end
  end.

Definition move_outside_loop (fuel : nat) : LoopResult HoistState :=
  move_rounds fuel
    (mkHoistState (fst <$> sorted_items (map_to_list layer_data_templates))
                  [] [] ["output"]).

(** What holds of the layers moved out so far, with respect to the layers
    still in the loop: a layer on the output side is not needed from the
    previous frame and no layer in the loop depends on it; a layer on the
    input side depends on no layer in the loop. *)
Definition hoisted_ok (st : HoistState) : Prop :=
  (∀ layer, layer ∈ output_layers_moved_out st →
     (layer ∉ prev_layers_needed)
     ∧ (∀ other, other ∈ layers_in_loop st →
          SubnetLayer layer ∉ get_dep_layers other))
  ∧ (∀ layer, layer ∈ input_layers_moved_out st →
       ∀ other, other ∈ layers_in_loop st →
         SubnetLayer other ∉ get_dep_layers layer).

End MoveOutsideLoop.

(** ** The accumulated loss of the subnetwork *)

(** The float32 arithmetic of the tensor runtime, kept abstract. *)
Class FloatOps (F : Type) := {
  f_zero : F;
  f_one : F;
  f_add : F → F → F;
  f_mul : F → F → F;
  f_div : F → F → F;
  f_of_nat : nat → F
}.

(** Exact rationals, used for the concrete checks below. *)
Definition Q_floats : FloatOps Q :=
  {| f_zero := 0%Q; f_one := 1%Q; f_add := Qplus; f_mul := Qmult;
     f_div := Qdiv; f_of_nat := λ n, inject_Z (Z.of_nat n) |}.

(** [self._sub_loss], [self._sub_error] and
    [self._sub_loss_normalization_factor]; they stay unset ([None]) without a
    layer that has a loss. *)
Record SubLoss (F : Type) := mkSubLoss {
  _sub_loss : option F;
  _sub_error : option F;
  _sub_loss_normalization_factor : option F
}.
Arguments mkSubLoss {F} _ _ _.
Arguments _sub_loss {F} _.
Arguments _sub_error {F} _.
Arguments _sub_loss_normalization_factor {F} _.

Section SubNetLoss.
Context {F : Type} {fops : FloatOps F}.

(** Modelled from the spec: [TFUtil.sequence_mask_time_major], which is not
    part of this file: the mask of the valid sequence lengths, of shape
    (max(seq_len), batch), true at (t, b) when [t < seq_len[b]]. *)
Definition sequence_mask_time_major (seq_len : list nat) : list (list bool) :=
  (λ t, (λ n, bool_decide (t < n)) <$> seq_len) <$> seq 0 (max_list seq_len).

(** [tf.where(mask, x, tf.zeros_like(x))]; the shapes must agree. *)
Definition where_or_zero (mask : list (list bool)) (x : list (list F))
  : option (list (list F)) :=
  if decide (length mask = length x
             ∧ Forall2 (λ m r, length m = length r) mask x)
  then Some (zip_with (zip_with (λ (m : bool) v, if m then v else f_zero))
                      mask x)
  else None.

(** [tf.reduce_sum] of a (time, batch) tensor, in row-major order. *)
Definition reduce_sum (x : list (list F)) : F := foldl f_add f_zero (mjoin x).

(** The body of the loop over the sorted names of the layers with a loss. *)
Definition sub_net_loss_step
    (final_acc_tas_dict : gmap string (TensorArray (list F)))
    (loss_scale : string → F) (seq_len : list nat)
    (acc : SubLoss F) (layer_name : string) : option (SubLoss F) :=
  loss_value ← final_acc_tas_dict !! ("loss_" +:+ layer_name) ≫= ta_stack;
  error_value ← final_acc_tas_dict !! ("error_" +:+ layer_name) ≫= ta_stack;
  let loss_norm_factor := f_div f_one (f_of_nat (sum_list seq_len)) in
  let mask := sequence_mask_time_major seq_len in
  loss_value ← where_or_zero mask loss_value;
  error_value ← where_or_zero mask error_value;
  let loss_value := reduce_sum loss_value in
  let error_value := reduce_sum error_value in
  sub_loss ← _sub_loss acc;
  Some (mkSubLoss (Some (f_add sub_loss (f_mul loss_value
                                               (loss_scale layer_name))))
                  (Some error_value)
                  (Some loss_norm_factor)).

(** The block [if layer_names_with_losses: ...]. *)
Definition sub_net_loss (layer_names_with_losses : list string)
    (final_acc_tas_dict : gmap string (TensorArray (list F)))
    (loss_scale : string → F) (seq_len : list nat) : option (SubLoss F) :=
  match layer_names_with_losses with
  | [] => Some (mkSubLoss None None None)
  | _ =>
      foldl (λ acc layer_name,
               acc ≫= λ acc, sub_net_loss_step final_acc_tas_dict loss_scale
                                               seq_len acc layer_name)
            (Some (mkSubLoss (Some f_zero) None None))
            (sorted layer_names_with_losses)
  end.

(** The entries of a (time, batch) tensor at the valid positions, those with
    [t < seq_len[b]], in row-major order, and their sum. *)
Definition valid_entries (seq_len : list nat) (x : list (list F)) : list F :=
  mjoin (imap (λ t row,
                 snd <$> filter (λ p : nat * F, t < p.1) (zip seq_len row))
              x).

Definition valid_sum (seq_len : list nat) (x : list (list F)) : F :=
  foldl f_add f_zero (valid_entries seq_len x).

(** The arrays "loss_<name>" and "error_<name>" of a layer have been
    accumulated and stack to the (time, batch) tensors [loss_of] and
    [error_of] of the shape of the sequence mask. *)
Definition accumulated
    (final_acc_tas_dict : gmap string (TensorArray (list F)))
    (seq_len : list nat) (loss_of error_of : string → list (list F))
    (layer_name : string) : Prop :=
  (∃ ta, final_acc_tas_dict !! ("loss_" +:+ layer_name) = Some ta
         ∧ ta_stack ta = Some (loss_of layer_name))
  ∧ (∃ ta, final_acc_tas_dict !! ("error_" +:+ layer_name) = Some ta
           ∧ ta_stack ta = Some (error_of layer_name))
  ∧ length (loss_of layer_name) = max_list seq_len
  ∧ Forall (λ r, length r = length seq_len) (loss_of layer_name)
  ∧ length (error_of layer_name) = max_list seq_len
  ∧ Forall (λ r, length r = length seq_len) (error_of layer_name).

(** The reading in which the exposed error, like the loss, is the sum over
    all layers with a loss. *)
Definition error_summed_over_layers (layer_names_with_losses : list string)
    (seq_len : list nat) (error_of : string → list (list F)) : F :=
  foldl (λ a n, f_add a (valid_sum seq_len (error_of n))) f_zero
        (sorted layer_names_with_losses).

End SubNetLoss.

(** Two layers with a loss over one example of length 1: layer "a" has loss 5
    and error 1 at the only step, layer "b" loss 7 and error 2. *)
Definition two_losses_acc : gmap string (TensorArray (list Q)) :=
  {[ "loss_a" := mkTA true [Some [5%Q]];
     "error_a" := mkTA true [Some [1%Q]];
     "loss_b" := mkTA true [Some [7%Q]];
     "error_b" := mkTA true [Some [2%Q]] ]}.

(** ** The checks of [RecLayer._get_output_subnet_unit] before the loop *)

(** What a Python call gives: a value, or an exception with its message. *)
Inductive Result (A : Type) :=
  | Ok (a : A)
  | Raised (err : string).
Arguments Ok {A} _.
Arguments Raised {A} _.

Definition result_bind {A B} (r : Result A) (f : A → Result B) : Result B :=
  match r with
  | Ok a => f a
  | Raised err => Raised err
  end.

(** [assert cond, msg]. *)
Definition assert (cond : bool) (msg : string) : Result unit :=
  if cond then Ok tt else Raised msg.

(** The part of a [Data] descriptor the checks look at. *)
Record Data := mkData {
  dtype : string;
  batch_shape : list (option nat);
  sparse : bool;
  dim : option nat;
  time_dim_axis : option nat
}.

Global Instance Data_eq_dec : EqDecision Data.
Proof. solve_decision. Defined.

(** The state of the layer when [_get_output_subnet_unit] starts:
    [input_seq_len] is the sequence length that comes with [self.input_data]
    (absent without input data), [size_placeholder] is
    [self.output.size_placeholder] (empty when it is [None]),
    [template_outputs] gives the [output] of every template in
    [cell.layer_data_templates]. *)
Record RecLayerState := mkRecLayerState {
  input_seq_len : option (list nat);
  input_beam_size : option nat;
  size_placeholder : gmap nat (list nat);
  net_batch_dim : nat;
  _max_seq_len : option nat;
  layer_output : Data;
  template_outputs : gmap string Data
}.

(** What the checks fix for the loop. *)
Record SeqLenSetup := mkSeqLenSetup {
  known_seq_len : option (list nat);
  setup_max_seq_len : nat;
  setup_have_known_seq_len : bool
}.

Section SubnetUnitChecks.
Variable self : RecLayerState.

(** [cell.check_output_template_shape()]. *)
Definition check_output_template_shape : Result unit :=
  match template_outputs self !! "output" with
  | None => Raised "KeyError: 'output'"
  | Some output_template =>
      result_bind
        (assert (bool_decide (dim output_template = dim (layer_output self)))
                "AssertionError") (λ _,
      result_bind
        (assert (bool_decide (time_dim_axis (layer_output self) = Some 0))
                "AssertionError") (λ _,
      result_bind
        (assert (bool_decide (time_dim_axis output_template = None))
                "AssertionError") (λ _,
        assert (bool_decide (batch_shape output_template
                             = drop 1 (batch_shape (layer_output self))))
               "AssertionError: see RecLayer.get_out_data_from_opts()")))
  end.

(** The choice of [seq_len], [max_seq_len] and [have_known_seq_len]
    (lines 523-552). *)
Definition seq_len_setup : Result SeqLenSetup :=
  result_bind
    (match input_seq_len self with
     | Some seq_len => Ok (Some seq_len)
     | None =>
         if decide (size (size_placeholder self) ≠ 0)
         then match size_placeholder self !! 0 with
              | Some seq_len => Ok (Some seq_len)
              | None => Raised "KeyError: 0"
              end
         else Ok None
     end) (λ seq_len,
  match seq_len with
  | Some seq_len =>
      result_bind
        (assert (bool_decide
                   (length seq_len
                    = net_batch_dim self * default 1 (input_beam_size self)))
                "check_seq_len_batch_size") (λ _,
        Ok (mkSeqLenSetup (Some seq_len) (max_list seq_len) true))
  | None =>
      match _max_seq_len self with
      | Some (S n) => Ok (mkSeqLenSetup None (S n) false)
      | _ => Raised "AssertionError: must specify max_seq_len in rec layer"
      end
  end).

(** The check of the "end" layer (lines 701-707). *)
Definition check_end_layer (have_known_seq_len : bool) : Result unit :=
  if have_known_seq_len then Ok tt
  else
    match template_outputs self !! "end" with
    | None =>
        Raised ("AssertionError: You need to have an 'end' layer in your "
                +:+ "rec subnet if the generated seq len is unknown.")
    | Some end_template =>
        result_bind
          (assert (bool_decide (dtype end_template = "bool"))
                  "AssertionError") (λ _,
        result_bind
          (assert (bool_decide (batch_shape end_template = [None]))
                  "AssertionError") (λ _,
          assert (sparse end_template) "AssertionError"))
    end.

(** [_get_output_subnet_unit]: the checks, around the code between them
    ([before_loop]: targets, accumulators, search choices) and the loop with
    everything after it ([loop_and_output]). *)
Definition _get_output_subnet_unit {Mid Out}
    (before_loop : SeqLenSetup → Result Mid)
    (loop_and_output : SeqLenSetup → Mid → Result Out) : Result Out :=
  result_bind check_output_template_shape (λ _,
  result_bind seq_len_setup (λ setup,
  result_bind (before_loop setup) (λ mid,
  result_bind (check_end_layer (setup_have_known_seq_len setup)) (λ _,
  loop_and_output setup mid)))).

(** The subnetwork declares an "end" layer whose template output is boolean,
    of batch shape (None,), and sparse. *)
Definition end_layer_ok : Prop :=
  ∃ end_template,
    template_outputs self !! "end" = Some end_template
    ∧ dtype end_template = "bool"
    ∧ batch_shape end_template = [None]
    ∧ sparse end_template = true.

End SubnetUnitChecks.

(** A layer without input data and without given output sizes, with
    [max_seq_len = 10], whose subnetwork has only an "output" layer. *)
Definition no_end_layer_state : RecLayerState :=
  mkRecLayerState None None ∅ 2 (Some 10)
    (mkData "float32" [None; None; Some 5] false (Some 5) (Some 0))
    {[ "output" := mkData "float32" [None; Some 5] false (Some 5) None ]}.

(** ** The loop variables of [_SubnetworkRecCell] *)

(** The keys of a dict, as iterating over it yields them. *)
Definition dict_keys {V} (d : gmap string V) : list string :=
  fst <$> map_to_list d.

(** Modelled from the spec: [Util.sorted_values_from_dict], which is not part
    of this file: the values of a dict in the sorted order of their keys. *)
Definition sorted_values_from_dict {V} (d : gmap string V) : list V :=
  snd <$> sorted_items (map_to_list d).

(** Modelled from the spec: [Util.dict_zip], which is not part of this file:
    [dict(zip(keys, values))] after asserting that there are as many keys as
    values.  The keys are distinct wherever it is used. *)
Definition dict_zip {V} (keys : list string) (values : list V)
  : option (gmap string V) :=
  if decide (length keys = length values)
  then Some (list_to_map (zip keys values))
  else None.

(** A dict comprehension [{k: f(k) for k in keys}]: the calls are made in
    the order of the keys, and the first one that raises ends it. *)
Definition dict_comprehension {V} (f : string → Result V)
    (keys : list string) : Result (gmap string V) :=
  foldl (λ acc k,
           result_bind acc (λ d,
           result_bind (f k) (λ v, Ok (<[k := v]> d))))
        (Ok ∅) keys.

Section LoopVarsFlatten.
Context {Tensor : Type}.
Variable layer_data_templates : gmap string TemplateLayer.
Variable prev_layers_needed : gset string.
(** What the layer class of a template gives for the keyword arguments of
    the template: [cl.get_rec_initial_output(batch_dim=..., **kwargs)] and
    [cl.get_rec_initial_extra_outputs(batch_dim=..., **kwargs)], two calls
    into the layer classes that are taken to return; whether the keyword
    arguments hold an "initial_output"; and the constant "initial_end",
    false for every entry of the batch. *)
Variable get_rec_initial_output : TemplateLayer → Tensor.
Variable get_rec_initial_extra_outputs : TemplateLayer → gmap string Tensor.
Variable has_initial_output : TemplateLayer → bool.
Variable initial_end : Tensor.

(** [_get_init_output]: the template is looked up first, so a name without
    a template is a KeyError. *)
Definition _get_init_output (name : string) : Result Tensor :=
  match layer_data_templates !! name with
  | None => Raised "KeyError"
  | Some template_layer =>
      if bool_decide (name = "end") && negb (has_initial_output template_layer)
      then Ok initial_end
      else Ok (get_rec_initial_output template_layer)
  end.

Definition _get_init_extra_outputs (name : string)
  : Result (gmap string Tensor) :=
  match layer_data_templates !! name with
  | None => Raised "KeyError"
  | Some template_layer => Ok (get_rec_initial_extra_outputs template_layer)
  end.

(** [self._initial_outputs] as [get_init_loop_vars] computes it, over the
    names of the set [prev_layers_needed] in the order the set yields
    them. *)
Definition _initial_outputs : Result (gmap string Tensor) :=
  dict_comprehension _get_init_output (elements prev_layers_needed).

(** [self._initial_extra_outputs]: the initial extra outputs of every
    template, the empty ones dropped. *)
Definition _initial_extra_outputs
  : Result (gmap string (gmap string Tensor)) :=
  result_bind
    (dict_comprehension _get_init_extra_outputs
                        (dict_keys layer_data_templates)) (λ d,
  Ok (filter (λ kv : string * gmap string Tensor, size kv.2 ≠ 0) d)).

(** [get_init_loop_vars]: the attributes [self._initial_outputs] and
    [self._initial_extra_outputs] it sets, and the loop variables
    [(init_outputs_flat, init_extra_flat)] it returns. *)
Definition get_init_loop_vars
  : Result (gmap string Tensor * gmap string (gmap string Tensor)
            * (list Tensor * list (list Tensor))) :=
  result_bind _initial_outputs (λ initial_outputs,
  result_bind _initial_extra_outputs (λ initial_extra_outputs,
  Ok (initial_outputs, initial_extra_outputs,
      (sorted_values_from_dict initial_outputs,
       (λ kv : string * gmap string Tensor, sorted_values_from_dict kv.2)
       <$> sorted_items (map_to_list initial_extra_outputs))))).

(** The attribute [self._initial_extra_outputs], as [get_init_loop_vars] has
    set it, for the two functions that read it. *)
Variable initial_extra_outputs : gmap string (gmap string Tensor).

(** The dict [prev_extra] built from [prev_extra_flat], as in
    [get_next_loop_vars] and [get_layer_rec_var_from_loop_vars]. *)
Definition prev_extra_from_flat (prev_extra_flat : list (list Tensor))
  : option (gmap string (gmap string Tensor)) :=
  list_to_map
  <$> mapM (λ kv : string * list Tensor,
              d ← initial_extra_outputs !! kv.1;
              v ← dict_zip (sorted (dict_keys d)) kv.2;
              Some (kv.1, v))
           (zip (sorted (dict_keys initial_extra_outputs)) prev_extra_flat).

(** The first part of [get_next_loop_vars], up to the call of [_construct]:
    the dicts [prev_outputs] and [prev_extra]. *)
Definition get_next_loop_vars_prev (loop_vars : list Tensor * list (list Tensor))
  : option (gmap string Tensor * gmap string (gmap string Tensor)) :=
  let '(prev_outputs_flat, prev_extra_flat) := loop_vars in
  if decide (length prev_outputs_flat = size prev_layers_needed)
  then
    let prev_outputs : gmap string Tensor :=
      list_to_map (zip (sorted (elements prev_layers_needed))
                       prev_outputs_flat) in
    if decide (length prev_extra_flat = size initial_extra_outputs)
    then prev_extra ← prev_extra_from_flat prev_extra_flat;
         Some (prev_outputs, prev_extra)
    else None
  else None.

Definition get_layer_rec_var_from_loop_vars
    (loop_vars : list Tensor * list (list Tensor)) (layer_name : string)
  : option (gmap string Tensor) :=
  let '(prev_outputs_flat, prev_extra_flat) := loop_vars in
  if decide (length prev_outputs_flat = size prev_layers_needed)
  then
    if decide (length prev_extra_flat = size initial_extra_outputs)
    then prev_extra ← prev_extra_from_flat prev_extra_flat;
         prev_extra !! layer_name
    else None
  else None.

End LoopVarsFlatten.

(** ** _SubnetworkRecCell._construct_template *)

(** One entry of the subnetwork declaration [net_dict]: the layer class and
    the names of the layers it refers to, as written ("x", "prev:x",
    "base:x"). *)
Record LayerDesc := mkLayerDesc {
  layer_class : string;
  layer_from : list string
}.

(** The state [get_templated_layer] works on: [self.layer_data_templates],
    [self.prev_layers_needed] and the stack [construct_ctx.layers] (its top
    is the last element). *)
Record ConstructState := mkConstructState {
  cs_layer_data_templates : gmap string TemplateLayer;
  cs_prev_layers_needed : gset string;
  cs_layers : list string
}.

(** A call returns a value and the new state, raises, or the model runs out
    of fuel. *)
Inductive Outcome (A : Type) :=
  | Returned (a : A) (st : ConstructState)
  | Raises (err : string)
  | NoFuel.
Arguments Returned {A} _ _.
Arguments Raises {A} _.
Arguments NoFuel {A}.

Definition Construct (A : Type) : Type := ConstructState → Outcome A.

Definition cret {A} (a : A) : Construct A := λ st, Returned a st.

Definition cbind {A B} (m : Construct A) (f : A → Construct B) : Construct B :=
  λ st, match m st with
        | Returned a st => f a st
        | Raises err => Raises err
        | NoFuel => NoFuel
        end.

Definition craise {A} (err : string) : Construct A := λ _, Raises err.

Notation "x ←c m ; k" := (cbind m (λ x, k))
  (at level 20, m at level 100, k at level 200, only parsing).

(** Running [f] on every element in turn. *)
Fixpoint cmapM {A B} (f : A → Construct B) (l : list A) : Construct (list B) :=
  match l with
  | [] => cret []
  | x :: l => y ←c f x; ys ←c cmapM f l; cret (y :: ys)
  end.

(** [name[len(prefix):]]. *)
Definition strip_prefix (prefix name : string) : string :=
  String.substring (String.length prefix)
                   (String.length name - String.length prefix) name.

(** [dependencies.add(layer)] on a set kept as a list. *)
Definition set_add (dep : LayerRef) (deps : list LayerRef) : list LayerRef :=
  if decide (dep ∈ deps) then deps else deps ++ [dep].

Section ConstructTemplate.
Variable net_dict : gmap string LayerDesc.
(** The names of the layers of the parent network. *)
Variable parent_layers : gset string.
(** [layer_class.get_out_data_from_opts] of the layer kind registry, on the
    name, the declaration and the resolved layers; it may raise. *)
Variable get_out_data_from_opts :
  string → LayerDesc → list LayerRef → Result unit.

(** [construct_ctx.layers[-1].dependencies.add(layer)]. *)
Definition add_dependency (layer : LayerRef) : Construct unit :=
  λ st,
    match last (cs_layers st) with
    | None => Raises "IndexError: list index out of range"
    | Some top =>
        Returned tt
          (mkConstructState
             (alter (λ t, mkTemplateLayer (tl_name t) (tl_initialized t)
                                          (set_add layer (dependencies t)))
                    top (cs_layer_data_templates st))
             (cs_prev_layers_needed st) (cs_layers st))
    end.

(** [add_templated_layer]: the template is already registered; compute its
    output and [init] it. *)
Definition add_templated_layer (name : string) (desc : LayerDesc)
    (sources : list LayerRef) : Construct unit :=
  λ st,
    match cs_layer_data_templates st !! name with
    | None => Raises "KeyError"
    | Some layer =>
        match get_out_data_from_opts name desc sources with
        | Raised err => Raises err
        | Ok _ =>
            Returned tt
              (mkConstructState
                 (<[name := mkTemplateLayer (tl_name layer) true
                                            (dependencies layer)]>
                    (cs_layer_data_templates st))
                 (cs_prev_layers_needed st) (cs_layers st))
        end
    end.

(** Modelled from the spec: [TFNetwork._construct_layer], which is not part
    of this file.  It looks up the declaration of [name] (a name that is not
    declared is an error), resolves every name the declaration refers to
    through [get_layer], and hands the result to [add_layer]. *)
Definition _construct_layer (name : string)
    (get_layer : string → Construct LayerRef)
    (add_layer : string → LayerDesc → list LayerRef → Construct unit)
  : Construct unit :=
  match net_dict !! name with
  | None => craise "LayerNotFound"
  | Some desc =>
      sources ←c cmapM get_layer (layer_from desc);
      add_layer name desc sources
  end.

Fixpoint get_templated_layer (fuel : nat) (name : string)
  : Construct LayerRef :=
  match fuel with
  | 0 => λ _, NoFuel
  | S fuel => λ st,
      let '(name, st) :=
        if String.prefix "prev:" name
        then let name := strip_prefix "prev:" name in
             (name,
              mkConstructState (cs_layer_data_templates st)
                               ({[name]} ∪ cs_prev_layers_needed st)
                               (cs_layers st))
        else (name, st) in
      if decide (is_Some (cs_layer_data_templates st !! name))
      then (_ ←c add_dependency (SubnetLayer name);
            cret (SubnetLayer name)) st
      else if String.prefix "base:" name
      then
        let base_name := strip_prefix "base:" name in
        if decide (base_name ∈ parent_layers)
        then (_ ←c add_dependency (BaseLayer base_name);
              cret (BaseLayer base_name)) st
        else Raises "KeyError"
      else
        (_ ←c (match cs_layers st with
               | [] => cret tt
               | _ => add_dependency (SubnetLayer name)
               end);
         _ ←c (λ st, Returned tt
                 (mkConstructState
                    (<[name := mkTemplateLayer name false []]>
                       (cs_layer_data_templates st))
                    (cs_prev_layers_needed st)
                    (cs_layers st ++ [name])));
         _ ←c _construct_layer name (get_templated_layer fuel)
                               add_templated_layer;
         _ ←c (λ st, if decide (last (cs_layers st) = Some name)
                     then Returned tt
                            (mkConstructState
                               (cs_layer_data_templates st)
                               (cs_prev_layers_needed st)
                               (removelast (cs_layers st)))
                     else Raises "AssertionError");
         cret (SubnetLayer name)) st
  end.

Definition _construct_template (fuel : nat) : Outcome unit :=
  (_ ←c get_templated_layer fuel "output";
   _ ←c (λ st, if decide (is_Some (cs_layer_data_templates st !! "output"))
               then Returned tt st else Raises "AssertionError");
   _ ←c (λ st, match cs_layers st with
               | [] => Returned tt st
               | _ => Raises "AssertionError"
               end);
   if decide (is_Some (net_dict !! "end"))
   then _ ←c get_templated_layer fuel "end"; cret tt
   else cret tt)
    (mkConstructState ∅ ∅ []).

(** The number of declared layers that have no template yet. *)
Definition missing_templates (st : ConstructState) : nat :=
  size ((dom net_dict : gset string) ∖ dom (cs_layer_data_templates st)).

(** What a call that returns leaves behind: the stack as it was, no template
    lost, and only declared layers registered. *)
Definition extends_state (st st' : ConstructState) : Prop :=
  cs_layers st' = cs_layers st
  ∧ (dom (cs_layer_data_templates st) : gset string)
    ⊆ dom (cs_layer_data_templates st')
  ∧ (dom (cs_layer_data_templates st') : gset string) ⊆ dom net_dict.

(** A name, as written in a declaration, refers to something that exists:
    after a leading "prev:" is dropped it names a layer of the parent network
    ("base:...") or a declared layer. *)
Definition resolvable (name : string) : Prop :=
  let name := if String.prefix "prev:" name
              then strip_prefix "prev:" name else name in
  if String.prefix "base:" name
  then strip_prefix "base:" name ∈ parent_layers
  else is_Some (net_dict !! name).

(** The declaration has an "output" layer and refers only to names that
    exist. *)
Global Instance resolvable_dec name : Decision (resolvable name).
Proof.
  unfold resolvable.
  destruct (String.prefix "base:"
              (if String.prefix "prev:" name
               then strip_prefix "prev:" name else name)); apply _.
Defined.

Definition closed_net_dict : Prop :=
  is_Some (net_dict !! "output")
  ∧ map_Forall (λ _ desc, Forall resolvable (layer_from desc)) net_dict.

End ConstructTemplate.

(** A declaration whose same-step dependencies cycle: "output" is computed
    from "a" and "a" from "output". *)
Definition cyclic_net_dict : gmap string LayerDesc :=
  {[ "output" := mkLayerDesc "linear" ["a"];
     "a" := mkLayerDesc "linear" ["output"] ]}.

(** *** Small template graphs used as test inputs *)

(** "output" reads the layer "s", which reads its own previous output and a
    layer of the parent network. *)
Definition self_recurrent_templates : gmap string TemplateLayer :=
  {[ "output" := mkTemplateLayer "output" true [SubnetLayer "s"];
     "s" := mkTemplateLayer "s" true [SubnetLayer "s"; BaseLayer "encoder"] ]}.

(** "output" reads the layer "h", which reads a layer of the parent network
    only. *)
Definition feed_forward_templates : gmap string TemplateLayer :=
  {[ "output" := mkTemplateLayer "output" true [SubnetLayer "h"];
     "h" := mkTemplateLayer "h" true [BaseLayer "encoder"] ]}.

(** Initial values used as test inputs on these graphs, with numbers for
    tensors: every layer starts from 7, and the layer "s" has the two
    hidden states "c" and "h". *)
Definition test_initial_output (template_layer : TemplateLayer) : nat := 7.

Definition test_initial_extra (template_layer : TemplateLayer)
  : gmap string nat :=
  if decide (tl_name template_layer = "s")
  then {[ "c" := 1; "h" := 2 ]} else ∅.

(** ** What the template construction leaves behind *)

(** The name a reference written in a declaration stands for, once a
    leading "prev:" is dropped. *)
Definition layer_target (name : string) : string :=
  if String.prefix "prev:" name then strip_prefix "prev:" name else name.

(** The layer object a reference resolves to: a layer of the parent network
    for "base:...", a template of this subnetwork otherwise. *)
Definition layer_ref (name : string) : LayerRef :=
  let name := layer_target name in
  if String.prefix "base:" name
  then BaseLayer (strip_prefix "base:" name)
  else SubnetLayer name.

(** The dependency set of a template after the given references have been
    resolved in this order while it was on top of the stack. *)
Definition add_sources (deps : list LayerRef) (sources : list string)
  : list LayerRef :=
  foldl (λ deps source, set_add (layer_ref source) deps) deps sources.

(** The declaration of [name] refers to the subnetwork layer [other], in the
    same or in the previous step. *)
Definition refers_to (net_dict : gmap string LayerDesc) (name other : string)
  : Prop :=
  ∃ desc source,
    net_dict !! name = Some desc
    ∧ source ∈ layer_from desc
    ∧ layer_ref source = SubnetLayer other.

(** A reference has been resolved: what it stands for exists, and a layer
    referred to with "prev:" is recorded as needed from the previous step. *)
Definition source_resolved (parent_layers : gset string)
    (templates : gmap string TemplateLayer) (prev_layers_needed : gset string)
    (source : string) : Prop :=
  match layer_ref source with
  | SubnetLayer other => is_Some (templates !! other)
  | BaseLayer other => other ∈ parent_layers
  end
  ∧ (String.prefix "prev:" source = true →
     layer_target source ∈ prev_layers_needed).

(** The template of [name] is finished: it is initialized, carries its own
    name, and depends on exactly what its declaration refers to, all of
    which has been resolved. *)
Definition template_complete (net_dict : gmap string LayerDesc)
    (parent_layers : gset string)
    (templates : gmap string TemplateLayer) (prev_layers_needed : gset string)
    (name : string) : Prop :=
  ∃ desc layer,
    net_dict !! name = Some desc
    ∧ templates !! name = Some layer
    ∧ tl_name layer = name
    ∧ tl_initialized layer = true
    ∧ dependencies layer = add_sources [] (layer_from desc)
    ∧ Forall (source_resolved parent_layers templates prev_layers_needed)
             (layer_from desc).

(** A declaration in which "output" reads the previous "end", and "end" is
    declared. *)
Definition end_feedback_net_dict : gmap string LayerDesc :=
  {[ "output" := mkLayerDesc "linear" ["prev:end"];
     "end" := mkLayerDesc "compare" ["base:encoder"] ]}.

(** A declaration in which "output" reads the previous frame of a layer of
    the parent network. *)
Definition prev_base_net_dict : gmap string LayerDesc :=
  {[ "output" := mkLayerDesc "linear" ["prev:base:encoder"] ]}.

(** A declaration with a recurrent layer "s", an "end" layer and a layer
    "unused" that nothing refers to. *)
Definition recurrent_net_dict : gmap string LayerDesc :=
  {[ "output" := mkLayerDesc "linear" ["s"; "base:encoder"];
     "s" := mkLayerDesc "rnn_cell" ["prev:s"; "prev:output"];
     "end" := mkLayerDesc "compare" ["s"];
     "unused" := mkLayerDesc "linear" ["s"] ]}.

(** ** The value [_get_output_subnet_unit] returns *)

(** [tf.reduce_max] over the recorded lengths (no length at all gives an
    empty slice below). *)
Definition reduce_max (l : list nat) : nat := foldr Nat.max 0 l.

(** Lines 921 and 934-938: [final_acc_tas_dict["output_output"].stack()],
    cut to the longest recorded length when the lengths were not known in
    advance.  The dict holds the first accumulator of the loop under
    "output_output" unless search choices have been collected: then it holds
    [search_resolved], the array [new_acc_output_ta] that the backward pass
    (lines 848-920) has returned.  The element shape of these arrays leaves
    the batch dimension open, and stacking such an array of size 0
    raises. *)
Definition rec_layer_output {NetVars Net Val} (cfg : LoopSetup Net Val)
    (final : LoopVars NetVars Val)
    (search_resolved : option (TensorArray Val)) : option (list Val) :=
  output_output ← match collected_choices cfg with
                  | [] => lv_acc_tas final !! 0
                  | _ => search_resolved
                  end;
  if decide (ta_size output_output = 0) then None
  else
    output ← ta_stack output_output;
    if have_known_seq_len cfg then Some output
    else
      seq_len ← final_seq_len cfg final;
      Some (take (reduce_max seq_len) output).

(** ** RecLayer._get_cudnn_param_size *)

Local Open Scope Z_scope.

(** The size of the single parameter vector of a cuDNN RNN.  The direction
    is looked up first (an unknown one is a [KeyError]); an unknown
    [rnn_mode] counts as a plain RNN without gates. *)
Definition _get_cudnn_param_size (num_units input_size num_layers : Z)
    (rnn_mode input_mode direction : string) : Result Z :=
  result_bind
    (if decide (direction = "unidirectional") then Ok 1
     else if decide (direction = "bidirectional") then Ok 2
     else Raised "KeyError")
    (λ dir_count,
       let num_gates := if decide (rnn_mode = "lstm") then 3
                        else if decide (rnn_mode = "gru") then 2
                        else 0 in
       result_bind
         (if bool_decide (input_mode = "linear_input")
             || (bool_decide (input_mode = "auto_select")
                 && bool_decide (num_units ≠ input_size))
          then Ok ((input_size + num_units + 2) * num_units
                   * (num_gates + 1) * dir_count)
          else if bool_decide (input_mode = "skip_input")
                  || (bool_decide (input_mode = "auto_select")
                      && bool_decide (num_units = input_size))
          then Ok ((num_units + 2) * num_units * (num_gates + 1) * dir_count)
          else Raised "invalid input_mode")
         (λ size,
            Ok (size
                + (num_units * dir_count + num_units + 2) * num_units
                  * (num_gates + 1) * dir_count * (num_layers - 1)))).

Local Close Scope Z_scope.

(** ** The registry of RNN cell classes *)

(** [str.lower()], on the ASCII letters (cell names are ASCII). *)
Definition ascii_lower (c : Stdlib.Strings.Ascii.ascii)
  : Stdlib.Strings.Ascii.ascii :=
  let n := Stdlib.Strings.Ascii.nat_of_ascii c in
  if bool_decide (65 ≤ n ≤ 90)
  then Stdlib.Strings.Ascii.ascii_of_nat (n + 32) else c.

Fixpoint str_lower (s : string) : string :=
  match s with
  | EmptyString => EmptyString
  | String c s => String (ascii_lower c) (str_lower s)
  end.

(** [s.endswith(suffix)]. *)
Definition ends_with (suffix s : string) : bool :=
  String.prefix (String.rev suffix) (String.rev s).

(** The key a class is registered under: its name without a trailing
    "Cell", in lower case. *)
Definition cell_name (key : string) : string :=
  str_lower (if ends_with "Cell" key
             then String.substring 0 (String.length key - String.length "Cell")
                                   key
             else key).

(** What [_get_cell] calls to make the cell. *)
Inductive CellCall (Class : Type) :=
  | CudnnCall (rnn_cell_class : Class) (num_layers num_units input_size : Z)
              (input_mode direction : string)
  | RecSeqCall (rnn_cell_class : Class) (n_hidden n_input_dim : Z)
               (input_is_sparse : bool) (step : Z)
  | PlainCall (rnn_cell_class : Class) (n_hidden : Z).
Arguments CudnnCall {Class} _ _ _ _ _ _.
Arguments RecSeqCall {Class} _ _ _ _ _.
Arguments PlainCall {Class} _ _.

Section RnnCells.
(** The values found in the modules: classes and anything else. *)
Context {Class : Type} `{EqDecision Class}.
Variable is_gpu_available : bool.
(** [isinstance(v, type) and issubclass(v, ...)] for the three cell base
    classes, for the two cuDNN classes, and for [RecSeqCellOp] alone. *)
Variable is_cell_class is_cudnn_class is_rec_seq_class : Class → bool.
(** [vars(module).items()] of the three modules, and [rnn_contrib.LSTMCell]. *)
Variable rnn_contrib TFNativeOp cudnn_rnn : list (string * Class).
Variable LSTMCell : Class.

Definition allowed_types (v : Class) : bool :=
  is_cell_class v || (is_gpu_available && is_cudnn_class v).

Definition maybe_add (key : string) (v : Class) (d : gmap string Class)
  : Result (gmap string Class) :=
  if allowed_types v
  then
    let name := cell_name key in
    result_bind
      (assert (bool_decide (d !! name = Some v ∨ d !! name = None))
              "AssertionError")
      (λ _, Ok (<[name := v]> d))
  else Ok d.

(** The entries [_create_rnn_cells_dict] goes through, in this order. *)
Definition rnn_cell_entries : list (string * Class) :=
  rnn_contrib ++ TFNativeOp
  ++ (if is_gpu_available then cudnn_rnn else [])
  ++ [("StandardLSTM", LSTMCell)].

(** The class-level dict is updated in place: when an assertion fails, the
    entries added so far stay. *)
Fixpoint maybe_add_all (entries : list (string * Class))
    (d : gmap string Class) : gmap string Class * Result unit :=
  match entries with
  | [] => (d, Ok tt)
  | (key, v) :: entries =>
      match maybe_add key v d with
      | Ok d => maybe_add_all entries d
      | Raised err => (d, Raised err)
      end
  end.

Definition _create_rnn_cells_dict (d : gmap string Class)
  : gmap string Class * Result unit :=
  maybe_add_all rnn_cell_entries d.

(** The replacements for GPU-only units when there is no GPU. *)
Definition cpu_replacements : gmap string string :=
  {[ "cudnnlstm" := "LSTMBlockFused"; "cudnngru" := "GRUBlock" ]}.

(** [get_rnn_cell_class], on the class-level dict [_rnn_cells_dict], which
    is filled on first use. *)
Definition get_rnn_cell_class (d : gmap string Class) (name : string)
  : gmap string Class * Result Class :=
  let '(d, created) :=
    if decide (d = ∅) then _create_rnn_cells_dict d else (d, Ok tt) in
  (d,
   result_bind created (λ _,
     let name :=
       if is_gpu_available then name
       else match cpu_replacements !! str_lower name with
            | Some replacement => replacement
            | None => name
            end in
     match d !! str_lower name with
     | Some rnn_cell_class => Ok rnn_cell_class
     | None => Raised "KeyError"
     end)).

(** [_get_cell] for a unit given by name: the class that is looked up and
    the call that makes the cell. *)
Definition _get_cell (d : gmap string Class) (unit : string)
    (n_hidden input_dim : Z) (input_sparse : bool) (direction : Z)
  : gmap string Class * Result (CellCall Class) :=
  let unit := if bool_decide (str_lower unit ∈ ["lstmp"; "lstm"])
              then "nativelstm" else unit in
  let '(d, rnn_cell_class) := get_rnn_cell_class d unit in
  (d,
   result_bind rnn_cell_class (λ rnn_cell_class,
     if is_gpu_available && is_cudnn_class rnn_cell_class
     then Ok (CudnnCall rnn_cell_class 1 n_hidden input_dim
                        "linear_input" "unidirectional")
     else if is_rec_seq_class rnn_cell_class
     then Ok (RecSeqCall rnn_cell_class n_hidden input_dim input_sparse
                         direction)
     else Ok (PlainCall rnn_cell_class n_hidden))).

End RnnCells.

(** A small registry used as a test input: classes are numbered; 1 is the
    standard LSTM cell, 2 the block-fused LSTM, 3 the native LSTM, 4 the
    cuDNN LSTM, and 0 stands for a module attribute that is no class. *)
Definition test_rnn_contrib : list (string * nat) :=
  [("LSTMCell", 1); ("LSTMBlockFusedCell", 2); ("python", 0)].
Definition test_native_op : list (string * nat) := [("NativeLstmCell", 3)].
Definition test_cudnn_rnn : list (string * nat) := [("CudnnLSTM", 4)].
Definition test_is_cell_class (v : nat) : bool :=
  bool_decide (v = 1 ∨ v = 2 ∨ v = 3).
Definition test_is_cudnn_class (v : nat) : bool := bool_decide (v = 4).

(** A module in which two different classes get the same key. *)
Definition conflicting_rnn_contrib : list (string * nat) :=
  [("LSTMCell", 1); ("lstm", 2)].

(** ** _SubnetworkRecCell.get_parent_deps *)

(** [dep.network is self.parent_net]. *)
Definition is_parent_layer (dep : LayerRef) : bool :=
  match dep with
  | BaseLayer _ => true
  | SubnetLayer _ => false
  end.

(** The inner loop over the dependencies of one layer. *)
Definition add_parent_deps (l deps : list LayerRef) : list LayerRef :=
  foldl (λ l dep,
           if is_parent_layer dep
           then if decide (dep ∈ l) then l else l ++ [dep]
           else l)
        l deps.

(** [net_layers] holds, for every layer of the step network [self.net], the
    result of its [get_dep_layers()]; before the step network is built it is
    empty, and the templates are used, whose [get_dep_layers()] are then
    their [dependencies]. *)
Definition get_parent_deps (layer_data_templates : gmap string TemplateLayer)
    (net_layers : gmap string (list LayerRef)) : list LayerRef :=
  let layers :=
    if decide (net_layers = ∅)
    then dependencies <$> layer_data_templates
    else net_layers in
  foldl (λ l layer, add_parent_deps l layer.2) []
        (sorted_items (map_to_list layers)).

(** ** ChoiceLayer.get_rec_initial_extra_outputs *)

(** The initial beam scores of a choice layer: [tf.zeros([batch_dim,
    beam_size])] in search mode, nothing otherwise. *)
Definition get_rec_initial_extra_outputs {Score} (score_zero : Score)
    (search_flag : bool) (batch_dim beam_size : nat)
  : gmap string (list (list Score)) :=
  if search_flag
  then {[ "choice_scores" := replicate batch_dim (replicate beam_size score_zero) ]}
  else ∅.

(** A two-step search over one batch entry with beam width 2 in which no
    hypothesis changes its slot. *)
Definition steady_choice_tas : gmap string (TensorArray (list (list nat))) :=
  {[ "output" := mkTA true [Some [[0; 1]]; Some [[0; 1]]] ]}.

Definition steady_output_ta : TensorArray (list nat) :=
  mkTA true [Some [10; 11]; Some [20; 21]].

(** * The step loop *)

Section WhileLoopFacts.
Context {S : Type} (cond : S → bool) (body : S → option S).

Lemma while_loop_finished_cond fuel s s' :
  while_loop cond body fuel s = Finished s' → cond s' = false.
Proof.
  revert s. induction fuel as [|fuel IH]; intros s; simpl; [done|].
  destruct (cond s) eqn:Hc.
  - destruct (body s); [apply IH | done].
  - intros [= <-]. done.
Qed.

Lemma body_calls_cond fuel s x :
  x ∈ body_calls cond body fuel s → cond x = true.
Proof.
  revert s. induction fuel as [|fuel IH]; intros s; simpl.
  - by intros ?%elem_of_nil.
  - destruct (cond s) eqn:Hc; [|by intros ?%elem_of_nil].
    intros [->|Hin]%elem_of_cons; [done|].
    destruct (body s); [by eapply IH | by apply elem_of_nil in Hin].
Qed.

(** Running along a chain [f t, f (t+1), ...] of loop variables. *)
Lemma while_loop_chain (f : nat → S) n :
  ∀ t fuel,
    (∀ s, t ≤ s < t + n → cond (f s) = true ∧ body (f s) = Some (f (Datatypes.S s))) →
    cond (f (t + n)) = false →
    n < fuel →
    while_loop cond body fuel (f t) = Finished (f (t + n))
    ∧ body_calls cond body fuel (f t) = f <$> seq t n.
Proof.
  induction n as [|n IH]; intros t fuel Hstep Hstop Hfuel.
  - destruct fuel as [|fuel]; [lia|]. simpl.
    rewrite Nat.add_0_r in Hstop. rewrite Hstop, Nat.add_0_r. done.
  - destruct fuel as [|fuel]; [lia|]. simpl.
    destruct (Hstep t ltac:(lia)) as [-> ->].
    destruct (IH (Datatypes.S t) fuel) as [-> ->].
    + intros s Hs. apply Hstep. lia.
    + by replace (Datatypes.S t + n) with (t + Datatypes.S n) by lia.
    + lia.
    + split; [f_equal; f_equal; lia | done].
Qed.

End WhileLoopFacts.

Section TensorArrayFacts.
Context {A : Type}.

Lemma ta_write_next (written : list (option A)) k v :
  ta_write (mkTA true (written ++ replicate k None)) (length written) v
  = Some (mkTA true ((written ++ [Some v]) ++ replicate (k - 1) None)).
Proof.
  unfold ta_write; simpl.
  destruct k as [|k]; simpl.
  - rewrite app_nil_r. rewrite lookup_ge_None_2 by lia.
    rewrite Nat.sub_diag. simpl. by rewrite !app_nil_r.
  - rewrite lookup_app_r by lia. rewrite Nat.sub_diag. simpl.
    rewrite Nat.sub_0_r. f_equal. f_equal.
    rewrite insert_app_r_alt by lia. rewrite Nat.sub_diag. simpl.
    by rewrite <-app_assoc.
Qed.

Lemma ta_stack_written dynamic_size (l : list A) :
  ta_stack (mkTA dynamic_size (Some <$> l)) = Some l.
Proof.
  unfold ta_stack; simpl. apply mapM_Some. 
  induction l; constructor; done.
Qed.

End TensorArrayFacts.

Section StepLoopFacts.
Context {NetVars Net Val : Type}.
Variable cell : Cell NetVars Net.
Variable cfg : LoopSetup Net Val.
Variable init_net_vars : NetVars.

Abbreviation info_at := (seq_len_info_at cell cfg init_net_vars).
Abbreviation vars_at := (loop_vars_at cell cfg init_net_vars).

Lemma seq_len_info_at_known seq_len' t :
  seq_len cfg = Some seq_len' → info_at t = None.
Proof.
  intros Hk. induction t as [|t IH]; simpl.
  - unfold have_known_seq_len. by rewrite Hk.
  - by rewrite IH.
Qed.

Lemma seq_len_info_at_dynamic t :
  seq_len cfg = None → end_shape_ok cell cfg →
  ∃ end_flag dyn_seq_len,
    info_at t = Some (end_flag, dyn_seq_len)
    ∧ length end_flag = out_batch_dim cfg
    ∧ length dyn_seq_len = out_batch_dim cfg.
Proof.
  intros Hd Hshape. induction t as [|t IH]; simpl.
  - unfold have_known_seq_len. rewrite Hd.
    eexists _, _. split; [done|]. by rewrite !length_replicate.
  - destruct IH as (ef & dl & -> & Hef & Hdl).
    eexists _, _. split; [done|].
    assert (length (zip_with orb ef (end_at cell init_net_vars t))
            = out_batch_dim cfg) as Hlen.
    { rewrite length_zip_with. unfold end_at, net_at. rewrite Hshape. lia. }
    split; [done|].
    rewrite length_zip_with, length_fmap, Hlen. lia.
Qed.

Lemma acc_tas_write t (net : Net) (outs : list (Net → Val)) :
  net = filtered_net_at cell cfg init_net_vars t →
  mapM (λ p : TensorArray Val * (Net → Val), ta_write p.1 t (p.2 net))
       (zip (acc_ta_at cell cfg init_net_vars t <$> outs) outs)
  = Some (acc_ta_at cell cfg init_net_vars (Datatypes.S t) <$> outs).
Proof.
  intros ->. apply mapM_Some.
  induction outs as [|out outs IH]; simpl; constructor; [|done].
  simpl. unfold acc_ta_at.
  set (w := (λ s, Some (out (filtered_net_at cell cfg init_net_vars s))) <$> seq 0 t).
  assert (length w = t) as Hw by (subst w; by rewrite length_fmap, length_seq).
  rewrite <-Hw at 2. rewrite ta_write_next.
  do 3 f_equal; [by rewrite seq_S, fmap_app | f_equal; lia].
Qed.

Lemma body_loop_vars_at t :
  filter_shape_ok cfg → (seq_len cfg = None → end_shape_ok cell cfg) →
  body cell cfg (vars_at t) = Some (vars_at (Datatypes.S t)).
Proof.
  intros Hfilter Hshape. unfold body.
  cbn [loop_vars_at lv_i lv_net_vars lv_acc_tas lv_seq_len_info].
  destruct (get_next_loop_vars cell (net_vars_at cell init_net_vars t) t)
    as [nv net] eqn:Hstep.
  assert (net_at cell init_net_vars t = net) as Hnet
    by (unfold net_at; by rewrite Hstep).
  set (info' := match info_at t with
                | Some (end_flag, dyn_seq_len) => _
                | None => None
                end).
  assert (info' = info_at (Datatypes.S t)) as Hinfo.
  { subst info'. cbn [seq_len_info_at]. unfold end_at. rewrite Hnet.
    by destruct (info_at t) as [[ef dl]|]. }
  rewrite Hinfo. clear info' Hinfo.
  assert ((match collected_choices cfg with
           | [] => Some net
           | names =>
               c ← seq_filter_cond cfg t (fst <$> info_at (Datatypes.S t));
               Some (foldl (λ net name, filter_seqs cell name c net) net names)
           end) = Some (filtered_net_at cell cfg init_net_vars t)) as ->.
  { unfold filtered_net_at. rewrite Hnet.
    destruct (collected_choices cfg) as [|name names] eqn:Hcc; [done|].
    destruct Hfilter as [?|Hfilter]; [congruence|].
    assert (is_Some (seq_filter_cond cfg t (fst <$> info_at (Datatypes.S t))))
      as [c Hc].
    { unfold seq_filter_cond.
      destruct (seq_len cfg) as [sl|] eqn:Hsl.
      - cbn [mbind option_bind].
        rewrite decide_True by (by rewrite length_fmap). done.
      - destruct (seq_len_info_at_dynamic (Datatypes.S t) Hsl (Hshape eq_refl))
          as (ef & dl & Heq & Hef & _).
        rewrite Heq. cbn [fmap option_fmap option_map fst mbind option_bind].
        rewrite decide_True by (rewrite length_fmap; congruence).
        done. }
    rewrite Hc. done. }
  cbn [mbind option_bind]. unfold acc_tas_at.
  rewrite decide_True by (by rewrite length_fmap).
  rewrite acc_tas_write by done. cbn [mbind option_bind].
  unfold loop_vars_at. rewrite Nat.add_1_r. cbn [net_vars_at].
  rewrite Hstep. done.
Qed.

(** From step [t] on, the loop runs without raising and stops at some step
    [n] not beyond [max_seq_len], the first one whose condition fails. *)
Lemma run_from t :
  filter_shape_ok cfg → (seq_len cfg = None → end_shape_ok cell cfg) →
  t ≤ max_seq_len cfg →
  ∃ n, t ≤ n ≤ max_seq_len cfg
    ∧ (∀ s, t ≤ s < n → cond cfg (vars_at s) = true)
    ∧ cond cfg (vars_at n) = false
    ∧ ∀ fuel, n - t < fuel →
        while_loop (cond cfg) (body cell cfg) fuel (vars_at t)
          = Finished (vars_at n)
        ∧ body_calls (cond cfg) (body cell cfg) fuel (vars_at t)
          = vars_at <$> seq t (n - t).
Proof.
  intros Hfilter Hshape Ht.
  assert (∃ n, t ≤ n ≤ max_seq_len cfg
    ∧ (∀ s, t ≤ s < n → cond cfg (vars_at s) = true)
    ∧ cond cfg (vars_at n) = false) as (n & Hn & Hrun & Hstop).
  { remember (max_seq_len cfg - t) as d eqn:Hd.
    revert t Ht Hd. induction d as [|d IH]; intros t Ht Hd.
    - exists t. split; [lia|]. split; [intros; lia|].
      unfold cond. simpl. rewrite bool_decide_false by lia.
      by destruct (info_at t) as [[??]|].
    - destruct (cond cfg (vars_at t)) eqn:Hc.
      + destruct (IH (Datatypes.S t)) as (n & Hn & Hrun & Hstop); [lia..|].
        exists n. split; [lia|]. split; [|done].
        intros s Hs. destruct (decide (s = t)) as [->|]; [done|].
        apply Hrun. lia.
      + exists t. split; [lia|]. split; [intros; lia | done]. }
  exists n. do 3 (split; [done|]).
  intros fuel Hfuel.
  replace n with (t + (n - t)) at 1 by lia.
  apply while_loop_chain; [| by replace (t + (n - t)) with n by lia | done].
  intros s Hs. split; [apply Hrun; lia | by apply body_loop_vars_at].
Qed.

Lemma loop_vars_at_0 : vars_at 0 = init_loop_vars cfg init_net_vars.
Proof.
  unfold loop_vars_at, init_loop_vars. f_equal.
  unfold acc_tas_at, init_acc_tas. apply list_fmap_ext. intros _ out _.
  unfold acc_ta_at, ta_new. simpl. by rewrite Nat.sub_0_r.
Qed.

Lemma body_info_none (vars vars' : LoopVars NetVars Val) :
  body cell cfg vars = Some vars' →
  (lv_seq_len_info vars' = None ↔ lv_seq_len_info vars = None).
Proof.
  unfold body.
  destruct (get_next_loop_vars cell (lv_net_vars vars) (lv_i vars)) as [nv net].
  intros H. apply bind_Some in H as (net' & _ & H).
  case_decide; [|done].
  apply bind_Some in H as (tas & _ & [= <-]). simpl.
  by destruct (lv_seq_len_info vars) as [[??]|].
Qed.

Lemma body_calls_invariant (P : LoopVars NetVars Val → Prop) fuel vars x :
  P vars →
  (∀ v v', P v → body cell cfg v = Some v' → P v') →
  x ∈ body_calls (cond cfg) (body cell cfg) fuel vars → P x.
Proof.
  intros HP Hstep. revert vars HP.
  induction fuel as [|fuel IH]; intros vars HP; simpl.
  - by intros ?%elem_of_nil.
  - destruct (cond cfg vars); [|by intros ?%elem_of_nil].
    intros [->|Hin]%elem_of_cons; [done|].
    destruct (body cell cfg vars) as [vars'|] eqn:Hb;
      [|by apply elem_of_nil in Hin].
    eapply IH; [|done]. by eapply Hstep.
Qed.

Lemma cond_spec (vars : LoopVars NetVars Val) :
  cond cfg vars = true ↔
  lv_i vars < max_seq_len cfg
  ∧ (lv_seq_len_info vars = None
     ∨ ∃ end_flag dyn_seq_len b,
         lv_seq_len_info vars = Some (end_flag, dyn_seq_len)
         ∧ end_flag !! b = Some false).
Proof.
  unfold cond. destruct (lv_seq_len_info vars) as [[ef dl]|].
  - rewrite andb_true_iff, bool_decide_eq_true, existsb_exists.
    split.
    + intros [Hi (e & Hin & He)]. split; [done|]. right.
      apply list_elem_of_In in Hin. apply list_elem_of_lookup in Hin as [b Hb].
      exists ef, dl, b. split; [done|]. by destruct e.
    + intros [Hi [?|(ef' & dl' & b & [= <- <-] & Hb)]]; [done|].
      split; [done|]. exists false. split; [|done].
      apply list_elem_of_In. by eapply list_elem_of_lookup_2.
  - rewrite bool_decide_eq_true. split; [intros ?; split; [done | by left] | by intros [? _]].
Qed.

(** Before an example's end signal fires, its flag is unset and its length
    counter equals the step index. *)
Lemma info_at_before_fire b t end_flag dyn_seq_len :
  seq_len cfg = None →
  b < out_batch_dim cfg →
  (∀ s, s < t → end_at cell init_net_vars s !! b = Some false) →
  info_at t = Some (end_flag, dyn_seq_len) →
  end_flag !! b = Some false ∧ dyn_seq_len !! b = Some t.
Proof.
  intros Hd Hb. revert end_flag dyn_seq_len.
  induction t as [|t IH]; intros ef dl Hquiet; simpl.
  - unfold have_known_seq_len. rewrite Hd. intros [= <- <-].
    by rewrite !lookup_replicate_2.
  - destruct (info_at t) as [[ef0 dl0]|]; [|done]. intros [= <- <-].
    destruct (IH ef0 dl0) as [Hef Hdl]; [intros; apply Hquiet; lia | done |].
    assert (zip_with orb ef0 (end_at cell init_net_vars t) !! b = Some false)
      as Hef'.
    { rewrite lookup_zip_with, Hef, (Hquiet t) by lia. done. }
    split; [done|].
    rewrite lookup_zip_with, Hdl, list_lookup_fmap, Hef'. simpl.
    f_equal. lia.
Qed.

(** Once it has fired, the flag stays set and the counter stays at the index
    of the first firing step. *)
Lemma info_at_after_fire b t0 t end_flag dyn_seq_len :
  seq_len cfg = None → end_shape_ok cell cfg →
  end_at cell init_net_vars t0 !! b = Some true →
  (∀ s, s < t0 → end_at cell init_net_vars s !! b = Some false) →
  t0 < t →
  info_at t = Some (end_flag, dyn_seq_len) →
  end_flag !! b = Some true ∧ dyn_seq_len !! b = Some t0.
Proof.
  intros Hd Hshape Hfire Hquiet Ht. revert end_flag dyn_seq_len.
  assert (b < out_batch_dim cfg) as Hb.
  { apply lookup_lt_Some in Hfire. unfold end_at, net_at in Hfire.
    by rewrite Hshape in Hfire. }
  induction t as [|t IH]; [lia|]. intros ef dl. simpl.
  destruct (info_at t) as [[ef0 dl0]|] eqn:Hinfo; [|done]. intros [= <- <-].
  assert (∃ e, end_at cell init_net_vars t !! b = Some e) as [e He].
  { apply lookup_lt_is_Some. unfold end_at, net_at. by rewrite Hshape. }
  destruct (decide (t = t0)) as [->|Hne].
  - destruct (info_at_before_fire b t0 ef0 dl0) as [Hef Hdl]; [done..|].
    assert (zip_with orb ef0 (end_at cell init_net_vars t0) !! b = Some true)
      as Hef' by (by rewrite lookup_zip_with, Hef, Hfire).
    split; [done|].
    rewrite lookup_zip_with, Hdl, list_lookup_fmap, Hef'. simpl.
    f_equal. lia.
  - destruct (IH ltac:(lia) ef0 dl0) as [Hef Hdl]; [done|].
    assert (zip_with orb ef0 (end_at cell init_net_vars t) !! b = Some true)
      as Hef' by (by rewrite lookup_zip_with, Hef, He).
    split; [done|].
    rewrite lookup_zip_with, Hdl, list_lookup_fmap, Hef'. simpl.
    f_equal. lia.
Qed.

Lemma acc_tas_at_stack t k ta out :
  min_loop_len cfg ≤ t →
  acc_tas_at cell cfg init_net_vars t !! k = Some ta →
  outputs_to_accumulate cfg !! k = Some out →
  ta_size ta = t
  ∧ ta_stack ta
    = Some ((λ s, out (filtered_net_at cell cfg init_net_vars s)) <$> seq 0 t).
Proof.
  intros Hmin Hta Hout. unfold acc_tas_at in Hta.
  rewrite list_lookup_fmap, Hout in Hta. injection Hta as <-.
  unfold acc_ta_at. replace (min_loop_len cfg - t) with 0 by lia.
  simpl. rewrite app_nil_r. split.
  - unfold ta_size. simpl. by rewrite length_fmap, length_seq.
  - rewrite <-(ta_stack_written true). f_equal. by rewrite <-list_fmap_compose.
Qed.

End StepLoopFacts.

(** ** Claims about the step loop *)

(** C4: with the sequence lengths known in advance (so no dynamic end signal)
    and maximum length L, the loop runs the body exactly L times, on the step
    indices 0, ..., L-1, and afterwards every accumulator has size L and holds
    at index t the value its output had at step t. *)
Theorem c4_known_length_loop_runs_L_steps
    {NetVars Net Val} (cell : Cell NetVars Net) (cfg : LoopSetup Net Val)
    (init_net_vars : NetVars) (known_seq_len : list nat) (fuel : nat) :
  seq_len cfg = Some known_seq_len →
  filter_shape_ok cfg →
  max_seq_len cfg < fuel →
  ∃ final,
    final_loop_vars cell cfg fuel init_net_vars = Finished final
    ∧ lv_i final = max_seq_len cfg
    ∧ lv_i <$> body_calls (cond cfg) (body cell cfg) fuel
                          (init_loop_vars cfg init_net_vars)
      = seq 0 (max_seq_len cfg)
    ∧ lv_seq_len_info final = None
    ∧ length (lv_acc_tas final) = length (outputs_to_accumulate cfg)
    ∧ ∀ k ta out,
        lv_acc_tas final !! k = Some ta →
        outputs_to_accumulate cfg !! k = Some out →
        ta_size ta = max_seq_len cfg
        ∧ ta_stack ta
          = Some ((λ t, out (filtered_net_at cell cfg init_net_vars t))
                  <$> seq 0 (max_seq_len cfg)).
Proof.
  intros Hknown Hfilter Hfuel.
  destruct (run_from cell cfg init_net_vars 0 Hfilter)
    as (n & Hn & Hrun & Hstop & Hloop); [congruence | lia |].
  assert (n = max_seq_len cfg) as ->.
  { unfold cond in Hstop. simpl in Hstop.
    rewrite (seq_len_info_at_known _ _ _ _ _ Hknown) in Hstop.
    apply bool_decide_eq_false in Hstop. lia. }
  destruct (Hloop fuel ltac:(lia)) as [Hfin Hcalls].
  rewrite loop_vars_at_0 in Hfin, Hcalls. rewrite Nat.sub_0_r in Hcalls.
  exists (loop_vars_at cell cfg init_net_vars (max_seq_len cfg)).
  split; [done|]. split; [done|]. split.
  { rewrite Hcalls, <-list_fmap_compose. simpl. apply list_fmap_id. }
  split; [by eapply seq_len_info_at_known|].
  split; [simpl; unfold acc_tas_at; by rewrite length_fmap|].
  intros k ta out Hta Hout. eapply acc_tas_at_stack; [|done..].
  unfold min_loop_len. destruct (have_known_seq_len cfg); lia.
Qed.

Lemma c4_known_length_loop_witness :
  ∃ final,
    final_loop_vars (counting_cell []) known_len_setup 4 0 = Finished final
    ∧ lv_i final = 3
    ∧ lv_i <$> body_calls (cond known_len_setup)
                          (body (counting_cell []) known_len_setup) 4
                          (init_loop_vars known_len_setup 0)
      = [0; 1; 2]
    ∧ lv_seq_len_info final = None
    ∧ length (lv_acc_tas final) = 1
    ∧ ∀ k ta out,
        lv_acc_tas final !! k = Some ta →
        outputs_to_accumulate known_len_setup !! k = Some out →
        ta_size ta = 3
        ∧ ta_stack ta
          = Some ((λ t, out (filtered_net_at (counting_cell [])
                                             known_len_setup 0 t))
                  <$> [0; 1; 2]).
Proof.
  apply (c4_known_length_loop_runs_L_steps
           (counting_cell []) known_len_setup 0 [3; 2] 4).
  - reflexivity.
  - left. reflexivity.
  - simpl. lia.
Defined.

(** C5: the loop condition holds exactly when the step index is below the
    maximum length and either no dynamic end signal is configured or some
    example has not signalled its end; the body only ever runs on loop
    variables satisfying it, and the loop stops at the first ones that do
    not. *)
Theorem c5_loop_runs_exactly_while_cond
    {NetVars Net Val} (cell : Cell NetVars Net) (cfg : LoopSetup Net Val) :
  (∀ vars : LoopVars NetVars Val,
     cond cfg vars = true ↔
     lv_i vars < max_seq_len cfg
     ∧ (lv_seq_len_info vars = None
        ∨ ∃ end_flag dyn_seq_len b,
            lv_seq_len_info vars = Some (end_flag, dyn_seq_len)
            ∧ end_flag !! b = Some false))
  ∧ (∀ fuel init_net_vars vars,
       vars ∈ body_calls (cond cfg) (body cell cfg) fuel
                         (init_loop_vars cfg init_net_vars) →
       lv_i vars < max_seq_len cfg
       ∧ if have_known_seq_len cfg
         then lv_seq_len_info vars = None
         else ∃ end_flag dyn_seq_len b,
                lv_seq_len_info vars = Some (end_flag, dyn_seq_len)
                ∧ end_flag !! b = Some false)
  ∧ (∀ fuel init_net_vars final,
       final_loop_vars cell cfg fuel init_net_vars = Finished final →
       cond cfg final = false).
Proof.
  split; [apply cond_spec|]. split.
  - intros fuel nv0 vars Hin.
    pose proof (body_calls_cond _ _ _ _ _ Hin) as Hc.
    apply cond_spec in Hc as [Hi Hflag]. split; [done|].
    assert (lv_seq_len_info vars = None ↔ have_known_seq_len cfg = true)
      as Hinfo.
    { apply (body_calls_invariant cell cfg
               (λ v, lv_seq_len_info v = None ↔ have_known_seq_len cfg = true)
               fuel (init_loop_vars cfg nv0) vars); [| |exact Hin].
      - simpl. destruct (have_known_seq_len cfg); naive_solver.
      - intros v v' Hv Hb. by rewrite (body_info_none _ _ _ _ Hb). }
    destruct (have_known_seq_len cfg).
    + by apply Hinfo.
    + destruct Hflag as [Hnone|?]; [|done].
      apply Hinfo in Hnone. done.
  - intros fuel nv0 final. apply while_loop_finished_cond.
Qed.

(** C3 (as the code has it): with a dynamic end signal the loop finishes
    after some number n of iterations, n at most the maximum length.  An
    example whose end signal first fires at an executed step t0 has recorded
    length t0: the firing step is executed and its outputs are accumulated,
    but it is not counted.  An example whose signal has not fired in any
    executed step has recorded length n.  With a single example whose signal
    first fires at step t0 below the maximum length, n = t0 + 1 and the
    recorded length is t0. *)
Theorem c3_dynamic_length_is_first_end_step
    {NetVars Net Val} (cell : Cell NetVars Net) (cfg : LoopSetup Net Val)
    (init_net_vars : NetVars) (fuel : nat) :
  seq_len cfg = None →
  filter_shape_ok cfg →
  end_shape_ok cell cfg →
  max_seq_len cfg < fuel →
  ∃ final n dyn_seq_len,
    final_loop_vars cell cfg fuel init_net_vars = Finished final
    ∧ length (body_calls (cond cfg) (body cell cfg) fuel
                         (init_loop_vars cfg init_net_vars)) = n
    ∧ n ≤ max_seq_len cfg
    ∧ final_seq_len cfg final = Some dyn_seq_len
    ∧ length dyn_seq_len = out_batch_dim cfg
    ∧ (∀ k ta out,
         lv_acc_tas final !! k = Some ta →
         outputs_to_accumulate cfg !! k = Some out →
         ta_stack ta
         = Some ((λ t, out (filtered_net_at cell cfg init_net_vars t))
                 <$> seq 0 n))
    ∧ (∀ b t0,
         t0 < n →
         end_at cell init_net_vars t0 !! b = Some true →
         (∀ s, s < t0 → end_at cell init_net_vars s !! b = Some false) →
         dyn_seq_len !! b = Some t0)
    ∧ (∀ b,
         b < out_batch_dim cfg →
         (∀ s, s < n → end_at cell init_net_vars s !! b = Some false) →
         dyn_seq_len !! b = Some n)
    ∧ (out_batch_dim cfg = 1 →
       ∀ t0,
         t0 < max_seq_len cfg →
         end_at cell init_net_vars t0 !! 0 = Some true →
         (∀ s, s < t0 → end_at cell init_net_vars s !! 0 = Some false) →
         n = t0 + 1 ∧ dyn_seq_len = [t0]).
Proof.
  intros Hdyn Hfilter Hshape Hfuel.
  destruct (run_from cell cfg init_net_vars 0 Hfilter)
    as (n & Hn & Hrun & Hstop & Hloop); [done | lia |].
  destruct (Hloop fuel ltac:(lia)) as [Hfin Hcalls].
  rewrite loop_vars_at_0 in Hfin, Hcalls. rewrite Nat.sub_0_r in Hcalls.
  destruct (seq_len_info_at_dynamic cell cfg init_net_vars n Hdyn Hshape)
    as (ef & dl & Hinfo & Hef & Hdl).
  exists (loop_vars_at cell cfg init_net_vars n), n, dl.
  split; [done|].
  split; [by rewrite Hcalls, length_fmap, length_seq|].
  split; [lia|].
  split; [unfold final_seq_len; simpl; by rewrite Hinfo|].
  split; [done|].
  split.
  { intros k ta out Hta Hout.
    eapply acc_tas_at_stack; [|done..].
    unfold min_loop_len, have_known_seq_len. rewrite Hdyn. lia. }
  split.
  { intros b t0 Ht0 Hfire Hquiet.
    by eapply (info_at_after_fire cell cfg init_net_vars b t0 n). }
  split.
  { intros b Hb Hquiet.
    by eapply (info_at_before_fire cell cfg init_net_vars b n). }
  intros Hone t0 Ht0 Hfire Hquiet.
  assert (t0 < n) as Hlt.
  { destruct (decide (t0 < n)) as [|Hge]; [done|]. exfalso.
    destruct (seq_len_info_at_dynamic cell cfg init_net_vars n Hdyn Hshape)
      as (ef' & dl' & Hinfo' & _ & _).
    destruct (info_at_before_fire cell cfg init_net_vars 0 n ef' dl')
      as [Hflag _]; [done | lia | intros; apply Hquiet; lia | done |].
    assert (cond cfg (loop_vars_at cell cfg init_net_vars n) = true) as Hc.
    { apply cond_spec. split; [simpl; lia|]. right.
      exists ef', dl', 0. done. }
    congruence. }
  assert (n ≤ t0 + 1) as Hle.
  { destruct (decide (n ≤ t0 + 1)) as [|Hgt]; [done|]. exfalso.
    specialize (Hrun (t0 + 1) ltac:(lia)).
    apply cond_spec in Hrun as [_ [Hnone|(ef' & dl' & b & Hinfo' & Hb)]].
    - simpl in Hnone.
      destruct (seq_len_info_at_dynamic cell cfg init_net_vars (t0 + 1)
                  Hdyn Hshape) as (? & ? & ? & _); congruence.
    - simpl in Hinfo'.
      destruct (seq_len_info_at_dynamic cell cfg init_net_vars (t0 + 1)
                  Hdyn Hshape) as (ef'' & dl'' & Hinfo'' & Hlen & _).
      assert (b = 0) as ->.
      { apply lookup_lt_Some in Hb.
        rewrite Hinfo'' in Hinfo'. injection Hinfo' as <- <-. lia. }
      destruct (info_at_after_fire cell cfg init_net_vars 0 t0 (t0 + 1)
                  ef' dl') as [Hflag _]; [done.. | lia | done |].
      congruence. }
  split; [lia|].
  destruct (info_at_after_fire cell cfg init_net_vars 0 t0 n ef dl)
    as [_ Hlen]; [done..|].
  destruct dl as [|d [|??]]; simpl in *; [lia | | lia].
  by injection Hlen as ->.
Qed.

Lemma c3_dynamic_length_witness :
  ∃ final n dyn_seq_len,
    final_loop_vars (counting_cell [1; 3]) (dynamic_setup 10 2) 11 0
      = Finished final
    ∧ length (body_calls (cond (dynamic_setup 10 2))
                         (body (counting_cell [1; 3]) (dynamic_setup 10 2)) 11
                         (init_loop_vars (dynamic_setup 10 2) 0)) = n
    ∧ n ≤ 10
    ∧ final_seq_len (dynamic_setup 10 2) final = Some dyn_seq_len
    ∧ length dyn_seq_len = 2
    ∧ (∀ k ta out,
         lv_acc_tas final !! k = Some ta →
         outputs_to_accumulate (dynamic_setup 10 2) !! k = Some out →
         ta_stack ta
         = Some ((λ t, out (filtered_net_at (counting_cell [1; 3])
                                            (dynamic_setup 10 2) 0 t))
                 <$> seq 0 n))
    ∧ (∀ b t0,
         t0 < n →
         end_at (counting_cell [1; 3]) 0 t0 !! b = Some true →
         (∀ s, s < t0 → end_at (counting_cell [1; 3]) 0 s !! b = Some false) →
         dyn_seq_len !! b = Some t0)
    ∧ (∀ b,
         b < 2 →
         (∀ s, s < n → end_at (counting_cell [1; 3]) 0 s !! b = Some false) →
         dyn_seq_len !! b = Some n)
    ∧ (2 = 1 →
       ∀ t0,
         t0 < 10 →
         end_at (counting_cell [1; 3]) 0 t0 !! 0 = Some true →
         (∀ s, s < t0 → end_at (counting_cell [1; 3]) 0 s !! 0 = Some false) →
         n = t0 + 1 ∧ dyn_seq_len = [t0]).
Proof.
  apply (c3_dynamic_length_is_first_end_step
           (counting_cell [1; 3]) (dynamic_setup 10 2) 0 11).
  - reflexivity.
  - left. reflexivity.
  - intros net_vars i. reflexivity.
  - simpl. lia.
Defined.

(** C3, the claim as stated, fails: a single example whose end signal does
    not fire within the maximum length of 2 steps gets the recorded length 2,
    the number of iterations, not one less. *)
Lemma c3_recorded_length_not_always_one_less :
  ¬ recorded_length_one_less never_ending_cell (dynamic_setup 2 1) 0 3.
Proof.
  intros H.
  specialize (H _ [2] 0 2 eq_refl eq_refl eq_refl).
  vm_compute in H. discriminate H.
Qed.

(** * ChoiceLayer *)

Section TopKFacts.
Context {Score : Type} {ops : ScoreOps Score}.

Lemma insert_by_score_perm (x : nat * Score) l :
  insert_by_score x l ≡ₚ x :: l.
Proof.
  induction l as [|y l IH]; simpl; [done|].
  destruct (score_ltb x.2 y.2); [|done].
  rewrite IH. apply Permutation_swap.
Qed.

Lemma sort_by_score_perm (row : list Score) :
  sort_by_score row ≡ₚ imap pair row.
Proof.
  unfold sort_by_score. induction (imap pair row) as [|x l IH]; simpl; [done|].
  by rewrite insert_by_score_perm, IH.
Qed.

Lemma length_sort_by_score (row : list Score) :
  length (sort_by_score row) = length row.
Proof. by rewrite sort_by_score_perm, length_imap. Qed.

Lemma elem_of_sort_by_score (row : list Score) idx v :
  (idx, v) ∈ sort_by_score row ↔ row !! idx = Some v.
Proof.
  rewrite sort_by_score_perm, elem_of_lookup_imap. split.
  - intros (i & x & [= -> ->] & Hx). done.
  - intros Hx. by exists idx, v.
Qed.

Lemma top_k_is_Some k (row : list Score) :
  k ≤ length row → is_Some (top_k k row).
Proof. intros Hk. unfold top_k. by rewrite decide_True. Qed.

(** The entries [top_k] returns: [k] of them, each an index of the row
    together with the score found there. *)
Lemma top_k_Some k (row : list Score) vals idxs :
  top_k k row = Some (vals, idxs) →
  length vals = k ∧ length idxs = k
  ∧ ∀ j idx, idxs !! j = Some idx →
      ∃ v, vals !! j = Some v ∧ row !! idx = Some v.
Proof.
  unfold top_k. case_decide as Hk; [|done]. intros [= <- <-].
  rewrite !length_fmap, length_take, length_sort_by_score.
  split; [lia|]. split; [lia|].
  intros j idx Hj. rewrite list_lookup_fmap in Hj.
  destruct (take k (sort_by_score row) !! j) as [[i v]|] eqn:Hlook; [|done].
  simpl in Hj. injection Hj as ->.
  exists v. rewrite list_lookup_fmap, Hlook. split; [done|].
  apply elem_of_sort_by_score.
  apply (subseteq_take k). by eapply list_elem_of_lookup_2.
Qed.

(** The indices [top_k] returns are pairwise distinct. *)
Lemma top_k_NoDup k (row : list Score) vals idxs :
  top_k k row = Some (vals, idxs) → NoDup idxs.
Proof.
  unfold top_k. case_decide; [|done]. intros [= _ <-].
  rewrite fmap_take.
  apply (sublist_NoDup _ ((sort_by_score row).*1)); [|apply sublist_take].
  rewrite sort_by_score_perm, fmap_imap.
  rewrite (imap_ext _ (λ i _, i)) by done.
  rewrite imap_seq_0, list_fmap_id. apply NoDup_seq.
Qed.

Section Ordered.
Hypothesis ltb_asym : ∀ x y : Score, score_ltb x y = true → score_ltb y x = false.
Hypothesis geb_trans : ∀ x y z : Score,
  score_ltb x y = false → score_ltb y z = false → score_ltb x z = false.

Lemma insert_by_score_sorted x l :
  Sorted by_score l → Sorted by_score (insert_by_score x l).
Proof.
  induction 1 as [|y l Hl IH Hhd]; simpl.
  - repeat constructor.
  - destruct (score_ltb x.2 y.2) eqn:Hxy.
    + constructor; [done|].
      destruct l as [|z l]; simpl in *.
      * constructor. by apply ltb_asym.
      * destruct (score_ltb x.2 z.2).
        -- constructor. by inv Hhd.
        -- constructor. by apply ltb_asym.
    + constructor; [by constructor|]. by constructor.
Qed.

Lemma sort_by_score_sorted (row : list Score) :
  StronglySorted by_score (sort_by_score row).
Proof.
  apply Sorted_StronglySorted.
  { intros a b c. apply geb_trans. }
  unfold sort_by_score. induction (imap pair row) as [|x l IH]; simpl.
  - constructor.
  - by apply insert_by_score_sorted.
Qed.

(** No entry left out by [top_k] has a higher score than a returned one. *)
Lemma top_k_best k (row : list Score) vals idxs idx idx' v v' :
  top_k k row = Some (vals, idxs) →
  idx ∈ idxs → idx' ∉ idxs →
  row !! idx = Some v → row !! idx' = Some v' →
  score_ltb v v' = false.
Proof.
  unfold top_k. case_decide as Hk; [|done]. intros [= <- <-] Hin Hout Hv Hv'.
  pose proof (sort_by_score_sorted row) as Hsorted.
  rewrite <-(take_drop k (sort_by_score row)) in Hsorted.
  apply list_elem_of_fmap in Hin as ([i w] & -> & Hin). simpl in Hv.
  assert (w = v) as ->.
  { apply subseteq_take, elem_of_sort_by_score in Hin. congruence. }
  assert ((idx', v') ∈ drop k (sort_by_score row)) as Hdrop.
  { apply elem_of_sort_by_score in Hv'.
    rewrite <-(take_drop k (sort_by_score row)) in Hv'.
    apply elem_of_app in Hv' as [Htake|?]; [|done].
    exfalso. apply Hout. apply list_elem_of_fmap. by exists (idx', v'). }
  apply (StronglySorted_app_1_elem_of _ _ _ _ _ Hsorted Hin Hdrop).
Qed.

End Ordered.
End TopKFacts.

Section ChoiceLayerFacts.
Context {Score : Type} {ops : ScoreOps Score}.

Lemma to_log_space_Some input_type (scores_in : list (list Score)) :
  input_type = "prob" ∨ input_type = "log_prob" →
  to_log_space input_type scores_in
  = Some ((λ row : list Score, score_contribution input_type <$> row) <$> scores_in).
Proof.
  intros Hty. unfold to_log_space, score_contribution.
  destruct (decide (input_type = "prob")) as [->|Hne]; [done|].
  destruct Hty as [?| ->]; [done|]. simpl. f_equal.
  rewrite <-(list_fmap_id scores_in) at 1.
  apply list_fmap_ext. intros _ row _. simpl. by rewrite list_fmap_id.
Qed.

(** The candidate matrix: one row per example, holding at flattened index
    [i * dim + d] the sum of the score contribution [d] of incoming slot [i]
    and the accumulated score of that slot. *)
Lemma scores_in_flat_spec input_type batch dim
    (scores_base scores_in : list (list Score)) :
  input_type = "prob" ∨ input_type = "log_prob" →
  length scores_base = batch →
  Forall (λ r, length r = beam_in scores_base) scores_base →
  length scores_in = batch * beam_in scores_base →
  Forall (λ r, length r = dim) scores_in →
  ∃ flat,
    scores_in_flat input_type batch scores_base scores_in dim = Some flat
    ∧ length flat = batch
    ∧ Forall (λ r, length r = beam_in scores_base * dim) flat
    ∧ ∀ b i d row_in x base_row base,
        scores_in !! (b * beam_in scores_base + i) = Some row_in →
        row_in !! d = Some x →
        scores_base !! b = Some base_row →
        base_row !! i = Some base →
        ∃ row, flat !! b = Some row
          ∧ row !! (i * dim + d)
            = Some (score_add (score_contribution input_type x) base).
Proof.
  intros Hty Hbase Hbase_rows Hin Hin_rows.
  unfold scores_in_flat. rewrite to_log_space_Some by done.
  set (beam := beam_in scores_base) in *.
  set (L := (λ row : list Score, score_contribution input_type <$> row) <$> scores_in).
  assert (length L = batch * beam) as HL by (subst L; by rewrite length_fmap).
  assert (Forall (λ r, length r = dim) L) as HL_rows.
  { subst L. apply Forall_fmap. eapply Forall_impl; [done|].
    intros r Hr. simpl. by rewrite length_fmap. }
  cbn [mbind option_bind]. unfold reshape_batch_beam.
  rewrite decide_True by (rewrite HL; done). cbn [mbind option_bind].
  set (R3 := (λ b, (λ i, L !!! (b * beam + i)) <$> seq 0 beam) <$> seq 0 batch).
  assert (length R3 = batch) as HR3 by (subst R3; by rewrite length_fmap, length_seq).
  assert (∀ b, b < batch →
            R3 !! b = Some ((λ i, L !!! (b * beam + i)) <$> seq 0 beam)) as HR3b.
  { intros b Hb. subst R3. rewrite list_lookup_fmap.
    rewrite (proj2 (lookup_seq 0 batch b b)) by (split; [done | lia]). done. }
  unfold add_scores_base. rewrite decide_True; cycle 1.
  { split; [by rewrite HR3, Hbase|].
    apply Forall2_same_length_lookup_2; [by rewrite HR3, Hbase|].
    intros b x y Hx Hy.
    assert (b < batch) as Hb by (apply lookup_lt_Some in Hx; lia).
    rewrite (HR3b b Hb) in Hx. injection Hx as <-.
    rewrite length_fmap, length_seq.
    rewrite Forall_forall in Hbase_rows. symmetry. apply Hbase_rows.
    by eapply list_elem_of_lookup_2. }
  cbn [mbind option_bind]. eexists. split; [done|].
  set (g := λ (row : list Score) base, (λ x, score_add x base) <$> row).
  assert (∀ b base_row, scores_base !! b = Some base_row →
            zip_with (zip_with g) R3 scores_base !! b
            = Some (zip_with g ((λ i, L !!! (b * beam + i)) <$> seq 0 beam)
                             base_row)) as Hzip.
  { intros b base_row Hb. rewrite lookup_zip_with.
    rewrite HR3b by (apply lookup_lt_Some in Hb; lia).
    simpl. by rewrite Hb. }
  assert (∀ b base_row, scores_base !! b = Some base_row →
            Forall (λ l, length l = dim)
              (zip_with g ((λ i, L !!! (b * beam + i)) <$> seq 0 beam) base_row))
    as Hinner.
  { intros b base_row Hb. apply Forall_forall. intros l Hl.
    apply list_elem_of_lookup in Hl as [i Hl].
    rewrite lookup_zip_with in Hl.
    rewrite list_lookup_fmap in Hl.
    destruct (seq 0 beam !! i) as [i'|] eqn:Hi; [|done]. simpl in Hl.
    apply lookup_seq in Hi as [-> Hi]. simpl in Hl.
    destruct (base_row !! i) as [base|]; [|done]. simpl in Hl.
    injection Hl as <-. subst g. simpl. rewrite length_fmap.
    rewrite Forall_forall in HL_rows. apply HL_rows.
    apply list_elem_of_lookup_total_2.
    apply lookup_lt_Some in Hb. rewrite HL. nia. }
  split; [by rewrite length_fmap, length_zip_with, HR3, Hbase, Nat.min_id|].
  split.
  { apply Forall_fmap, Forall_forall. intros rows Hrows. simpl.
    apply list_elem_of_lookup in Hrows as [b Hrows].
    assert (is_Some (scores_base !! b)) as [base_row Hb].
    { apply lookup_lt_is_Some. apply lookup_lt_Some in Hrows.
      rewrite length_zip_with in Hrows. lia. }
    rewrite (Hzip b base_row Hb) in Hrows. injection Hrows as <-.
    rewrite length_join, (sum_list_fmap_same dim) by by eapply Hinner.
    rewrite length_zip_with, length_fmap, length_seq.
    rewrite Forall_forall in Hbase_rows.
    rewrite (Hbase_rows base_row) by by eapply list_elem_of_lookup_2.
    fold beam. rewrite Nat.min_id. done. }
  intros b i d row_in x base_row base Hrow_in Hx Hb Hbase_i.
  eexists. rewrite list_lookup_fmap, (Hzip b base_row Hb). split; [done|].
  assert (i < beam) as Hi.
  { rewrite Forall_forall in Hbase_rows.
    rewrite <-(Hbase_rows base_row) by by eapply list_elem_of_lookup_2.
    by eapply lookup_lt_Some. }
  assert (d < dim) as Hd.
  { rewrite Forall_forall in Hin_rows.
    rewrite <-(Hin_rows row_in) by by eapply list_elem_of_lookup_2.
    by eapply lookup_lt_Some. }
  apply (join_lookup_Some_same_length' dim); [by eapply Hinner | done |].
  eexists. split.
  - rewrite lookup_zip_with, list_lookup_fmap.
    rewrite (proj2 (lookup_seq 0 beam i i)) by (split; [done | lia]).
    simpl. rewrite Hbase_i. simpl. done.
  - subst g. simpl. rewrite list_lookup_fmap.
    assert (L !! (b * beam + i) = Some (score_contribution input_type <$> row_in))
      as HLi by (subst L; by rewrite list_lookup_fmap, Hrow_in).
    rewrite (list_lookup_total_correct _ _ _ HLi).
    rewrite list_lookup_fmap, Hx. done.
Qed.

End ChoiceLayerFacts.

Section ChoiceLayerClaim.
Context {Score : Type} {ops : ScoreOps Score}.

(** C1: at a choice layer that searches (lines 1733-1756: search mode, input
    type "prob" or "log_prob"), the candidate scores are the per-value score
    contributions (their logarithm for "prob") added to the incoming
    accumulated score of their beam slot, flattened per example over
    (incoming beam, value); [top_k] with k the beam width selects among them
    k pairwise distinct flattened indices per example, none of them of a
    lower score than an index left out; every retained slot records as
    parent the flattened index divided by the number of values D and puts
    out the index modulo D, and its new score is the candidate score at that
    index. *)
Theorem c1_choice_layer_selects_and_decodes
    (beam_size : nat) (input_type : string) (batch dim : nat)
    (scores_base scores_in : list (list Score)) :
  input_type = "prob" ∨ input_type = "log_prob" →
  length scores_base = batch →
  Forall (λ r, length r = beam_in scores_base) scores_base →
  length scores_in = batch * beam_in scores_base →
  Forall (λ r, length r = dim) scores_in →
  beam_size ≤ beam_in scores_base * dim →
  ∃ flat best parents scores labels,
    scores_in_flat input_type batch scores_base scores_in dim = Some flat
    ∧ (∀ b i d row_in x base_row base,
         scores_in !! (b * beam_in scores_base + i) = Some row_in →
         row_in !! d = Some x →
         scores_base !! b = Some base_row →
         base_row !! i = Some base →
         ∃ row, flat !! b = Some row
           ∧ row !! (i * dim + d)
             = Some (score_add (score_contribution input_type x) base))
    ∧ mapM (top_k beam_size) flat = Some best
    ∧ choice_layer_search beam_size input_type batch scores_base scores_in dim
      = Some (mkChoiceResult (Some parents) (Some scores) (Labels labels))
    ∧ length parents = batch
    ∧ length labels = batch * beam_size
    ∧ (∀ b j, b < batch → j < beam_size →
         ∃ idx row score vals idxs,
           flat !! b = Some row
           ∧ best !! b = Some (vals, idxs)
           ∧ idxs !! j = Some idx
           ∧ row !! idx = Some score
           ∧ parents !! b ≫= (.!! j) = Some (idx / dim)
           ∧ labels !! (b * beam_size + j) = Some (idx mod dim)
           ∧ scores !! b ≫= (.!! j) = Some score
           ∧ idx / dim < beam_in scores_base
           ∧ idx mod dim < dim)
    ∧ (∀ b vals idxs,
         best !! b = Some (vals, idxs) →
         length idxs = beam_size ∧ NoDup idxs)
    ∧ ((∀ x y : Score, score_ltb x y = true → score_ltb y x = false) →
       (∀ x y z : Score, score_ltb x y = false → score_ltb y z = false →
                         score_ltb x z = false) →
       ∀ b row vals idxs idx idx' v v',
         flat !! b = Some row →
         best !! b = Some (vals, idxs) →
         idx ∈ idxs → idx' ∉ idxs →
         row !! idx = Some v → row !! idx' = Some v' →
         score_ltb v v' = false).
Proof.
  intros Hty Hbase Hbase_rows Hin Hin_rows Hk.
  destruct (scores_in_flat_spec input_type batch dim scores_base scores_in)
    as (flat & Hflat & Hflat_len & Hflat_rows & Hcand); [done..|].
  assert (is_Some (mapM (top_k beam_size) flat)) as [best Hbest].
  { apply mapM_is_Some. eapply Forall_impl; [exact Hflat_rows|].
    intros row Hrow. simpl in *. apply top_k_is_Some. lia. }
  pose proof Hbest as Hbest2. apply mapM_Some in Hbest2.
  assert (length best = batch) as Hbest_len
    by (by rewrite <-(Forall2_length _ _ _ Hbest2)).
  assert (Forall (λ l, length l = beam_size)
            ((λ row : list nat, (λ l, l mod dim) <$> row) <$> (snd <$> best)))
    as Hlab_rows.
  { apply Forall_fmap, Forall_fmap, Forall_forall. intros [vals idxs] Hx.
    simpl. rewrite length_fmap.
    apply list_elem_of_lookup in Hx as [b Hx].
    destruct (Forall2_lookup_r _ _ _ _ _ Hbest2 Hx) as (row & _ & Htop).
    by apply top_k_Some in Htop as (_ & ? & _). }
  eexists flat, best, _, _, _.
  split; [done|]. split; [done|]. split; [done|]. split.
  { unfold choice_layer_search.
    rewrite decide_False by (destruct Hty as [-> | ->]; done).
    rewrite Hflat. cbn [mbind option_bind]. rewrite Hbest.
    cbn [mbind option_bind]. done. }
  split; [by rewrite !length_fmap|].
  split.
  { rewrite length_join, (sum_list_fmap_same beam_size) by done.
    by rewrite !length_fmap, Hbest_len. }
  split.
  - intros b j Hb Hj.
    assert (is_Some (flat !! b)) as [row Hrow]
      by (apply lookup_lt_is_Some; lia).
    destruct (Forall2_lookup_l _ _ _ _ _ Hbest2 Hrow)
      as ([vals idxs] & Hbest_b & Htop).
    pose proof (top_k_Some _ _ _ _ Htop) as (Hvals & Hidxs & Hsel).
    assert (is_Some (idxs !! j)) as [idx Hidx]
      by (apply lookup_lt_is_Some; lia).
    destruct (Hsel j idx Hidx) as (score & Hscore & Hrow_idx).
    assert (idx < beam_in scores_base * dim) as Hidx_lt.
    { rewrite Forall_forall in Hflat_rows.
      rewrite <-(Hflat_rows row) by by eapply list_elem_of_lookup_2.
      by eapply lookup_lt_Some. }
    assert (dim ≠ 0) as Hdim by (intros ->; lia).
    exists idx, row, score, vals, idxs.
    split; [done|]. split; [done|]. split; [done|]. split; [done|].
    split.
    { rewrite !list_lookup_fmap, Hbest_b. simpl.
      by rewrite list_lookup_fmap, Hidx. }
    split.
    { apply (join_lookup_Some_same_length' beam_size); [done..|].
      eexists. rewrite !list_lookup_fmap, Hbest_b. simpl.
      split; [done|]. by rewrite list_lookup_fmap, Hidx. }
    split.
    { rewrite !list_lookup_fmap, Hbest_b. simpl. done. }
    split.
    + apply Nat.Div0.div_lt_upper_bound. lia.
    + by apply Nat.mod_upper_bound.
  - split.
    { intros b vals idxs Hbest_b.
      destruct (Forall2_lookup_r _ _ _ _ _ Hbest2 Hbest_b)
        as (row & _ & Htop).
      split; [by apply top_k_Some in Htop as (_ & ? & _)|].
      by eapply top_k_NoDup. }
    intros Hasym Htrans b row vals idxs idx idx' v v' Hrow Hbest_b.
    destruct (Forall2_lookup_l _ _ _ _ _ Hbest2 Hrow) as (y & Hy & Htop).
    rewrite Hbest_b in Hy. injection Hy as <-.
    by eapply top_k_best.
Qed.

End ChoiceLayerClaim.

Lemma c1_choice_layer_witness :
  ∃ flat best parents scores labels,
    scores_in_flat (ops := Z_scores) "log_prob" 1 [[0; -1]]%Z
                   [[-1; -5; -3]; [-1; -2; -9]]%Z 3 = Some flat
    ∧ (∀ b i d row_in x base_row base,
         [[-1; -5; -3]; [-1; -2; -9]]%Z !! (b * 2 + i) = Some row_in →
         row_in !! d = Some x →
         [[0; -1]]%Z !! b = Some base_row →
         base_row !! i = Some base →
         ∃ row, flat !! b = Some row
           ∧ row !! (i * 3 + d)
             = Some (x + base)%Z)
    ∧ mapM (top_k (ops := Z_scores) 2) flat = Some best
    ∧ choice_layer_search (ops := Z_scores) 2 "log_prob" 1 [[0; -1]]%Z
                          [[-1; -5; -3]; [-1; -2; -9]]%Z 3
      = Some (mkChoiceResult (Some parents) (Some scores) (Labels labels))
    ∧ length parents = 1
    ∧ length labels = 2
    ∧ (∀ b j, b < 1 → j < 2 →
         ∃ idx row score vals idxs,
           flat !! b = Some row
           ∧ best !! b = Some (vals, idxs)
           ∧ idxs !! j = Some idx
           ∧ row !! idx = Some score
           ∧ parents !! b ≫= (.!! j) = Some (idx / 3)
           ∧ labels !! (b * 2 + j) = Some (idx mod 3)
           ∧ scores !! b ≫= (.!! j) = Some score
           ∧ idx / 3 < 2
           ∧ idx mod 3 < 3)
    ∧ (∀ b vals idxs,
         best !! b = Some (vals, idxs) →
         length idxs = 2 ∧ NoDup idxs)
    ∧ ((∀ x y : Z, (x <? y)%Z = true → (y <? x)%Z = false) →
       (∀ x y z : Z, (x <? y)%Z = false → (y <? z)%Z = false →
                     (x <? z)%Z = false) →
       ∀ b row vals idxs idx idx' v v',
         flat !! b = Some row →
         best !! b = Some (vals, idxs) →
         idx ∈ idxs → idx' ∉ idxs →
         row !! idx = Some v → row !! idx' = Some v' →
         (v <? v')%Z = false).
Proof.
  apply (c1_choice_layer_selects_and_decodes (ops := Z_scores)
           2 "log_prob" 1 3 [[0; -1]]%Z [[-1; -5; -3]; [-1; -2; -9]]%Z).
  - right. reflexivity.
  - reflexivity.
  - repeat constructor.
  - reflexivity.
  - repeat constructor.
  - simpl. lia.
Defined.

(** * Backward resolution of the search output *)

Section GatherFacts.
Context {A : Type}.

Lemma gather_nd_lookup (params : list (list A)) (slots : list (list nat))
    gathered b k s :
  gather_nd params (nd_indices slots) = Some gathered →
  slots !! b ≫= (.!! k) = Some s →
  gathered !! b ≫= (.!! k) = params !! b ≫= (.!! s).
Proof.
  unfold gather_nd, nd_indices. intros Hg Hs.
  apply bind_Some in Hs as (row & Hrow & Hk).
  apply mapM_Some in Hg.
  assert (imap (λ b row, (λ k, (b, k)) <$> row) slots !! b
          = Some ((λ k, (b, k)) <$> row)) as Hidx
    by (by rewrite list_lookup_imap, Hrow).
  destruct (Forall2_lookup_l _ _ _ _ _ Hg Hidx) as (grow & Hgrow & Hm).
  apply mapM_Some in Hm.
  assert (((λ k, (b, k)) <$> row) !! k = Some (b, s)) as Hbk
    by (by rewrite list_lookup_fmap, Hk).
  destruct (Forall2_lookup_l _ _ _ _ _ Hm Hbk) as (x & Hx & Hpx).
  rewrite Hgrow. simpl. rewrite Hx. done.
Qed.

Lemma gather_nd_shape (params : list (list A)) (slots : list (list nat))
    gathered n :
  gather_nd params (nd_indices slots) = Some gathered →
  Forall (λ r, length r = n) slots →
  length gathered = length slots ∧ Forall (λ r, length r = n) gathered.
Proof.
  unfold gather_nd, nd_indices. intros Hg Hn.
  apply mapM_Some in Hg. split.
  - by rewrite <-(Forall2_length _ _ _ Hg), length_imap.
  - apply Forall_forall. intros grow Hin.
    apply list_elem_of_lookup in Hin as [b Hb].
    destruct (Forall2_lookup_r _ _ _ _ _ Hg Hb) as (irow & Hirow & Hm).
    apply mapM_Some in Hm. rewrite <-(Forall2_length _ _ _ Hm).
    rewrite list_lookup_imap in Hirow.
    destruct (slots !! b) as [row|] eqn:Hrow; [|done].
    injection Hirow as <-. rewrite length_fmap.
    rewrite Forall_forall in Hn. apply Hn. by eapply list_elem_of_lookup_2.
Qed.

Lemma reshape_to_beams_lookup batch beam (x : list A) reshaped b s :
  reshape_to_beams batch beam x = Some reshaped →
  b < batch → s < beam →
  reshaped !! b ≫= (.!! s) = x !! (b * beam + s).
Proof.
  unfold reshape_to_beams. case_decide; [|done]. intros [= <-] Hb Hs.
  rewrite list_lookup_fmap.
  rewrite (proj2 (lookup_seq 0 batch b b)) by (split; [done | lia]).
  simpl. rewrite lookup_take_lt by done. rewrite lookup_drop. done.
Qed.

End GatherFacts.

Section SearchResolveFacts.
Context {A : Type}.
Variable batch_dim output_beam_size : nat.
Variable choice_tas : gmap string (TensorArray (list (list nat))).
Variable output_ta : TensorArray (list A).
Variable output_choice_base : ChoiceBase.

Abbreviation T := (ta_size output_ta).
Abbreviation tracked :=
  (tracked_slots batch_dim output_beam_size choice_tas output_ta
                 output_choice_base).
Abbreviation lineage :=
  (lineage_output batch_dim output_beam_size choice_tas output_ta
                  output_choice_base).
Abbreviation gather_out := (gather_output batch_dim output_beam_size output_ta).

Lemma resolve_choices_not_output choice_base i slots
    (acc : TensorArray (list A)) :
  resolve_choices batch_dim output_beam_size choice_tas output_ta
                  choice_base false i slots acc
  = (λ s, (s, acc)) <$> chain_parents choice_tas choice_base i slots.
Proof.
  revert slots. induction choice_base as [name|name prev|name src IH];
    intros slots; simpl;
    destruct (choice_tas !! name ≫= (λ ta, ta_read ta i)) as [c|]; simpl;
    try done;
    destruct (gather_nd c (nd_indices slots)) as [p|]; simpl; try done;
    try (by destruct prev); try apply IH.
Qed.

Lemma resolve_choices_output i slots (acc acc' : TensorArray (list A)) o s' :
  gather_out i slots = Some o →
  ta_write acc i o = Some acc' →
  chain_parents choice_tas output_choice_base i slots = Some s' →
  resolve_choices batch_dim output_beam_size choice_tas output_ta
                  output_choice_base true i slots acc
  = Some (s', acc').
Proof.
  intros Ho Hw. destruct output_choice_base as [name|name prev|name src];
    simpl;
    destruct (choice_tas !! name ≫= (λ ta, ta_read ta i)) as [c|]; simpl;
    try done;
    destruct (gather_nd c (nd_indices slots)) as [p|]; simpl; try done;
    rewrite Ho; simpl; rewrite Hw; simpl.
  - destruct prev; [|done]. by intros [= ->].
  - intros Hc. by rewrite resolve_choices_not_output, Hc.
Qed.

Lemma tracked_slots_shape d slots :
  tracked d = Some slots →
  length slots = batch_dim ∧ Forall (λ r, length r = output_beam_size) slots.
Proof.
  revert slots. induction d as [|d IH]; intros slots; simpl.
  - intros [= <-]. unfold initial_beam_choices.
    rewrite length_replicate. split; [done|].
    apply Forall_replicate. by rewrite length_seq.
  - intros Hs. apply bind_Some in Hs as (s0 & Hs0 & Hc).
    destruct (IH s0 Hs0) as [Hlen Hrows]. clear IH Hs0.
    revert s0 Hlen Hrows Hc.
    generalize (T - 1 - d). intros t.
    induction output_choice_base as [name|name prev|name src IHc];
      intros s0 Hlen Hrows; simpl; intros Hc;
      apply bind_Some in Hc as (c & _ & Hc);
      apply bind_Some in Hc as (p & Hp & Hc);
      destruct (gather_nd_shape _ _ _ _ Hp Hrows) as [Hplen Hprows].
    + done.
    + destruct prev; [|done]. injection Hc as <-. split; [congruence|done].
    + eapply IHc; [| |done]; [congruence|done].
Qed.

Abbreviation acc_after := (resolve_acc_after output_ta).

Lemma search_resolve_body_step (outs : list (list A)) d slots slots' :
  mapM lineage (seq 0 T) = Some outs →
  d < T →
  tracked d = Some slots →
  tracked (S d) = Some slots' →
  search_resolve_body batch_dim output_beam_size choice_tas output_ta
                      output_choice_base
    ((Z.of_nat T - 1 - Z.of_nat d)%Z, slots, acc_after outs d)
  = Some ((Z.of_nat T - 1 - Z.of_nat (S d))%Z, slots', acc_after outs (S d)).
Proof.
  intros Houts Hd Hs Hs'. apply mapM_Some in Houts.
  pose proof (Forall2_length _ _ _ Houts) as Hlen. rewrite length_seq in Hlen.
  assert (is_Some (outs !! (T - 1 - d))) as [o Ho]
    by (apply lookup_lt_is_Some; lia).
  assert (gather_out (T - 1 - d) slots = Some o) as Hgo.
  { assert (seq 0 T !! (T - 1 - d) = Some (T - 1 - d)) as Hseq
      by (apply lookup_seq; split; [done|]; clear -Hd; lia).
    destruct (Forall2_lookup_l _ _ _ _ _ Houts Hseq) as (o' & Ho' & Hl).
    assert (o' = o) as -> by congruence.
    unfold lineage_output in Hl.
    replace (T - 1 - (T - 1 - d)) with d in Hl by lia.
    rewrite Hs in Hl. done. }
  unfold search_resolve_body.
  replace (Z.to_nat (Z.of_nat T - 1 - Z.of_nat d)) with (T - 1 - d) by lia.
  assert (ta_write (acc_after outs d) (T - 1 - d) o
          = Some (acc_after outs (S d))) as Hw.
  { unfold resolve_acc_after, ta_write. simpl.
    replace (T - d) with (S (T - 1 - d)) by lia.
    rewrite lookup_app_l by (rewrite length_replicate; lia).
    rewrite lookup_replicate_2 by lia.
    do 2 f_equal.
    rewrite insert_app_l by (rewrite length_replicate; lia).
    rewrite insert_replicate_lt by lia.
    rewrite Nat.sub_diag. simpl.
    replace (T - S d) with (T - 1 - d) by lia.
    rewrite (drop_S _ _ _ Ho). rewrite <-app_assoc. simpl.
    repeat f_equal; lia. }
  assert (chain_parents choice_tas output_choice_base (T - 1 - d) slots
          = Some slots') as Hc.
  { simpl in Hs'. rewrite Hs in Hs'. done. }
  rewrite (resolve_choices_output _ _ _ _ _ _ Hgo Hw Hc). simpl.
  replace (Z.of_nat T - 1 - Z.of_nat (S d))%Z
    with (Z.of_nat T - 1 - Z.of_nat d - 1)%Z by lia.
  done.
Qed.

Lemma search_resolve_finishes (outs : list (list A)) slots0 fuel :
  mapM lineage (seq 0 T) = Some outs →
  tracked T = Some slots0 →
  T < fuel →
  search_resolve batch_dim output_beam_size choice_tas output_ta
                 output_choice_base fuel
  = Finished ((-1)%Z, slots0, mkTA false (Some <$> outs))
  ∧ (λ v : Z * list (list nat) * TensorArray (list A), v.1.1)
    <$> body_calls search_resolve_cond
          (search_resolve_body batch_dim output_beam_size choice_tas
                               output_ta output_choice_base)
          fuel
          ((Z.of_nat T - 1)%Z,
           initial_beam_choices batch_dim output_beam_size,
           ta_new T false)
    = (λ d, (Z.of_nat T - 1 - Z.of_nat d)%Z) <$> seq 0 T.
Proof.
  intros Houts Hs0 Hfuel.
  assert (∀ d, d ≤ T → is_Some (tracked d)) as Hdef.
  { intros d Hd. replace T with (d + (T - d)) in Hs0 by lia.
    revert Hs0. generalize (T - d) as e. clear Hd.
    intros e. revert slots0. induction e as [|e IH]; intros slots0.
    - rewrite Nat.add_0_r. by intros ->.
    - rewrite Nat.add_succ_r. simpl. intros Hs.
      apply bind_Some in Hs as (s & Hs & _). by eapply IH. }
  pose proof Houts as Hlen. apply mapM_Some, Forall2_length in Hlen.
  rewrite length_seq in Hlen.
  set (f := λ d, ((Z.of_nat T - 1 - Z.of_nat d)%Z,
                  default [] (tracked d), acc_after outs d)).
  destruct (while_loop_chain
              (search_resolve_cond (A := A))
              (search_resolve_body batch_dim output_beam_size choice_tas
                                   output_ta output_choice_base)
              f T 0 fuel) as [Hfin Hcalls].
  - intros d [_ Hd]. simpl in Hd. split.
    + unfold search_resolve_cond, f. simpl. apply bool_decide_eq_true. lia.
    + destruct (Hdef d ltac:(lia)) as [s Hs].
      destruct (Hdef (S d) ltac:(lia)) as [s' Hs'].
      unfold f. rewrite Hs, Hs'. simpl.
      by apply search_resolve_body_step.
  - unfold search_resolve_cond, f. simpl. apply bool_decide_eq_false. lia.
  - done.
  - unfold search_resolve. simpl in Hfin.
    assert (f 0 = ((Z.of_nat T - 1)%Z,
                   initial_beam_choices batch_dim output_beam_size,
                   ta_new T false)) as Hf0.
    { unfold f, resolve_acc_after, ta_new. simpl. rewrite Nat.sub_0_r.
      rewrite drop_ge by lia. simpl. rewrite app_nil_r.
      f_equal. f_equal. lia. }
    rewrite <-Hf0, Hfin, Hcalls. split.
    + unfold f, resolve_acc_after. rewrite Hs0. simpl.
      rewrite Nat.sub_diag. simpl. f_equal. f_equal. f_equal. lia.
    + rewrite <-list_fmap_compose. done.
Qed.

(** The gathered output holds, for the hypothesis in slot [k] of batch entry
    [b], the raw output of the slot [s] it is tracked to. *)
Lemma gather_output_lookup t slots o b k s :
  gather_out t slots = Some o →
  length slots = batch_dim →
  Forall (λ r, length r = output_beam_size) slots →
  slots !! b ≫= (.!! k) = Some s →
  ∃ raw, ta_read output_ta t = Some raw
    ∧ o !! (b * output_beam_size + k) = raw !! (b * output_beam_size + s).
Proof.
  unfold gather_output. intros Ho Hlen Hrows Hs.
  apply bind_Some in Ho as (raw & Hraw & Ho).
  apply bind_Some in Ho as (reshaped & Hre & Ho).
  apply bind_Some in Ho as (g & Hg & Ho).
  exists raw. split; [done|].
  unfold reshape_from_beams in Ho. case_decide; [|done]. injection Ho as <-.
  pose proof (gather_nd_lookup _ _ _ _ _ _ Hg Hs) as Hgs.
  destruct (gather_nd_shape _ _ _ _ Hg Hrows) as [Hglen Hgrows].
  pose proof Hs as Hs2. apply bind_Some in Hs2 as (row & Hrow & Hk).
  assert (b < batch_dim) as Hb by (apply lookup_lt_Some in Hrow; lia).
  assert (k < output_beam_size) as Hkb.
  { rewrite Forall_forall in Hrows.
    rewrite <-(Hrows row) by by eapply list_elem_of_lookup_2.
    by eapply lookup_lt_Some. }
  destruct (g !! b) as [grow|] eqn:Hgrow; cycle 1.
  { apply lookup_ge_None in Hgrow. lia. }
  simpl in Hgs.
  assert (is_Some (grow !! k)) as [x Hx].
  { apply lookup_lt_is_Some. rewrite Forall_forall in Hgrows.
    rewrite (Hgrows grow) by by eapply list_elem_of_lookup_2. done. }
  rewrite Hx in Hgs.
  assert (mjoin g !! (b * output_beam_size + k) = Some x) as ->.
  { apply (join_lookup_Some_same_length' output_beam_size); [done..|].
    by exists grow. }
  destruct (decide (s < output_beam_size)) as [Hsb|Hsb].
  - by rewrite <-(reshape_to_beams_lookup _ _ _ _ _ _ Hre Hb Hsb).
  - exfalso. unfold reshape_to_beams in Hre. case_decide; [|done].
    injection Hre as <-. rewrite list_lookup_fmap in Hgs.
    rewrite (proj2 (lookup_seq 0 batch_dim b b)) in Hgs by (split; [done|lia]).
    simpl in Hgs. symmetry in Hgs. apply lookup_lt_Some in Hgs.
    rewrite length_take in Hgs. lia.
Qed.

(** C2 (as the code has it): the backward pass visits the step indices from
    the last executed one down to 0.  At each step it re-indexes the raw
    accumulated output by the slots currently tracked for the final
    hypotheses (their own slots at the last step, afterwards the parent slots
    gathered at the step after) and carries on with the parent slots recorded
    at this step.  The stacked result holds, for every step and every final
    hypothesis, the raw output of the slot its lineage occupied at that
    step. *)
Theorem c2_search_resolve_follows_lineage
    (outs : list (list A)) (slots0 : list (list nat)) (fuel : nat) :
  mapM lineage (seq 0 T) = Some outs →
  tracked T = Some slots0 →
  T < fuel →
  ∃ new_acc_output_ta,
    search_resolve batch_dim output_beam_size choice_tas output_ta
                   output_choice_base fuel
    = Finished ((-1)%Z, slots0, new_acc_output_ta)
    ∧ (λ v : Z * list (list nat) * TensorArray (list A), v.1.1)
      <$> body_calls search_resolve_cond
            (search_resolve_body batch_dim output_beam_size choice_tas
                                 output_ta output_choice_base)
            fuel
            ((Z.of_nat T - 1)%Z,
             initial_beam_choices batch_dim output_beam_size,
             ta_new T false)
      = (λ d, (Z.of_nat T - 1 - Z.of_nat d)%Z) <$> seq 0 T
    ∧ ta_stack new_acc_output_ta = Some outs
    ∧ length outs = T
    ∧ tracked 0 = Some (initial_beam_choices batch_dim output_beam_size)
    ∧ (∀ t slots,
         0 < t < T →
         tracked (T - 1 - t) = Some slots →
         tracked (T - t)
         = chain_parents choice_tas output_choice_base t slots)
    ∧ (∀ t b k slots s o,
         t < T →
         tracked (T - 1 - t) = Some slots →
         slots !! b ≫= (.!! k) = Some s →
         outs !! t = Some o →
         ∃ raw, ta_read output_ta t = Some raw
           ∧ o !! (b * output_beam_size + k)
             = raw !! (b * output_beam_size + s)).
Proof.
  intros Houts Hs0 Hfuel.
  destruct (search_resolve_finishes outs slots0 fuel Houts Hs0 Hfuel)
    as [Hfin Hcalls].
  exists (mkTA false (Some <$> outs)).
  split; [done|]. split; [done|].
  split; [apply ta_stack_written|].
  pose proof Houts as Hall. apply mapM_Some in Hall.
  split; [by rewrite <-(Forall2_length _ _ _ Hall), length_seq|].
  split; [done|].
  split.
  - intros t slots Ht Hs.
    replace (T - t) with (S (T - 1 - t)) by lia. simpl. rewrite Hs. simpl.
    do 2 f_equal. lia.
  - intros t b k slots s o Ht Hs Hbk Ho.
    assert (seq 0 T !! t = Some t) as Hseq by (apply lookup_seq; lia).
    destruct (Forall2_lookup_l _ _ _ _ _ Hall Hseq) as (o' & Ho' & Hl).
    assert (o' = o) as -> by congruence.
    unfold lineage_output in Hl. rewrite Hs in Hl. simpl in Hl.
    destruct (tracked_slots_shape _ _ Hs) as [Hlen Hrows].
    by eapply gather_output_lookup.
Qed.

End SearchResolveFacts.

Lemma c2_search_resolve_witness :
  ∃ new_acc_output_ta,
    search_resolve 2 2 swap_choice_tas swap_output_ta swap_choice_base 4
    = Finished ((-1)%Z, [[0; 0]; [0; 0]], new_acc_output_ta)
    ∧ (λ v : Z * list (list nat) * TensorArray (list nat), v.1.1)
      <$> body_calls search_resolve_cond
            (search_resolve_body 2 2 swap_choice_tas swap_output_ta
                                 swap_choice_base)
            4
            ((Z.of_nat (ta_size swap_output_ta) - 1)%Z,
             initial_beam_choices 2 2,
             ta_new (ta_size swap_output_ta) false)
      = (λ d, (Z.of_nat (ta_size swap_output_ta) - 1 - Z.of_nat d)%Z)
        <$> seq 0 (ta_size swap_output_ta)
    ∧ ta_stack new_acc_output_ta
      = Some [[11; 10; 13; 13]; [21; 20; 22; 22]; [30; 31; 32; 33]]
    ∧ length [[11; 10; 13; 13]; [21; 20; 22; 22]; [30; 31; 32; 33]]
      = ta_size swap_output_ta
    ∧ tracked_slots 2 2 swap_choice_tas swap_output_ta swap_choice_base 0
      = Some (initial_beam_choices 2 2)
    ∧ (∀ t slots,
         0 < t < ta_size swap_output_ta →
         tracked_slots 2 2 swap_choice_tas swap_output_ta swap_choice_base
                       (ta_size swap_output_ta - 1 - t) = Some slots →
         tracked_slots 2 2 swap_choice_tas swap_output_ta swap_choice_base
                       (ta_size swap_output_ta - t)
         = chain_parents swap_choice_tas swap_choice_base t slots)
    ∧ (∀ t b k slots s o,
         t < ta_size swap_output_ta →
         tracked_slots 2 2 swap_choice_tas swap_output_ta swap_choice_base
                       (ta_size swap_output_ta - 1 - t) = Some slots →
         slots !! b ≫= (.!! k) = Some s →
         [[11; 10; 13; 13]; [21; 20; 22; 22]; [30; 31; 32; 33]] !! t = Some o →
         ∃ raw, ta_read swap_output_ta t = Some raw
           ∧ o !! (b * 2 + k) = raw !! (b * 2 + s)).
Proof.
  apply (c2_search_resolve_follows_lineage 2 2 swap_choice_tas swap_output_ta
           swap_choice_base
           [[11; 10; 13; 13]; [21; 20; 22; 22]; [30; 31; 32; 33]]
           [[0; 0]; [0; 0]] 4).
  - vm_compute. reflexivity.
  - vm_compute. reflexivity.
  - vm_compute. lia.
Defined.

(** C2, the claim as stated, fails: re-indexing the output of a step by the
    parent slots recorded at that same step gives another sequence than the
    one the backward pass produces. *)
Lemma c2_output_not_indexed_by_same_step_parents :
  ∃ final_beams new_acc_output_ta resolved,
    search_resolve 2 2 swap_choice_tas swap_output_ta swap_choice_base 4
    = Finished ((-1)%Z, final_beams, new_acc_output_ta)
    ∧ ta_stack new_acc_output_ta = Some resolved
    ∧ resolved = [[11; 10; 13; 13]; [21; 20; 22; 22]; [30; 31; 32; 33]]
    ∧ mapM (parent_indexed_output 2 2 swap_choice_tas swap_output_ta
                                  swap_choice_base) [0; 1; 2]
      = Some [[10; 10; 12; 12]; [21; 20; 23; 23]; [31; 30; 32; 32]]
    ∧ mapM (parent_indexed_output 2 2 swap_choice_tas swap_output_ta
                                  swap_choice_base) [0; 1; 2]
      ≠ Some resolved.
Proof.
  eexists _, _, _.
  split; [vm_compute; reflexivity|].
  split; [vm_compute; reflexivity|].
  split; [reflexivity|].
  split; [vm_compute; reflexivity|].
  vm_compute. discriminate.
Qed.

(** * Hoisting layers out of the loop *)

Lemma list_remove_first_Some x l :
  x ∈ l → ∃ l', list_remove_first x l = Some l' ∧ l ≡ₚ x :: l'.
Proof.
  induction l as [|y l IH]; [by intros ?%elem_of_nil|].
  intros Hin. simpl. destruct (decide (x = y)) as [->|Hne].
  - by exists l.
  - apply elem_of_cons in Hin as [?|Hin]; [done|].
    destruct (IH Hin) as (l' & -> & Hperm). exists (y :: l'). split; [done|].
    rewrite Hperm. apply Permutation_swap.
Qed.

Lemma sorted_items_perm {V} (l : list (string * V)) : sorted_items l ≡ₚ l.
Proof. apply merge_sort_Permutation. Qed.

Lemma sorted_perm (l : list string) : sorted l ≡ₚ l.
Proof. apply merge_sort_Permutation. Qed.

Section MoveOutsideLoopFacts.
Variable layer_data_templates : gmap string TemplateLayer.
Variable prev_layers_needed : gset string.
Variable real_dep_layers : string → option (list LayerRef).

Abbreviation deps := (get_dep_layers layer_data_templates real_dep_layers).
Abbreviation all_layers st :=
  (layers_in_loop st ++ input_layers_moved_out st
   ++ output_layers_moved_out st).

Abbreviation hoisted_ok :=
  (hoisted_ok layer_data_templates prev_layers_needed real_dep_layers).

Lemma find_output_layer_spec st layer :
  find_output_layer_to_move_out layer_data_templates prev_layers_needed
                                real_dep_layers st = Some layer →
  layer ∈ layers_in_loop st
  ∧ layer ∈ needed_outputs st
  ∧ (layer ∉ prev_layers_needed)
  ∧ ∀ other, other ∈ layers_in_loop st → SubnetLayer layer ∉ deps other.
Proof.
  unfold find_output_layer_to_move_out. intros Hfind.
  apply find_some in Hfind as [Hin Hcan].
  apply list_elem_of_In in Hin.
  apply andb_true_iff in Hcan as [Hneeded Hcan].
  apply bool_decide_eq_true in Hneeded.
  unfold output_can_move_out in Hcan. case_decide as Hprev; [done|].
  split; [done|]. split; [done|]. split.
  - intros Hp. apply Hprev. unfold layers_needed_from_prev_frame.
    rewrite sorted_perm. by apply elem_of_elements.
  - intros other Hother. rewrite forallb_forall in Hcan.
    specialize (Hcan other). rewrite <-list_elem_of_In in Hcan.
    specialize (Hcan Hother). apply negb_true_iff, bool_decide_eq_false in Hcan.
    done.
Qed.

Lemma find_input_layer_spec st layer :
  find_input_layer_to_move_out layer_data_templates real_dep_layers st
  = Some layer →
  layer ∈ layers_in_loop st
  ∧ ∀ other, other ∈ layers_in_loop st → SubnetLayer other ∉ deps layer.
Proof.
  unfold find_input_layer_to_move_out. intros Hfind.
  apply find_some in Hfind as [Hin Hcan]. apply list_elem_of_In in Hin.
  split; [done|]. intros other Hother.
  unfold input_can_move_out in Hcan. rewrite forallb_forall in Hcan.
  specialize (Hcan other). rewrite <-list_elem_of_In in Hcan.
  specialize (Hcan Hother). by apply negb_true_iff, bool_decide_eq_false in Hcan.
Qed.

Lemma output_move_out_ok st layer :
  find_output_layer_to_move_out layer_data_templates prev_layers_needed
                                real_dep_layers st = Some layer →
  hoisted_ok st →
  ∃ st', output_move_out st layer = Some st'
    ∧ all_layers st' ≡ₚ all_layers st
    ∧ layers_in_loop st ≡ₚ layer :: layers_in_loop st'
    ∧ hoisted_ok st'.
Proof.
  intros Hfind [Hout Hinp].
  apply find_output_layer_spec in Hfind as (Hin & Hneeded & Hprev & Hdeps).
  destruct (list_remove_first_Some _ _ Hneeded) as (needed & Hn & _).
  destruct (list_remove_first_Some _ _ Hin) as (in_loop & Hl & Hperm).
  unfold output_move_out. rewrite Hn, Hl. simpl.
  eexists. split; [done|]. simpl.
  split; [rewrite Hperm; solve_Permutation|].
  split; [done|].
  assert (∀ other, other ∈ in_loop → other ∈ layers_in_loop st) as Hsub.
  { intros other Ho. rewrite Hperm. by apply elem_of_cons; right. }
  split; simpl.
  - intros l [Hl'|Hl']%elem_of_app.
    + destruct (Hout l Hl') as [? Hd]. split; [done|]. intros o Ho.
      by apply Hd, Hsub.
    + apply list_elem_of_singleton in Hl' as ->. split; [done|].
      intros o Ho. by apply Hdeps, Hsub.
  - intros l Hl' o Ho. by apply (Hinp l Hl'), Hsub.
Qed.

Lemma input_move_out_ok st layer :
  find_input_layer_to_move_out layer_data_templates real_dep_layers st
  = Some layer →
  hoisted_ok st →
  ∃ st', input_move_out st layer = Some st'
    ∧ all_layers st' ≡ₚ all_layers st
    ∧ layers_in_loop st ≡ₚ layer :: layers_in_loop st'
    ∧ hoisted_ok st'.
Proof.
  intros Hfind [Hout Hinp].
  apply find_input_layer_spec in Hfind as (Hin & Hdeps).
  destruct (list_remove_first_Some _ _ Hin) as (in_loop & Hl & Hperm).
  assert (∃ needed,
    (if decide (layer ∈ needed_outputs st)
     then list_remove_first layer (needed_outputs st)
     else Some (needed_outputs st)) = Some needed) as [needed Hn].
  { case_decide as Hneeded; [|by eexists].
    destruct (list_remove_first_Some _ _ Hneeded) as (needed & Hn & _).
    by exists needed. }
  unfold input_move_out. rewrite Hn, Hl. simpl.
  eexists. split; [done|]. simpl.
  split; [rewrite Hperm; solve_Permutation|].
  split; [done|].
  assert (∀ other, other ∈ in_loop → other ∈ layers_in_loop st) as Hsub.
  { intros other Ho. rewrite Hperm. by apply elem_of_cons; right. }
  split; simpl.
  - intros l Hl'. destruct (Hout l Hl') as [? Hd]. split; [done|].
    intros o Ho. by apply Hd, Hsub.
  - intros l [Hl'|Hl']%elem_of_app o Ho.
    + by apply (Hinp l Hl'), Hsub.
    + apply list_elem_of_singleton in Hl' as ->. by apply Hdeps, Hsub.
Qed.

(** A round never raises; it keeps the layers and what holds of the moved
    ones, and when the loop goes on the loop has lost a layer. *)
Lemma move_round_ok st :
  hoisted_ok st →
  ∃ st' continue,
    move_round layer_data_templates prev_layers_needed real_dep_layers st
    = Some (st', continue)
    ∧ all_layers st' ≡ₚ all_layers st
    ∧ hoisted_ok st'
    ∧ (continue = true →
       length (layers_in_loop st') < length (layers_in_loop st)).
Proof.
  intros Hok. unfold move_round.
  destruct (find_output_layer_to_move_out layer_data_templates
              prev_layers_needed real_dep_layers st) as [ol|] eqn:Hfo.
  - destruct (output_move_out_ok st ol Hfo Hok)
      as (st1 & -> & Hperm1 & Hloop1 & Hok1). simpl.
    destruct (find_input_layer_to_move_out layer_data_templates
                real_dep_layers st1) as [il|] eqn:Hfi.
    + destruct (input_move_out_ok st1 il Hfi Hok1)
        as (st2 & -> & Hperm2 & Hloop2 & Hok2). simpl.
      eexists _, _. split; [done|]. split; [by rewrite Hperm2|].
      split; [done|]. intros _. rewrite Hloop1, Hloop2. simpl. lia.
    + simpl. eexists _, _. split; [done|]. split; [done|]. split; [done|].
      intros _. rewrite Hloop1. simpl. lia.
  - simpl.
    destruct (find_input_layer_to_move_out layer_data_templates
                real_dep_layers st) as [il|] eqn:Hfi.
    + destruct (input_move_out_ok st il Hfi Hok)
        as (st2 & -> & Hperm2 & Hloop2 & Hok2). simpl.
      eexists _, _. split; [done|]. split; [done|]. split; [done|].
      intros _. rewrite Hloop2. simpl. lia.
    + simpl. eexists _, _. split; [done|]. split; [done|]. split; [done|].
      intros [=].
Qed.

Lemma move_rounds_finish fuel st :
  hoisted_ok st →
  length (layers_in_loop st) < fuel →
  ∃ st', move_rounds layer_data_templates prev_layers_needed real_dep_layers
                     fuel st = Finished st'
    ∧ all_layers st' ≡ₚ all_layers st
    ∧ hoisted_ok st'.
Proof.
  revert st. induction fuel as [|fuel IH]; intros st Hok Hfuel; [lia|].
  simpl.
  destruct (move_round_ok st Hok) as (st1 & c & -> & Hperm & Hok1 & Hlen).
  destruct c.
  - destruct (IH st1 Hok1) as (st' & -> & Hperm' & Hok'); [specialize (Hlen eq_refl); lia|].
    exists st'. split; [done|]. split; [by rewrite Hperm'|done].
  - by exists st1.
Qed.

(** C6: the analysis terminates without raising; afterwards every template
    layer is in exactly one of the three lists (in the loop, moved out as
    input, moved out as output); a layer is moved to the output side only
    when it is not needed from the previous frame and no layer still in the
    loop depends on it, and to the input side only when none of the layers
    still in the loop is among its dependencies.  Both hold when the layer is
    picked and still hold at the end. *)
Theorem c6_move_outside_loop_partitions :
  (∃ st,
     move_outside_loop layer_data_templates prev_layers_needed real_dep_layers
                       (S (size layer_data_templates)) = Finished st
     ∧ NoDup (all_layers st)
     ∧ (∀ name, name ∈ all_layers st ↔ is_Some (layer_data_templates !! name))
     ∧ (∀ layer, layer ∈ output_layers_moved_out st →
          (layer ∉ prev_layers_needed)
          ∧ (∀ other, other ∈ layers_in_loop st →
               SubnetLayer layer ∉ deps other))
     ∧ (∀ layer, layer ∈ input_layers_moved_out st →
          ∀ other, other ∈ layers_in_loop st →
            SubnetLayer other ∉ deps layer))
  ∧ (∀ st layer,
       find_output_layer_to_move_out layer_data_templates prev_layers_needed
                                     real_dep_layers st = Some layer →
       layer ∈ layers_in_loop st
       ∧ layer ∈ needed_outputs st
       ∧ (layer ∉ prev_layers_needed)
       ∧ ∀ other, other ∈ layers_in_loop st → SubnetLayer layer ∉ deps other)
  ∧ (∀ st layer,
       find_input_layer_to_move_out layer_data_templates real_dep_layers st
       = Some layer →
       layer ∈ layers_in_loop st
       ∧ ∀ other, other ∈ layers_in_loop st → SubnetLayer other ∉ deps layer).
Proof.
  split; [|split; [apply find_output_layer_spec | apply find_input_layer_spec]].
  set (init := mkHoistState
                 (fst <$> sorted_items (map_to_list layer_data_templates))
                 [] [] ["output"]).
  assert (all_layers init ≡ₚ (map_to_list layer_data_templates).*1) as Hinit.
  { simpl. rewrite app_nil_r. by rewrite sorted_items_perm. }
  destruct (move_rounds_finish (S (size layer_data_templates)) init)
    as (st & Hfin & Hperm & Hout & Hinp).
  { split; simpl; intros layer Hl; by apply elem_of_nil in Hl. }
  { simpl. rewrite length_fmap, sorted_items_perm, length_map_to_list. lia. }
  exists st. split; [done|].
  rewrite Hinit in Hperm.
  split; [rewrite Hperm; apply NoDup_fst_map_to_list|].
  split; [|done].
  intros name. rewrite Hperm, list_elem_of_fmap. split.
  - intros ([k v] & -> & Hkv). apply elem_of_map_to_list in Hkv. by exists v.
  - intros [v Hv]. exists (name, v). split; [done|].
    by apply elem_of_map_to_list.
Qed.

End MoveOutsideLoopFacts.

(** * The accumulated loss *)

Section SubNetLossFacts.
Context {F : Type} {fops : FloatOps F}.
Hypothesis add_zero_r : ∀ x : F, f_add x f_zero = x.

Lemma masked_row_sum t (seq_len : list nat) (row : list F) a :
  foldl f_add a
        (zip_with (λ (m : bool) v, if m then v else f_zero)
                  ((λ n, bool_decide (t < n)) <$> seq_len) row)
  = foldl f_add a (snd <$> filter (λ p : nat * F, t < p.1) (zip seq_len row)).
Proof.
  revert row a. induction seq_len as [|n seq_len IH]; intros row a; [done|].
  destruct row as [|v row]; [done|]. simpl.
  rewrite filter_cons. simpl. case_bool_decide as Hn.
  - rewrite decide_True by done. simpl. apply IH.
  - rewrite decide_False by done. rewrite add_zero_r. apply IH.
Qed.

Lemma masked_rows_sum (seq_len : list nat) (x : list (list F)) s a :
  foldl f_add a
    (mjoin (zip_with (zip_with (λ (m : bool) v, if m then v else f_zero))
                     ((λ t, (λ n, bool_decide (t < n)) <$> seq_len)
                      <$> seq s (length x)) x))
  = foldl f_add a
      (mjoin (imap (λ t row,
                      snd <$> filter (λ p : nat * F, s + t < p.1)
                                     (zip seq_len row)) x)).
Proof.
  revert s a. induction x as [|row x IH]; intros s a; [done|].
  simpl. rewrite !foldl_app, masked_row_sum, Nat.add_0_r.
  rewrite IH. f_equal. f_equal. apply imap_ext. intros t r _. simpl.
  by rewrite Nat.add_succ_r.
Qed.

(** Masking with the sequence lengths and summing adds up exactly the valid
    entries. *)
Lemma where_or_zero_valid_sum (seq_len : list nat) (x : list (list F)) :
  length x = max_list seq_len →
  Forall (λ r, length r = length seq_len) x →
  ∃ masked, where_or_zero (sequence_mask_time_major seq_len) x = Some masked
    ∧ reduce_sum masked = valid_sum seq_len x.
Proof.
  intros Hlen Hrows. unfold where_or_zero, sequence_mask_time_major.
  rewrite decide_True; cycle 1.
  { split; [by rewrite length_fmap, length_seq|].
    apply Forall2_same_length_lookup_2;
      [by rewrite length_fmap, length_seq|].
    intros t m r Hm Hr. rewrite list_lookup_fmap in Hm.
    destruct (seq 0 (max_list seq_len) !! t); [|done]. injection Hm as <-.
    rewrite length_fmap. rewrite Forall_forall in Hrows. symmetry.
    apply Hrows. by eapply list_elem_of_lookup_2. }
  eexists. split; [done|].
  unfold reduce_sum, valid_sum, valid_entries. rewrite <-Hlen.
  by rewrite masked_rows_sum.
Qed.

Section Accumulated.
Variable final_acc_tas_dict : gmap string (TensorArray (list F)).
Variable loss_scale : string → F.
Variable seq_len : list nat.
(** The stacked loss and error values of every layer, of shape
    (time, batch). *)
Variable loss_of error_of : string → list (list F).

Abbreviation accumulated :=
  (accumulated final_acc_tas_dict seq_len loss_of error_of).

Lemma sub_net_loss_step_spec layer_name sub_loss sub_error norm :
  accumulated layer_name →
  sub_net_loss_step final_acc_tas_dict loss_scale seq_len
                    (mkSubLoss (Some sub_loss) sub_error norm) layer_name
  = Some (mkSubLoss
            (Some (f_add sub_loss
                         (f_mul (valid_sum seq_len (loss_of layer_name))
                                (loss_scale layer_name))))
            (Some (valid_sum seq_len (error_of layer_name)))
            (Some (f_div f_one (f_of_nat (sum_list seq_len))))).
Proof.
  intros ((lta & Hlta & Hls) & (eta & Heta & Hes) & Hl1 & Hl2 & He1 & He2).
  destruct (where_or_zero_valid_sum seq_len _ Hl1 Hl2) as (ml & Hml & Hsl).
  destruct (where_or_zero_valid_sum seq_len _ He1 He2) as (me & Hme & Hse).
  unfold sub_net_loss_step. rewrite Hlta, Heta. cbn [mbind option_bind].
  rewrite Hls, Hes. cbn [mbind option_bind].
  rewrite Hml, Hme. cbn [mbind option_bind _sub_loss].
  by rewrite Hsl, Hse.
Qed.

Lemma sub_net_loss_fold names first sub_loss sub_error norm :
  Forall accumulated (first :: names) →
  foldl (λ acc layer_name,
           acc ≫= λ acc, sub_net_loss_step final_acc_tas_dict loss_scale
                                           seq_len acc layer_name)
        (Some (mkSubLoss (Some sub_loss) sub_error norm)) (first :: names)
  = Some (mkSubLoss
            (Some (foldl (λ a n, f_add a (f_mul (valid_sum seq_len (loss_of n))
                                                (loss_scale n)))
                         sub_loss (first :: names)))
            (Some (valid_sum seq_len
                             (error_of (default first (last names)))))
            (Some (f_div f_one (f_of_nat (sum_list seq_len))))).
Proof.
  revert first sub_loss sub_error norm.
  induction names as [|name names IH]; intros first a e n Hall.
  - simpl. apply sub_net_loss_step_spec. by inv Hall.
  - inv Hall.
    assert (∀ {X Y} (f : X → Y → X) a x l,
              foldl f a (x :: l) = foldl f (f a x) l) as foldl_cons_eq by done.
    rewrite foldl_cons_eq. cbn [mbind option_bind].
    rewrite sub_net_loss_step_spec by done.
    rewrite (IH name) by done. cbn [foldl]. do 3 f_equal.
    rewrite (last_cons name). by destruct (last names).
Qed.

End Accumulated.
End SubNetLossFacts.

(** C7 (as the code has it): with at least one layer carrying a loss, the
    exposed loss is the sum, over the loss layers in sorted name order, of
    each layer's loss summed over its valid (time, batch) positions and
    multiplied by the layer's loss scale; the exposed error is the sum over
    the valid positions of the error of the last loss layer only; the
    normalization factor is 1 divided by the sum of the sequence lengths. *)
Theorem c7_sub_net_loss_masked_sums
    {F : Type} {fops : FloatOps F}
    (final_acc_tas_dict : gmap string (TensorArray (list F)))
    (loss_scale : string → F) (seq_len : list nat)
    (loss_of error_of : string → list (list F))
    (layer_names_with_losses : list string) :
  (∀ x : F, f_add x f_zero = x) →
  layer_names_with_losses ≠ [] →
  Forall (accumulated final_acc_tas_dict seq_len loss_of error_of)
         layer_names_with_losses →
  ∃ last_name,
    last (sorted layer_names_with_losses) = Some last_name
    ∧ sub_net_loss layer_names_with_losses final_acc_tas_dict loss_scale
                   seq_len
      = Some (mkSubLoss
                (Some (foldl (λ a n,
                                f_add a (f_mul (valid_sum seq_len (loss_of n))
                                               (loss_scale n)))
                             f_zero (sorted layer_names_with_losses)))
                (Some (valid_sum seq_len (error_of last_name)))
                (Some (f_div f_one (f_of_nat (sum_list seq_len))))).
Proof.
  intros Hzero Hne Hall.
  assert (Forall (accumulated final_acc_tas_dict seq_len loss_of error_of)
                 (sorted layer_names_with_losses)) as Hsorted
    by (by rewrite sorted_perm).
  destruct (sorted layer_names_with_losses) as [|first names] eqn:Hs.
  { exfalso. apply Hne. apply Permutation_nil_r. rewrite <-Hs.
    symmetry. apply sorted_perm. }
  exists (default first (last names)). split.
  { rewrite last_cons. by destruct (last names). }
  unfold sub_net_loss. destruct layer_names_with_losses; [done|].
  rewrite Hs. by apply sub_net_loss_fold.
Qed.

Lemma c7_sub_net_loss_witness :
  ∃ last_name,
    last (sorted ["b"; "a"]) = Some last_name
    ∧ sub_net_loss (fops := Q_floats) ["b"; "a"] two_losses_acc
                   (λ _, 2%Q) [1]
      = Some (mkSubLoss
                (Some (foldl (λ a n,
                                Qplus a
                                  (Qmult
                                     (valid_sum (fops := Q_floats) [1]
                                        (if decide (n = "a") then [[5%Q]]
                                         else [[7%Q]]))
                                     2%Q))
                             0%Q (sorted ["b"; "a"])))
                (Some (valid_sum (fops := Q_floats) [1]
                         (if decide (last_name = "a") then [[1%Q]]
                          else [[2%Q]])))
                (Some (Qdiv 1%Q (inject_Z (Z.of_nat (sum_list [1])))))).
Proof.
  apply (c7_sub_net_loss_masked_sums (fops := Q_floats) two_losses_acc
           (λ _, 2%Q) [1]
           (λ n, if decide (n = "a") then [[5%Q]] else [[7%Q]])
           (λ n, if decide (n = "a") then [[1%Q]] else [[2%Q]])
           ["b"; "a"]).
  - intros [n d]. unfold f_add, f_zero, Q_floats, Qplus. simpl.
    f_equal; lia.
  - discriminate.
  - repeat constructor; vm_compute; eauto.
Defined.

(** C7, the claim as stated, fails for the error: with two loss layers of
    errors 1 and 2 the exposed error is 2, that of the last layer, not their
    sum 3. *)
Lemma c7_error_is_not_summed_over_layers :
  ∃ st e,
    sub_net_loss (fops := Q_floats) ["b"; "a"] two_losses_acc (λ _, 1%Q) [1]
    = Some st
    ∧ _sub_error st = Some e
    ∧ (e == 2)%Q
    ∧ ¬ (e == error_summed_over_layers (fops := Q_floats) ["b"; "a"] [1%nat]
               (λ n, if decide (n = "a") then [[1]] else [[2]]))%Q.
Proof.
  eexists _, _. split; [vm_compute; reflexivity|].
  split; [reflexivity|]. split; [reflexivity|].
  vm_compute. discriminate.
Qed.

(** * The checks before the loop *)

Section SubnetUnitChecksFacts.
Variable self : RecLayerState.

Lemma seq_len_setup_unknown setup :
  input_seq_len self = None →
  size (size_placeholder self) = 0 →
  seq_len_setup self = Ok setup →
  setup_have_known_seq_len setup = false ∧ known_seq_len setup = None.
Proof.
  intros Hin Hsize. unfold seq_len_setup. rewrite Hin.
  rewrite decide_False by lia. simpl.
  destruct (_max_seq_len self) as [[|n]|]; [done| |done].
  by intros [= <-].
Qed.

Lemma check_end_layer_ok :
  check_end_layer self false = Ok tt → end_layer_ok self.
Proof.
  unfold check_end_layer, end_layer_ok.
  destruct (template_outputs self !! "end") as [d|]; [|done].
  unfold assert. simpl.
  case_bool_decide as Hdtype; [|done]. simpl.
  case_bool_decide as Hshape; [|done]. simpl.
  destruct (sparse d) eqn:Hsparse; [|done]. intros _.
  by exists d.
Qed.

End SubnetUnitChecksFacts.

(** C9: when the sequence length is not known in advance (no input data and
    no given output sizes), [_get_output_subnet_unit] returns a result only
    if the subnetwork has an "end" layer whose template output is boolean,
    of batch shape (None,) and sparse; otherwise it raises, and when the
    "end" layer is missing and everything before the check passes, it raises
    the assertion that asks for an "end" layer. *)
Theorem c9_unknown_length_needs_end_layer
    (self : RecLayerState) {Mid Out : Type}
    (before_loop : SeqLenSetup → Result Mid)
    (loop_and_output : SeqLenSetup → Mid → Result Out) :
  input_seq_len self = None →
  size (size_placeholder self) = 0 →
  (∀ out, _get_output_subnet_unit self before_loop loop_and_output = Ok out →
          end_layer_ok self)
  ∧ (¬ end_layer_ok self →
     ∃ err, _get_output_subnet_unit self before_loop loop_and_output
            = Raised err)
  ∧ (template_outputs self !! "end" = None →
     ∀ setup mid,
       check_output_template_shape self = Ok tt →
       seq_len_setup self = Ok setup →
       before_loop setup = Ok mid →
       _get_output_subnet_unit self before_loop loop_and_output
       = Raised ("AssertionError: You need to have an 'end' layer in your "
                 +:+ "rec subnet if the generated seq len is unknown.")).
Proof.
  intros Hin Hsize.
  assert (∀ out,
            _get_output_subnet_unit self before_loop loop_and_output = Ok out →
            end_layer_ok self) as Hok.
  { intros out. unfold _get_output_subnet_unit.
    destruct (check_output_template_shape self) as [[]|]; [|done].
    cbn [result_bind].
    destruct (seq_len_setup self) as [setup|] eqn:Hsetup; [|done].
    cbn [result_bind].
    destruct (seq_len_setup_unknown self setup Hin Hsize Hsetup) as [-> _].
    destruct (before_loop setup) as [mid|]; [|done]. cbn [result_bind].
    destruct (check_end_layer self false) as [[]|] eqn:Hend; [|done].
    intros _. by apply check_end_layer_ok. }
  split; [done|]. split.
  - intros Hno.
    destruct (_get_output_subnet_unit self before_loop loop_and_output)
      as [out|err] eqn:Hres.
    + exfalso. by eapply Hno, Hok.
    + by exists err.
  - intros Hend setup mid Hshape Hsetup Hmid.
    unfold _get_output_subnet_unit. rewrite Hshape, Hsetup. simpl.
    rewrite Hmid. simpl.
    destruct (seq_len_setup_unknown self setup Hin Hsize Hsetup) as [-> _].
    unfold check_end_layer. rewrite Hend. done.
Qed.

Lemma c9_unknown_length_witness :
  (∀ out : nat,
     _get_output_subnet_unit no_end_layer_state
       (λ _, Ok tt) (λ setup _, Ok (setup_max_seq_len setup)) = Ok out →
     end_layer_ok no_end_layer_state)
  ∧ (¬ end_layer_ok no_end_layer_state →
     ∃ err, _get_output_subnet_unit no_end_layer_state
              (λ _, Ok tt) (λ setup _, Ok (setup_max_seq_len setup))
            = Raised err)
  ∧ (template_outputs no_end_layer_state !! "end" = None →
     ∀ setup mid,
       check_output_template_shape no_end_layer_state = Ok tt →
       seq_len_setup no_end_layer_state = Ok setup →
       (λ _ : SeqLenSetup, Ok tt) setup = Ok mid →
       _get_output_subnet_unit no_end_layer_state
         (λ _, Ok tt) (λ setup _, Ok (setup_max_seq_len setup))
       = Raised ("AssertionError: You need to have an 'end' layer in your "
                 +:+ "rec subnet if the generated seq len is unknown.")).
Proof.
  apply (c9_unknown_length_needs_end_layer no_end_layer_state
           (λ _, Ok tt) (λ setup _, Ok (setup_max_seq_len setup))).
  - reflexivity.
  - reflexivity.
Defined.

(** * Flattening and unflattening the loop variables *)

Section SortedDict.
Context {V : Type}.

Lemma sorted_same (l1 l2 : list string) : l1 ≡ₚ l2 → sorted l1 = sorted l2.
Proof.
  intros Hperm. apply (Sorted_unique String.le).
  - apply Sorted_merge_sort, _.
  - apply Sorted_merge_sort, _.
  - by rewrite !sorted_perm.
Qed.

(** Sorting the items of a dict sorts its keys. *)
Lemma sorted_items_keys (l : list (string * V)) :
  (sorted_items l).*1 = sorted (l.*1).
Proof.
  apply (Sorted_unique String.le).
  - apply (Sorted_fmap _ (λ a b : string * V, String.le a.1 b.1)); [done|].
    apply Sorted_merge_sort. intros a b. apply String.le_total.
  - apply Sorted_merge_sort, _.
  - by rewrite sorted_items_perm, sorted_perm.
Qed.

Lemma sorted_items_functional (g : string → V) (l : list (string * V)) :
  (∀ k v, (k, v) ∈ l → v = g k) →
  sorted_items l = (λ k, (k, g k)) <$> sorted (l.*1).
Proof.
  intros Hg. rewrite <-sorted_items_keys, <-list_fmap_compose.
  rewrite <-(list_fmap_id (sorted_items l)) at 1.
  apply list_fmap_ext. intros i [k v] Hkv. simpl. f_equal.
  apply Hg. rewrite <-sorted_items_perm. by eapply list_elem_of_lookup_2.
Qed.

Lemma list_to_map_sorted_items (d : gmap string V) :
  list_to_map (sorted_items (map_to_list d)) = d.
Proof.
  rewrite <-(list_to_map_to_list d) at 2. apply list_to_map_proper.
  - rewrite sorted_items_perm. apply NoDup_fst_map_to_list.
  - apply sorted_items_perm.
Qed.

(** Zipping the sorted keys of a dict with its values sorted by key gives
    the dict back. *)
Lemma dict_zip_sorted (d : gmap string V) :
  dict_zip (sorted (dict_keys d)) (sorted_values_from_dict d) = Some d.
Proof.
  unfold dict_zip, dict_keys, sorted_values_from_dict.
  rewrite <-sorted_items_keys.
  rewrite decide_True by (by rewrite !length_fmap).
  by rewrite zip_fst_snd, list_to_map_sorted_items.
Qed.

End SortedDict.

(** A dict comprehension all of whose calls return. *)
Lemma dict_comprehension_Ok {V} (f : string → Result V) (g : string → V)
    (keys : list string) :
  (∀ k, k ∈ keys → f k = Ok (g k)) →
  ∃ d, dict_comprehension f keys = Ok d
       ∧ ∀ k v, d !! k = Some v ↔ k ∈ keys ∧ v = g k.
Proof.
  intros Hf. unfold dict_comprehension.
  assert (∀ d0 : gmap string V,
            ∃ d, foldl (λ acc k,
                          result_bind acc (λ d,
                          result_bind (f k) (λ v, Ok (<[k := v]> d))))
                       (Ok d0) keys = Ok d
                 ∧ ∀ k, d !! k = if decide (k ∈ keys) then Some (g k)
                                 else d0 !! k) as Hfold.
  { induction keys as [|k keys IH]; intros d0.
    - exists d0. split; [done|]. intros k.
      by rewrite decide_False by apply not_elem_of_nil.
    - cbn [foldl result_bind]. rewrite Hf by (by left). cbn [result_bind].
      destruct (IH ltac:(intros k' Hk'; apply Hf; by right)
                   (<[k := g k]> d0)) as (d & Hd & Hlook).
      exists d. split; [done|]. intros k'. rewrite Hlook.
      destruct (decide (k' ∈ keys)) as [Hin|Hnin].
      + by rewrite decide_True by (by right).
      + destruct (decide (k' = k)) as [->|Hne].
        * rewrite decide_True by (by left). by rewrite lookup_insert_eq.
        * rewrite decide_False by (by intros [?|?]%elem_of_cons).
          by rewrite lookup_insert_ne. }
  destruct (Hfold ∅) as (d & Hd & Hlook). exists d. split; [done|].
  intros k v. rewrite Hlook. destruct (decide (k ∈ keys)).
  - split; [intros [= <-]; done | intros [_ ->]; done].
  - rewrite lookup_empty. split; [done | by intros [? _]].
Qed.

(** A dict comprehension one of whose calls raises, when no call raises
    anything else. *)
Lemma dict_comprehension_Raised {V} (f : string → Result V)
    (keys : list string) (err : string) (k0 : string) :
  k0 ∈ keys → f k0 = Raised err →
  (∀ k e, k ∈ keys → f k = Raised e → e = err) →
  dict_comprehension f keys = Raised err.
Proof.
  unfold dict_comprehension.
  set (step := λ (acc : Result (gmap string V)) k,
         result_bind acc (λ d, result_bind (f k) (λ v, Ok (<[k := v]> d)))).
  assert (∀ l e, foldl step (Raised e) l = Raised e) as Hraised.
  { induction l as [|k l IH]; intros e; [done|]. cbn [foldl]. apply IH. }
  generalize (∅ : gmap string V).
  induction keys as [|k keys IH]; intros d0 Hin Hk0 Hall;
    [by apply elem_of_nil in Hin|].
  cbn [foldl]. unfold step at 2. cbn [result_bind].
  destruct (f k) as [v|e] eqn:Hk; cbn [result_bind].
  - apply IH.
    + apply elem_of_cons in Hin as [->|?]; [congruence|done].
    + done.
    + intros k' e' Hk'. apply Hall. by right.
  - rewrite (Hall k e) by (by left || done). apply Hraised.
Qed.

Section LoopVarsFacts.
Context {Tensor : Type}.
Variable layer_data_templates : gmap string TemplateLayer.
Variable prev_layers_needed : gset string.
Variable get_rec_initial_output : TemplateLayer → Tensor.
Variable get_rec_initial_extra_outputs : TemplateLayer → gmap string Tensor.
Variable has_initial_output : TemplateLayer → bool.
Variable initial_end : Tensor.

Abbreviation get_output :=
  (_get_init_output layer_data_templates get_rec_initial_output
                    has_initial_output initial_end).
Abbreviation get_extra :=
  (_get_init_extra_outputs layer_data_templates
                           get_rec_initial_extra_outputs).
Abbreviation get_init :=
  (get_init_loop_vars layer_data_templates prev_layers_needed
                      get_rec_initial_output get_rec_initial_extra_outputs
                      has_initial_output initial_end).

(** The values the two lookups give where they return. *)
Abbreviation output_of k :=
  (match get_output k with Ok v => v | Raised _ => initial_end end).
Abbreviation extra_of k :=
  (match get_extra k with Ok d => d | Raised _ => ∅ end).

Abbreviation init_outputs :=
  (set_to_map (M := gmap string Tensor) (λ k, (k, output_of k))
              prev_layers_needed).
Abbreviation init_extra :=
  (filter (λ kv : string * gmap string Tensor, size kv.2 ≠ 0)
          (map_imap (λ k (_ : TemplateLayer), Some (extra_of k))
                    layer_data_templates)).
Abbreviation init_outputs_flat := (sorted_values_from_dict init_outputs).
Abbreviation init_extra_flat :=
  ((λ kv : string * gmap string Tensor, sorted_values_from_dict kv.2)
   <$> sorted_items (map_to_list init_extra)).
Abbreviation init_flat := (init_outputs_flat, init_extra_flat).

Lemma get_output_Ok k :
  is_Some (layer_data_templates !! k) → get_output k = Ok (output_of k).
Proof.
  intros [t Ht]. unfold _get_init_output. rewrite Ht.
  by destruct (bool_decide (k = "end") && negb (has_initial_output t)).
Qed.

Lemma get_extra_Ok k d :
  get_extra k = Ok d
  ↔ is_Some (layer_data_templates !! k) ∧ d = extra_of k.
Proof.
  unfold _get_init_extra_outputs.
  destruct (layer_data_templates !! k) as [t|]; split.
  - intros [= <-]. split; [by eexists|done].
  - by intros [_ ->].
  - done.
  - by intros [[? ?] _].
Qed.

Lemma initial_outputs_lookup k v :
  init_outputs !! k = Some v ↔ k ∈ prev_layers_needed ∧ v = output_of k.
Proof.
  rewrite lookup_set_to_map.
  - split.
    + intros (y & Hy & [= -> ->]). done.
    + intros [Hk ->]. by exists k.
  - intros y y' _ _ Heq. done.
Qed.

Lemma initial_extra_lookup k v :
  init_extra !! k = Some v ↔
  is_Some (layer_data_templates !! k) ∧ v = extra_of k ∧ size v ≠ 0.
Proof.
  rewrite map_lookup_filter_Some, map_lookup_imap. simpl. split.
  - intros [Hl Hsize]. destruct (layer_data_templates !! k); [|done].
    simpl in Hl. injection Hl as <-. eauto.
  - intros ([t ->] & -> & Hsize). done.
Qed.

(** What [get_init_loop_vars] computes when every name needed from the
    previous frame has a template. *)
Lemma get_init_loop_vars_Ok :
  prev_layers_needed ⊆ dom layer_data_templates →
  get_init = Ok (init_outputs, init_extra, init_flat).
Proof.
  intros Hsub. unfold get_init_loop_vars, _initial_outputs,
    _initial_extra_outputs.
  destruct (dict_comprehension_Ok get_output (λ k, output_of k)
              (elements prev_layers_needed)) as (io & -> & Hio).
  { intros k Hk. apply get_output_Ok, elem_of_dom, Hsub.
    by apply elem_of_elements. }
  destruct (dict_comprehension_Ok get_extra (λ k, extra_of k)
              (dict_keys layer_data_templates)) as (ieo & -> & Hieo).
  { intros k Hk. apply get_extra_Ok. split; [|done].
    unfold dict_keys in Hk. apply list_elem_of_fmap in Hk as ([k' t] & -> & Hk).
    apply elem_of_map_to_list in Hk. by eexists. }
  cbn [result_bind].
  assert (io = init_outputs) as ->.
  { apply map_eq. intros k. apply option_eq. intros v.
    rewrite Hio, initial_outputs_lookup, elem_of_elements. done. }
  assert (ieo = map_imap (λ k (_ : TemplateLayer), Some (extra_of k))
                         layer_data_templates) as ->.
  { apply map_eq. intros k. apply option_eq. intros v.
    rewrite Hieo, map_lookup_imap. unfold dict_keys.
    rewrite list_elem_of_fmap. split.
    - intros [([k' t] & -> & Hk) ->]. apply elem_of_map_to_list in Hk.
      simpl in *. by rewrite Hk.
    - destruct (layer_data_templates !! k) as [t|] eqn:Ht; [|done].
      simpl. intros [= <-]. split; [|done]. exists (k, t).
      split; [done|]. by apply elem_of_map_to_list. }
  done.
Qed.

(** A name needed from the previous frame that has no template makes
    [get_init_loop_vars] raise. *)
Lemma get_init_loop_vars_KeyError k :
  k ∈ prev_layers_needed → layer_data_templates !! k = None →
  get_init = Raised "KeyError".
Proof.
  intros Hk Hnone. unfold get_init_loop_vars, _initial_outputs.
  rewrite (dict_comprehension_Raised get_output _ "KeyError" k).
  - done.
  - by apply elem_of_elements.
  - unfold _get_init_output. by rewrite Hnone.
  - intros k' e _. unfold _get_init_output.
    destruct (layer_data_templates !! k') as [t|]; [|by intros [= <-]].
    by destruct (bool_decide (k' = "end") && negb (has_initial_output t)).
Qed.

Lemma initial_outputs_keys :
  dict_keys init_outputs ≡ₚ elements prev_layers_needed.
Proof.
  unfold dict_keys, set_to_map.
  assert (∀ l : list string,
            ((λ k, (k, output_of k)) <$> l).*1 = l) as Hid.
  { intros l. induction l as [|k l IH]; simpl; by f_equal. }
  rewrite map_to_list_to_map.
  - by rewrite Hid.
  - rewrite Hid. apply NoDup_elements.
Qed.

(** The flat initial outputs are those of the layers needed from the
    previous frame, in the sorted order of their names. *)
Lemma init_outputs_flat_sorted :
  sorted_values_from_dict init_outputs
  = (λ k, output_of k) <$> sorted (elements prev_layers_needed).
Proof.
  unfold sorted_values_from_dict.
  rewrite (sorted_items_functional (λ k, output_of k)).
  - rewrite <-list_fmap_compose. simpl.
    pose proof (sorted_same _ _ initial_outputs_keys) as Hs.
    unfold dict_keys in Hs. by rewrite Hs.
  - intros k v Hkv. apply elem_of_map_to_list in Hkv.
    by apply initial_outputs_lookup in Hkv as [_ ->].
Qed.

Lemma init_extra_flat_sorted :
  init_extra_flat
  = (λ k, sorted_values_from_dict (extra_of k))
    <$> sorted (dict_keys init_extra).
Proof.
  unfold dict_keys.
  rewrite (sorted_items_functional (λ k, extra_of k)).
  - by rewrite <-list_fmap_compose.
  - intros k v Hkv. apply elem_of_map_to_list in Hkv.
    by apply initial_extra_lookup in Hkv as (_ & -> & _).
Qed.

Lemma prev_extra_from_flat_init :
  prev_extra_from_flat init_extra init_extra_flat = Some init_extra.
Proof.
  unfold prev_extra_from_flat.
  replace (sorted (dict_keys init_extra))
    with ((sorted_items (map_to_list init_extra)).*1)
    by apply sorted_items_keys.
  set (items := sorted_items (map_to_list init_extra)).
  rewrite zip_with_fmap_l, zip_with_fmap_r, zip_with_diag.
  rewrite (proj2 (mapM_Some _ _ items)).
  - simpl. f_equal. apply list_to_map_sorted_items.
  - apply Forall2_fmap_l, Forall_Forall2_diag, Forall_forall.
    intros [k v] Hkv. simpl.
    assert (init_extra !! k = Some v) as ->.
    { apply elem_of_map_to_list. subst items.
      by rewrite sorted_items_perm in Hkv. }
    simpl. by rewrite dict_zip_sorted.
Qed.

Lemma prev_extra_from_flat_dom
    (initial_extra_outputs : gmap string (gmap string Tensor))
    prev_extra_flat prev_extra :
  length prev_extra_flat = size initial_extra_outputs →
  prev_extra_from_flat initial_extra_outputs prev_extra_flat
  = Some prev_extra →
  dom prev_extra = dom initial_extra_outputs.
Proof.
  intros Hlen Hpe. unfold prev_extra_from_flat in Hpe.
  apply fmap_Some in Hpe as (l & Hl & ->).
  apply mapM_Some in Hl.
  set (keys := sorted (dict_keys initial_extra_outputs)) in *.
  assert (l.*1 = keys) as Hkeys.
  { rewrite <-(fst_zip keys prev_extra_flat); cycle 1.
    { subst keys. unfold dict_keys.
      rewrite sorted_perm, length_fmap, length_map_to_list. lia. }
    revert Hl. generalize (zip keys prev_extra_flat). intros z Hl.
    induction Hl as [|x y z l Hxy _ IH]; [done|]. simpl. f_equal; [|done].
    apply bind_Some in Hxy as (d & _ & Hxy).
    apply bind_Some in Hxy as (v & _ & [= <-]). done. }
  apply set_eq. intros k.
  rewrite dom_list_to_map_L, elem_of_list_to_set, Hkeys.
  subst keys. unfold dict_keys. rewrite sorted_perm, elem_of_dom.
  rewrite list_elem_of_fmap. split.
  - intros ([k' v] & -> & Hkv). apply elem_of_map_to_list in Hkv. by exists v.
  - intros [v Hv]. exists (k, v). split; [done|]. by apply elem_of_map_to_list.
Qed.

Lemma length_sorted (l : list string) : length (sorted l) = length l.
Proof. by rewrite sorted_perm. Qed.

Lemma prev_outputs_from_flat_init :
  list_to_map (zip (sorted (elements prev_layers_needed)) init_outputs_flat)
  = init_outputs.
Proof.
  rewrite init_outputs_flat_sorted.
  rewrite zip_with_fmap_r, zip_with_diag.
  unfold set_to_map. apply list_to_map_proper.
  - rewrite <-list_fmap_compose.
    assert (∀ l : list string,
              (fst ∘ (λ k, (k, output_of k))) <$> l = l) as Hid.
    { intros l. induction l as [|k l IH]; simpl; by f_equal. }
    rewrite Hid, sorted_perm. apply NoDup_elements.
  - by rewrite sorted_perm.
Qed.

(** C10: when every name needed from the previous frame has a template,
    [get_init_loop_vars] returns, and flattening and unflattening is a round
    trip.  The flat loop variables are ordered by sorted layer name; the
    initial previous-outputs dict has exactly the names needed from the
    previous frame as keys, the initial extra-state dict exactly the names
    of the templates with non-empty initial extra state, and so has every
    pair of dicts that unflattening gives; unflattening the initial loop
    variables gives the initial dicts back, and extracting the recurrent
    variables of a layer with non-empty initial extra state from the initial
    loop variables returns its initial extra-state dict. *)
Theorem c10_loop_vars_round_trip :
  prev_layers_needed ⊆ dom layer_data_templates →
  ∃ initial_outputs initial_extra_outputs loop_vars,
    get_init = Ok (initial_outputs, initial_extra_outputs, loop_vars)
    ∧ Forall2 (λ k v, get_output k = Ok v)
              (sorted (elements prev_layers_needed)) loop_vars.1
    ∧ Forall2 (λ k vs, ∃ d, get_extra k = Ok d
                            ∧ vs = sorted_values_from_dict d)
              (sorted (dict_keys initial_extra_outputs)) loop_vars.2
    ∧ (∀ k v, initial_outputs !! k = Some v
              ↔ k ∈ prev_layers_needed ∧ get_output k = Ok v)
    ∧ (∀ k d, initial_extra_outputs !! k = Some d
              ↔ get_extra k = Ok d ∧ size d ≠ 0)
    ∧ (∀ flat prev_outputs prev_extra,
         get_next_loop_vars_prev prev_layers_needed initial_extra_outputs
                                 flat
         = Some (prev_outputs, prev_extra) →
         dom prev_outputs = prev_layers_needed
         ∧ dom prev_extra = dom initial_extra_outputs)
    ∧ get_next_loop_vars_prev prev_layers_needed initial_extra_outputs
                              loop_vars
      = Some (initial_outputs, initial_extra_outputs)
    ∧ (∀ layer_name d,
         get_extra layer_name = Ok d → size d ≠ 0 →
         get_layer_rec_var_from_loop_vars
           prev_layers_needed initial_extra_outputs loop_vars layer_name
         = Some d).
Proof.
  intros Hsub. exists init_outputs, init_extra, init_flat.
  split; [by apply get_init_loop_vars_Ok|].
  assert (∀ k, k ∈ prev_layers_needed → get_output k = Ok (output_of k))
    as Hout.
  { intros k Hk. by apply get_output_Ok, elem_of_dom, Hsub. }
  assert (length init_outputs_flat = size prev_layers_needed) as Hlen1.
  { by rewrite init_outputs_flat_sorted, length_fmap, length_sorted. }
  assert (length init_extra_flat = size init_extra) as Hlen2.
  { by rewrite length_fmap, sorted_items_perm, length_map_to_list. }
  cbn [fst snd].
  split.
  { rewrite init_outputs_flat_sorted.
    apply Forall2_fmap_r, Forall_Forall2_diag, Forall_forall.
    intros k Hk. apply Hout.
    unfold sorted in Hk. rewrite merge_sort_Permutation in Hk.
    by apply elem_of_elements. }
  split.
  { rewrite init_extra_flat_sorted.
    apply Forall2_fmap_r, Forall_Forall2_diag, Forall_forall.
    intros k Hk. exists (extra_of k). split; [|done].
    unfold sorted in Hk. rewrite merge_sort_Permutation in Hk.
    unfold dict_keys in Hk.
    apply list_elem_of_fmap in Hk as ([k' v] & -> & Hk).
    apply elem_of_map_to_list, initial_extra_lookup in Hk as (? & _).
    by apply get_extra_Ok. }
  split.
  { intros k v. rewrite initial_outputs_lookup. split.
    - intros [Hk ->]. split; [done|]. by apply Hout.
    - intros [Hk Hv]. split; [done|]. rewrite (Hout k Hk) in Hv.
      by injection Hv. }
  split.
  { intros k d. rewrite initial_extra_lookup, get_extra_Ok. naive_solver. }
  split.
  { intros [flat1 flat2] prev_outputs prev_extra.
    unfold get_next_loop_vars_prev.
    case_decide as Hl1; [|done]. case_decide as Hl2; [|done].
    intros Hpe. apply bind_Some in Hpe as (pe & Hpe & [= <- <-]). split.
    - rewrite dom_list_to_map_L, fst_zip by (rewrite length_sorted, Hl1; done).
      apply set_eq. intros k.
      by rewrite elem_of_list_to_set, sorted_perm, elem_of_elements.
    - by eapply prev_extra_from_flat_dom. }
  split.
  { unfold get_next_loop_vars_prev.
    rewrite decide_True by done. rewrite decide_True by done.
    by rewrite prev_extra_from_flat_init, prev_outputs_from_flat_init. }
  intros name d Hd Hsize.
  unfold get_layer_rec_var_from_loop_vars.
  rewrite decide_True by done. rewrite decide_True by done.
  rewrite prev_extra_from_flat_init. simpl.
  apply initial_extra_lookup. apply get_extra_Ok in Hd as [? ->]. done.
Qed.

End LoopVarsFacts.

Lemma c10_loop_vars_round_trip_witness :
  ∃ initial_outputs initial_extra_outputs loop_vars,
    get_init_loop_vars self_recurrent_templates {["s"]}
                       test_initial_output test_initial_extra
                       (λ _, false) 0
    = Ok (initial_outputs, initial_extra_outputs, loop_vars)
    ∧ Forall2 (λ k v, _get_init_output self_recurrent_templates
                                       test_initial_output (λ _, false) 0 k
                      = Ok v)
              (sorted (elements ({["s"]} : gset string))) loop_vars.1
    ∧ Forall2 (λ k vs, ∃ d, _get_init_extra_outputs self_recurrent_templates
                                                     test_initial_extra k
                            = Ok d
                            ∧ vs = sorted_values_from_dict d)
              (sorted (dict_keys initial_extra_outputs)) loop_vars.2
    ∧ (∀ k v, initial_outputs !! k = Some v
              ↔ k ∈ ({["s"]} : gset string)
                ∧ _get_init_output self_recurrent_templates
                                   test_initial_output (λ _, false) 0 k
                  = Ok v)
    ∧ (∀ k d, initial_extra_outputs !! k = Some d
              ↔ _get_init_extra_outputs self_recurrent_templates
                                        test_initial_extra k = Ok d
                ∧ size d ≠ 0)
    ∧ (∀ flat prev_outputs prev_extra,
         get_next_loop_vars_prev {["s"]} initial_extra_outputs flat
         = Some (prev_outputs, prev_extra) →
         dom prev_outputs = ({["s"]} : gset string)
         ∧ dom prev_extra = dom initial_extra_outputs)
    ∧ get_next_loop_vars_prev {["s"]} initial_extra_outputs loop_vars
      = Some (initial_outputs, initial_extra_outputs)
    ∧ (∀ layer_name d,
         _get_init_extra_outputs self_recurrent_templates
                                 test_initial_extra layer_name = Ok d →
         size d ≠ 0 →
         get_layer_rec_var_from_loop_vars
           {["s"]} initial_extra_outputs loop_vars layer_name
         = Some d).
Proof.
  apply (c10_loop_vars_round_trip self_recurrent_templates {["s"]}
           test_initial_output test_initial_extra (λ _, false) 0).
  refine (bool_decide_unpack _ _). vm_compute. exact I.
Defined.

(** * Construction of the template graph *)

Section ConstructTemplateFacts.
Variable net_dict : gmap string LayerDesc.
Variable parent_layers : gset string.
Variable get_out_data_from_opts :
  string → LayerDesc → list LayerRef → Result unit.

Hypothesis closed : closed_net_dict net_dict parent_layers.
Hypothesis out_data_ok :
  ∀ name desc sources, get_out_data_from_opts name desc sources = Ok tt.

Abbreviation templates st := (cs_layer_data_templates st).

Abbreviation missing := (missing_templates net_dict).
Abbreviation extends := (extends_state net_dict).

Lemma missing_mono st st' :
  (dom (templates st) : gset string) ⊆ dom (templates st') →
  missing st' ≤ missing st.
Proof. intros Hsub. unfold missing_templates. apply subseteq_size. set_solver. Qed.

Lemma add_dependency_ok layer st :
  cs_layers st ≠ [] →
  ∃ st', add_dependency layer st = Returned tt st'
    ∧ cs_layers st' = cs_layers st
    ∧ (dom (templates st') : gset string) = dom (templates st).
Proof.
  intros Hstack. unfold add_dependency.
  destruct (last (cs_layers st)) as [top|] eqn:Hlast.
  - eexists. split; [done|]. simpl. split; [done|]. apply dom_alter_L.
  - apply last_None in Hlast. done.
Qed.

Lemma extends_trans st1 st2 st3 :
  extends st1 st2 → extends st2 st3 → extends st1 st3.
Proof.
  intros (Hs1 & Hd1 & _) (Hs2 & Hd2 & Hn2).
  split; [congruence|]. split; [set_solver|done].
Qed.

Lemma missing_insert st st' name :
  name ∈ (dom net_dict : gset string) →
  name ∉ (dom (templates st) : gset string) →
  (dom (templates st') : gset string) = {[name]} ∪ dom (templates st) →
  missing st' < missing st.
Proof.
  intros Hin Hnotin Hdom. unfold missing_templates. rewrite Hdom.
  replace ((dom net_dict : gset string) ∖ ({[name]} ∪ dom (templates st)))
    with (((dom net_dict : gset string) ∖ dom (templates st)) ∖ {[name]})
    by set_solver.
  rewrite size_difference by set_solver. rewrite size_singleton.
  assert (size ({[name]} : gset string)
          ≤ size ((dom net_dict : gset string) ∖ dom (templates st))) as Hle
    by (apply subseteq_size; set_solver).
  rewrite size_singleton in Hle. lia.
Qed.

Lemma add_templated_layer_ok name desc sources st :
  is_Some (templates st !! name) →
  ∃ st', add_templated_layer get_out_data_from_opts name desc sources st
         = Returned tt st'
    ∧ cs_layers st' = cs_layers st
    ∧ (dom (templates st') : gset string) = dom (templates st).
Proof.
  intros [layer Hl]. unfold add_templated_layer. rewrite Hl, out_data_ok.
  eexists. split; [done|]. simpl. split; [done|].
  rewrite dom_insert_L. apply elem_of_dom_2 in Hl. set_solver.
Qed.

(** Resolving the names of a declaration in turn, given that a single name
    can be resolved with this much fuel. *)
Lemma resolve_sources_ok fuel :
  (∀ name st,
     resolvable net_dict parent_layers name →
     (dom (templates st) : gset string) ⊆ dom net_dict →
     cs_layers st ≠ [] →
     missing st < fuel →
     ∃ layer st',
       get_templated_layer net_dict parent_layers get_out_data_from_opts
                           fuel name st = Returned layer st'
       ∧ extends st st') →
  ∀ sources st,
    (∀ source, source ∈ sources → resolvable net_dict parent_layers source) →
    (dom (templates st) : gset string) ⊆ dom net_dict →
    cs_layers st ≠ [] →
    missing st < fuel →
    ∃ layers st',
      cmapM (get_templated_layer net_dict parent_layers
                                 get_out_data_from_opts fuel) sources st
      = Returned layers st'
      ∧ extends st st'.
Proof.
  intros Hone sources.
  induction sources as [|source sources IH]; intros st Hres Hdom Hstack Hfuel.
  - eexists _, _. split; [done|]. split; [done|]. split; [done|done].
  - destruct (Hone source st) as (layer & st1 & Hget & Hext1);
      [apply Hres; by left|done..|].
    pose proof Hext1 as (Hs1 & Hd1 & Hn1).
    destruct (IH st1) as (layers & st2 & Hrest & Hext2).
    + intros s Hs. apply Hres. by right.
    + done.
    + congruence.
    + pose proof (missing_mono st st1 Hd1). lia.
    + cbn [cmapM]. unfold cbind at 1. rewrite Hget.
      unfold cbind at 1. rewrite Hrest.
      eexists _, _. split; [done|]. by eapply extends_trans.
Qed.

Lemma get_templated_layer_ok fuel :
  ∀ name st,
    resolvable net_dict parent_layers name →
    (dom (templates st) : gset string) ⊆ dom net_dict →
    cs_layers st ≠ []
    ∨ (String.prefix "prev:" name = false
       ∧ String.prefix "base:" name = false
       ∧ templates st !! name = None) →
    missing st < fuel →
    ∃ layer st',
      get_templated_layer net_dict parent_layers get_out_data_from_opts
                          fuel name st = Returned layer st'
      ∧ extends st st'
      ∧ (String.prefix "prev:" name = false →
         String.prefix "base:" name = false →
         is_Some (templates st' !! name)).
Proof.
  induction fuel as [|fuel IH]; intros name st Hres Hdom Hcall Hfuel; [lia|].
  cbn [get_templated_layer].
  set (name' := if String.prefix "prev:" name
                then strip_prefix "prev:" name else name).
  set (st0 := if String.prefix "prev:" name
              then mkConstructState (templates st)
                     ({[strip_prefix "prev:" name]} ∪ cs_prev_layers_needed st)
                     (cs_layers st)
              else st).
  assert ((if String.prefix "prev:" name
           then (strip_prefix "prev:" name,
                 mkConstructState (templates st)
                   ({[strip_prefix "prev:" name]} ∪ cs_prev_layers_needed st)
                   (cs_layers st))
           else (name, st)) = (name', st0)) as ->
    by (subst name' st0; by destruct (String.prefix "prev:" name)).
  assert (templates st0 = templates st ∧ cs_layers st0 = cs_layers st)
    as [HT0 Hs0]
    by (subst st0; by destruct (String.prefix "prev:" name)).
  assert (if String.prefix "base:" name'
          then strip_prefix "base:" name' ∈ parent_layers
          else is_Some (net_dict !! name')) as Hres' by exact Hres.
  assert (String.prefix "prev:" name = false → name' = name) as Hname
    by (subst name'; by intros ->).
  assert (cs_layers st0 ≠ []
          ∨ (String.prefix "base:" name' = false
             ∧ templates st0 !! name' = None)) as Hcall'.
  { destruct Hcall as [?|(Hp & Hb & Hnone)]; [left; congruence|right].
    rewrite (Hname Hp), HT0. done. }
  assert (extends st st0) as Hext0.
  { split; [done|]. rewrite HT0. done. }
  assert (missing st0 < S fuel) as Hfuel0
    by (unfold missing_templates in *; by rewrite HT0).
  clearbody name' st0. clear Hres Hcall.
  destruct (decide (is_Some (templates st0 !! name'))) as [Hin|Hnotin].
  { (* already registered, also when still under construction *)
    destruct Hcall' as [Hstack|[_ Hnone]];
      [|rewrite Hnone in Hin; by destruct Hin].
    destruct (add_dependency_ok (SubnetLayer name') st0 Hstack)
      as (st1 & Hadd & Hs1 & HT1).
    unfold cbind. rewrite Hadd. eexists _, _. split; [done|].
    assert (extends st0 st1) as Hext1.
    { split; [done|]. rewrite HT1. split; [done|]. by destruct Hext0 as (_&_&?). }
    split; [by eapply extends_trans|].
    intros Hp _. rewrite <-(Hname Hp).
    apply elem_of_dom. rewrite HT1. by apply elem_of_dom. }
  destruct (String.prefix "base:" name') eqn:Hbase.
  { (* a layer of the parent network *)
    destruct Hcall' as [Hstack|[? _]]; [|done].
    rewrite decide_True by done.
    destruct (add_dependency_ok (BaseLayer (strip_prefix "base:" name'))
                st0 Hstack) as (st1 & Hadd & Hs1 & HT1).
    unfold cbind. rewrite Hadd. eexists _, _. split; [done|].
    assert (extends st0 st1) as Hext1.
    { split; [done|]. rewrite HT1. split; [done|]. by destruct Hext0 as (_&_&?). }
    split; [by eapply extends_trans|].
    intros Hp Hb. rewrite (Hname Hp) in Hbase. congruence. }
  (* a new template *)
  destruct Hres' as [desc Hdesc].
  assert (∃ st1, (match cs_layers st0 with
                  | [] => cret tt
                  | _ => add_dependency (SubnetLayer name')
                  end) st0 = Returned tt st1
                 ∧ cs_layers st1 = cs_layers st0
                 ∧ (dom (templates st1) : gset string) = dom (templates st0))
    as (st1 & Hstep1 & Hs1 & HT1).
  { destruct (decide (cs_layers st0 = [])) as [Hempty|Hne].
    - exists st0. by rewrite Hempty.
    - destruct (add_dependency_ok (SubnetLayer name') st0 Hne)
        as (st1 & Ha & Hb & Hc).
      exists st1. split; [|done]. by destruct (cs_layers st0). }
  set (st2 := mkConstructState
                (<[name' := mkTemplateLayer name' false []]> (templates st1))
                (cs_prev_layers_needed st1) (cs_layers st1 ++ [name'])).
  assert ((dom (templates st2) : gset string)
          = {[name']} ∪ dom (templates st0)) as HT2
    by (subst st2; simpl; by rewrite dom_insert_L, HT1).
  assert (name' ∈ (dom net_dict : gset string)) as Hdeclared
    by (by eapply elem_of_dom_2).
  assert (name' ∉ (dom (templates st0) : gset string)) as Hfresh
    by (by rewrite elem_of_dom).
  assert ((dom (templates st0) : gset string) ⊆ dom net_dict) as Hdom0
    by (by destruct Hext0 as (_&_&?)).
  assert (missing st2 < fuel) as Hfuel2.
  { pose proof (missing_insert st0 st2 name' Hdeclared Hfresh HT2). lia. }
  destruct (resolve_sources_ok fuel) with (sources := layer_from desc)
                                          (st := st2)
    as (layers & st3 & Hsources & Hs3 & Hd3 & Hn3).
  { intros n s Hr Hd Hst Hf.
    destruct (IH n s Hr Hd (or_introl Hst) Hf) as (l & s' & ? & ? & _).
    by exists l, s'. }
  { intros source Hsource.
    pose proof (proj2 closed name' desc Hdesc) as Hall.
    rewrite Forall_forall in Hall. by apply Hall. }
  { rewrite HT2. set_solver. }
  { subst st2. simpl. by destruct (cs_layers st1). }
  { done. }
  destruct (add_templated_layer_ok name' desc layers st3)
    as (st4 & Hadd & Hs4 & HT4).
  { apply elem_of_dom. apply Hd3. rewrite HT2. set_solver. }
  unfold cbind at 1. rewrite Hstep1.
  unfold cbind at 1. fold st2.
  unfold cbind at 1. unfold _construct_layer. rewrite Hdesc.
  unfold cbind at 1. rewrite Hsources, Hadd.
  unfold cbind at 1.
  assert (cs_layers st4 = cs_layers st0 ++ [name']) as Hstack4
    by (rewrite Hs4, Hs3; subst st2; simpl; by rewrite Hs1).
  rewrite decide_True by (by rewrite Hstack4, last_snoc).
  unfold cret. eexists _, _. split; [done|].
  assert (extends st0 (mkConstructState (templates st4)
                         (cs_prev_layers_needed st4)
                         (removelast (cs_layers st4)))) as Hext4.
  { split; simpl.
    - by rewrite Hstack4, removelast_last.
    - rewrite HT4. split; [|done]. etrans; [|exact Hd3]. rewrite HT2.
      set_solver. }
  split; [by eapply extends_trans|].
  intros Hp _. simpl. rewrite <-(Hname Hp).
  apply elem_of_dom. rewrite HT4. apply Hd3. rewrite HT2. set_solver.
Qed.

End ConstructTemplateFacts.

(** * Hoisting layers out of the loop: what the analysis leaves behind *)

Lemma list_remove_first_perm x l l' :
  list_remove_first x l = Some l' → l ≡ₚ x :: l'.
Proof.
  revert l'. induction l as [|y l IH]; intros l'; simpl; [done|].
  destruct (decide (x = y)) as [->|Hne].
  - by intros [= ->].
  - intros H. apply fmap_Some in H as (l0 & Hl0 & ->).
    rewrite (IH _ Hl0). apply Permutation_swap.
Qed.

Lemma list_remove_first_other x y l l' :
  list_remove_first x l = Some l' → y ∈ l → y ≠ x → y ∈ l'.
Proof.
  intros Hrm Hin Hne. apply list_remove_first_perm in Hrm.
  rewrite Hrm in Hin. apply elem_of_cons in Hin as [?|?]; done.
Qed.

Lemma list_remove_first_subset x y l l' :
  list_remove_first x l = Some l' → y ∈ l' → y ∈ l.
Proof.
  intros Hrm Hin. apply list_remove_first_perm in Hrm.
  rewrite Hrm. by apply elem_of_cons; right.
Qed.

Lemma forallb_false_exists {A} (f : A → bool) (l : list A) :
  forallb f l = false → ∃ x, x ∈ l ∧ f x = false.
Proof.
  induction l as [|y l IH]; simpl; [done|].
  destruct (f y) eqn:Hy; simpl.
  - intros (x & Hx & Hfx)%IH. exists x. split; [by right|done].
  - intros _. exists y. split; [by left|done].
Qed.

Lemma list_min_rank {A} (rank : A → nat) (l : list A) :
  l ≠ [] → ∃ x, x ∈ l ∧ ∀ y, y ∈ l → rank x ≤ rank y.
Proof.
  induction l as [|a l IH]; [done|]. intros _.
  destruct l as [|b l].
  - exists a. split; [by left|]. intros y Hy.
    apply list_elem_of_singleton in Hy as ->. done.
  - destruct IH as (x & Hx & Hmin); [done|].
    destruct (decide (rank a ≤ rank x)) as [Hle|Hgt].
    + exists a. split; [by left|]. intros y [->|Hy]%elem_of_cons; [done|].
      specialize (Hmin y Hy). lia.
    + exists x. split; [by right|]. intros y [->|Hy]%elem_of_cons; [lia|].
      by apply Hmin.
Qed.

Section HoistInvariants.
Variable layer_data_templates : gmap string TemplateLayer.
Variable prev_layers_needed : gset string.
Variable real_dep_layers : string → option (list LayerRef).

Abbreviation deps := (get_dep_layers layer_data_templates real_dep_layers).
Abbreviation find_output :=
  (find_output_layer_to_move_out layer_data_templates prev_layers_needed
                                 real_dep_layers).
Abbreviation find_input :=
  (find_input_layer_to_move_out layer_data_templates real_dep_layers).
Abbreviation rounds :=
  (move_rounds layer_data_templates prev_layers_needed real_dep_layers).
Abbreviation hoist :=
  (move_outside_loop layer_data_templates prev_layers_needed real_dep_layers).
Abbreviation init_state :=
  (mkHoistState (fst <$> sorted_items (map_to_list layer_data_templates))
                [] [] ["output"]).

(** A property [P] of the state at the start of a round and a property [R]
    of the state between the two searches of a round, each established
    from the other by the moves, hold when the loop has finished; and then
    neither search finds a layer. *)
Lemma move_rounds_inv (P R : HoistState → Prop) fuel st st' :
  (∀ st layer st', P st → find_output st = Some layer →
     output_move_out st layer = Some st' → R st') →
  (∀ st, P st → find_output st = None → R st) →
  (∀ st layer st', R st → find_input st = Some layer →
     input_move_out st layer = Some st' → P st') →
  (∀ st, R st → find_input st = None → P st) →
  P st →
  rounds fuel st = Finished st' →
  P st' ∧ R st' ∧ find_output st' = None ∧ find_input st' = None.
Proof.
  intros Hout Hout0 Hin Hin0. revert st.
  induction fuel as [|fuel IH]; intros st HP; [done|].
  cbn [move_rounds]. unfold move_round.
  destruct (find_output st) as [ol|] eqn:Hfo.
  - destruct (output_move_out st ol) as [st1|] eqn:Hmo; [|done].
    cbn [mbind option_bind].
    pose proof (Hout _ _ _ HP Hfo Hmo) as HR1.
    destruct (find_input st1) as [il|] eqn:Hfi.
    + destruct (input_move_out st1 il) as [st2|] eqn:Hmi; [|done].
      cbn [mbind option_bind].
      rewrite bool_decide_true by (left; by eexists).
      apply IH. by eapply Hin.
    + cbn [mbind option_bind].
      rewrite bool_decide_true by (left; by eexists).
      apply IH. by apply Hin0.
  - cbn [mbind option_bind].
    pose proof (Hout0 _ HP Hfo) as HR.
    destruct (find_input st) as [il|] eqn:Hfi.
    + destruct (input_move_out st il) as [st2|] eqn:Hmi; [|done].
      cbn [mbind option_bind].
      rewrite bool_decide_true by (right; by eexists).
      apply IH. by eapply Hin.
    + cbn [mbind option_bind].
      rewrite bool_decide_false by (intros [[? [=]]|[? [=]]]).
      intros [= <-]. done.
Qed.

(** The analysis finishes within one round per template and one more. *)
Lemma hoist_finishes :
  ∃ st, hoist (S (size layer_data_templates)) = Finished st
    ∧ layers_in_loop st ++ input_layers_moved_out st
      ++ output_layers_moved_out st
      ≡ₚ (map_to_list layer_data_templates).*1.
Proof.
  destruct (move_rounds_finish layer_data_templates prev_layers_needed
              real_dep_layers (S (size layer_data_templates)) init_state)
    as (st & Hfin & Hperm & _).
  { split; simpl; intros layer Hl; by apply elem_of_nil in Hl. }
  { simpl. rewrite length_fmap, sorted_items_perm, length_map_to_list. lia. }
  exists st. split; [done|]. rewrite Hperm. simpl.
  by rewrite app_nil_r, sorted_items_perm.
Qed.

Lemma elem_of_template_names name :
  name ∈ (map_to_list layer_data_templates).*1
  ↔ is_Some (layer_data_templates !! name).
Proof.
  rewrite list_elem_of_fmap. split.
  - intros ([k v] & -> & Hkv). apply elem_of_map_to_list in Hkv. by exists v.
  - intros [v Hv]. exists (name, v). split; [done|].
    by apply elem_of_map_to_list.
Qed.

Lemma init_state_in_loop name :
  name ∈ layers_in_loop init_state ↔ is_Some (layer_data_templates !! name).
Proof.
  simpl. rewrite sorted_items_perm. apply elem_of_template_names.
Qed.

Lemma find_input_None st layer :
  find_input st = None → layer ∈ layers_in_loop st →
  ∃ other, other ∈ layers_in_loop st ∧ SubnetLayer other ∈ deps layer.
Proof.
  unfold find_input_layer_to_move_out. intros Hfind Hin.
  apply list_elem_of_In in Hin.
  pose proof (find_none _ _ Hfind _ Hin) as Hcan.
  unfold input_can_move_out in Hcan.
  apply forallb_false_exists in Hcan as (other & Hother & Hdep).
  exists other. split; [done|].
  apply negb_false_iff, bool_decide_eq_true in Hdep. done.
Qed.

Lemma find_output_None st layer :
  find_output st = None → layer ∈ layers_in_loop st →
  layer ∈ needed_outputs st →
  layer ∈ prev_layers_needed
  ∨ ∃ other, other ∈ layers_in_loop st ∧ SubnetLayer layer ∈ deps other.
Proof.
  unfold find_output_layer_to_move_out. intros Hfind Hin Hneeded.
  apply list_elem_of_In in Hin.
  pose proof (find_none _ _ Hfind _ Hin) as Hcan. simpl in Hcan.
  rewrite bool_decide_true in Hcan by done. simpl in Hcan.
  unfold output_can_move_out in Hcan.
  case_decide as Hprev.
  - left. unfold layers_needed_from_prev_frame in Hprev.
    rewrite sorted_perm in Hprev. by apply elem_of_elements in Hprev.
  - right. apply forallb_false_exists in Hcan as (other & Hother & Hdep).
    exists other. split; [done|].
    apply negb_false_iff, bool_decide_eq_true in Hdep. done.
Qed.

(** X1: the analysis stops only at a state from which nothing more can be
    moved.  After it has finished, neither search finds a layer: every layer
    left in the loop depends on a layer that is left in the loop, and every
    needed output left in the loop is needed from the previous frame or is a
    dependency of a layer left in the loop. *)
Theorem move_outside_loop_is_maximal :
  ∃ st,
    move_outside_loop layer_data_templates prev_layers_needed
                      real_dep_layers (S (size layer_data_templates))
    = Finished st
    ∧ find_output st = None
    ∧ find_input st = None
    ∧ (∀ layer, layer ∈ layers_in_loop st →
         ∃ other, other ∈ layers_in_loop st ∧ SubnetLayer other ∈ deps layer)
    ∧ (∀ layer, layer ∈ layers_in_loop st → layer ∈ needed_outputs st →
         layer ∈ prev_layers_needed
         ∨ ∃ other, other ∈ layers_in_loop st
                    ∧ SubnetLayer layer ∈ deps other).
Proof.
  destruct hoist_finishes as (st & Hfin & _). exists st. split; [done|].
  destruct (move_rounds_inv (λ _, True) (λ _, True) _ _ _
              ltac:(done) ltac:(done) ltac:(done) ltac:(done) I Hfin)
    as (_ & _ & Hfo & Hfi).
  split; [done|]. split; [done|]. split.
  - intros layer. by apply find_input_None.
  - intros layer. by apply find_output_None.
Qed.

(** ** Which layer ends on the output side *)

(** Whether "output" can be moved out before anything else has been. *)
Abbreviation output_is_free :=
  (is_Some (layer_data_templates !! "output")
   ∧ ("output" ∉ prev_layers_needed)
   ∧ ∀ other, is_Some (layer_data_templates !! other) →
       SubnetLayer "output" ∉ deps other).

(** What blocks "output" from the output side, as long as it holds. *)
Abbreviation output_blocked st :=
  ("output" ∉ layers_in_loop st
   ∨ "output" ∈ prev_layers_needed
   ∨ ∃ other, other ∈ layers_in_loop st ∧ SubnetLayer "output" ∈ deps other).

Lemma output_free_or_blocked : output_is_free ∨ output_blocked init_state.
Proof.
  destruct (decide ("output" ∈ layers_in_loop init_state)) as [Hin|Hnotin];
    [|right; by left].
  destruct (decide ("output" ∈ prev_layers_needed)) as [Hprev|Hprev];
    [right; right; by left|].
  destruct (forallb (λ other_layer,
                       negb (bool_decide (SubnetLayer "output"
                                          ∈ deps other_layer)))
                    (layers_in_loop init_state)) eqn:Hall.
  - left. split; [by apply init_state_in_loop|]. split; [done|].
    intros other Hother. rewrite forallb_forall in Hall.
    apply init_state_in_loop, list_elem_of_In in Hother.
    specialize (Hall _ Hother).
    by apply negb_true_iff, bool_decide_eq_false in Hall.
  - right. right. right.
    apply forallb_false_exists in Hall as (other & Hother & Hdep).
    exists other. split; [done|].
    by apply negb_false_iff, bool_decide_eq_true in Hdep.
Qed.

Lemma find_output_free st :
  output_is_free →
  needed_outputs st = ["output"] →
  "output" ∈ layers_in_loop st →
  (∀ layer, layer ∈ layers_in_loop st →
     is_Some (layer_data_templates !! layer)) →
  find_output st = Some "output".
Proof.
  intros (_ & Hprev & Hfree) Hneeded Hin Hsub.
  destruct (find_output st) as [layer|] eqn:Hfind.
  - apply find_output_layer_spec in Hfind as (_ & Hn & _).
    rewrite Hneeded in Hn. by apply list_elem_of_singleton in Hn as ->.
  - exfalso.
    destruct (find_output_None _ _ Hfind Hin) as [?|(other & Hother & Hdep)].
    + rewrite Hneeded. by left.
    + done.
    + by apply (Hfree other (Hsub _ Hother)).
Qed.

Lemma output_free_moved fuel st :
  output_is_free →
  hoist fuel = Finished st →
  output_layers_moved_out st = ["output"] ∧ needed_outputs st = [].
Proof.
  intros Hfree Hfin.
  pose (R := λ st, output_layers_moved_out st = ["output"]
                   ∧ needed_outputs st = []).
  pose (P := λ st, R st
                   ∨ (output_layers_moved_out st = []
                      ∧ needed_outputs st = ["output"]
                      ∧ "output" ∈ layers_in_loop st
                      ∧ ∀ layer, layer ∈ layers_in_loop st →
                          is_Some (layer_data_templates !! layer))).
  destruct (move_rounds_inv P R fuel init_state st) as (_ & HR & _); try done.
  - intros s layer s' [[_ Hn]|(Hom & Hn & Hin & Hsub)] Hfind Hmove.
    + apply find_output_layer_spec in Hfind as (_ & Hneeded & _).
      rewrite Hn in Hneeded. by apply elem_of_nil in Hneeded.
    + rewrite (find_output_free s Hfree Hn Hin Hsub) in Hfind.
      injection Hfind as <-.
      unfold output_move_out in Hmove. rewrite Hn in Hmove.
      apply bind_Some in Hmove as (needed & Hneeded & Hmove).
      apply bind_Some in Hmove as (in_loop & _ & [= <-]).
      injection Hneeded as <-. split; simpl; [by rewrite Hom|done].
  - intros s [HR|(Hom & Hn & Hin & Hsub)] Hfind; [done|].
    rewrite (find_output_free s Hfree Hn Hin Hsub) in Hfind. done.
  - intros s layer s' [Hom Hn] _ Hmove. left.
    unfold input_move_out in Hmove. rewrite Hn in Hmove.
    rewrite decide_False in Hmove by (by intros ?%elem_of_nil).
    apply bind_Some in Hmove as (needed & [= <-] & Hmove).
    apply bind_Some in Hmove as (in_loop & _ & [= <-]). done.
  - intros s HR _. by left.
  - right. split; [done|]. split; [done|].
    split; [apply init_state_in_loop, Hfree|].
    intros layer. apply init_state_in_loop.
Qed.

Lemma output_blocked_stays fuel st :
  output_blocked init_state →
  hoist fuel = Finished st →
  output_layers_moved_out st = [].
Proof.
  intros Hblocked Hfin.
  pose (P := λ st, output_layers_moved_out st = []
                   ∧ (∀ layer, layer ∈ needed_outputs st → layer = "output")
                   ∧ NoDup (layers_in_loop st)
                   ∧ output_blocked st).
  destruct (move_rounds_inv P P fuel init_state st) as ((Hom & _) & _);
    try done.
  - intros s layer s' (_ & Hn & _ & Hb) Hfind _. exfalso.
    apply find_output_layer_spec in Hfind as (Hin & Hneeded & Hprev & Hdeps).
    apply Hn in Hneeded as ->.
    destruct Hb as [?|[?|(other & Hother & Hdep)]]; [done..|].
    by apply (Hdeps other).
  - intros s layer s' (Hom & Hn & Hnd & Hb) Hfind Hmove.
    apply find_input_layer_spec in Hfind as (Hin & Hdeps).
    unfold input_move_out in Hmove.
    apply bind_Some in Hmove as (needed & Hneeded & Hmove).
    apply bind_Some in Hmove as (in_loop & Hrm & [= <-]). simpl.
    pose proof (list_remove_first_perm _ _ _ Hrm) as Hperm.
    assert (NoDup (layer :: in_loop)) as Hnd' by (by rewrite <-Hperm).
    apply NoDup_cons in Hnd' as [Hfresh Hnd'].
    split; [done|]. split; [|split; [done|]].
    + intros l Hl. apply Hn. case_decide.
      * by eapply list_remove_first_subset.
      * by injection Hneeded as <-.
    + destruct Hb as [Hout|[?|(other & Hother & Hdep)]].
      * left. intros Hl. apply Hout. by eapply list_remove_first_subset.
      * right. by left.
      * destruct (decide ("output" ∈ layers_in_loop s)) as [Hout|Hout];
          [|left; intros Hl; apply Hout; by eapply list_remove_first_subset].
        destruct (decide (other = layer)) as [->|Hne].
        -- exfalso. by apply (Hdeps "output").
        -- right. right. exists other. split; [|done].
           by eapply list_remove_first_other.
  - split; [done|]. split.
    { intros layer Hl. by apply list_elem_of_singleton in Hl. }
    split; [|done]. simpl.
    rewrite sorted_items_perm. apply NoDup_fst_map_to_list.
Qed.

(** X2: only the layer "output" can end on the output side, and it does
    exactly when it has a template, is not needed from the previous frame
    and no template layer (itself included) depends on it; then it is no
    longer a needed output. *)
Theorem only_output_moves_to_output_side :
  ∃ st,
    move_outside_loop layer_data_templates prev_layers_needed
                      real_dep_layers (S (size layer_data_templates))
    = Finished st
    ∧ (output_layers_moved_out st = ["output"]
       ∨ output_layers_moved_out st = [])
    ∧ (output_layers_moved_out st = ["output"] ↔ output_is_free)
    ∧ (output_is_free → needed_outputs st = []).
Proof.
  destruct hoist_finishes as (st & Hfin & _). exists st. split; [done|].
  destruct output_free_or_blocked as [Hfree|Hblocked].
  - destruct (output_free_moved _ _ Hfree Hfin) as [Hom Hn].
    split; [by left|]. split; [done|done].
  - pose proof (output_blocked_stays _ _ Hblocked Hfin) as Hom.
    split; [by right|]. split.
    + rewrite Hom. split; [done|]. intros Hfree.
      pose proof (output_free_moved _ _ Hfree Hfin) as [Hom' _]. congruence.
    + intros Hfree. by apply (output_free_moved _ _ Hfree Hfin).
Qed.

(** X3: layers on a dependency cycle stay in the loop.  If every layer of a
    set of template layers depends on a layer of the set and is a dependency
    of a layer of the set (as a layer that refers to its own previous
    output is, on its own), then none of them is moved out. *)
Theorem cyclic_layers_stay_in_loop (cycle : list string) :
  Forall (λ layer,
            is_Some (layer_data_templates !! layer)
            ∧ Exists (λ other, SubnetLayer other ∈ deps layer) cycle
            ∧ Exists (λ other, SubnetLayer layer ∈ deps other) cycle) cycle →
  ∃ st,
    move_outside_loop layer_data_templates prev_layers_needed
                      real_dep_layers (S (size layer_data_templates))
    = Finished st
    ∧ ∀ layer, layer ∈ cycle →
        layer ∈ layers_in_loop st
        ∧ (layer ∉ input_layers_moved_out st)
        ∧ (layer ∉ output_layers_moved_out st).
Proof.
  intros Hcycle. rewrite Forall_forall in Hcycle.
  destruct hoist_finishes as (st & Hfin & Hperm). exists st. split; [done|].
  pose (P := λ st, ∀ layer, layer ∈ cycle → layer ∈ layers_in_loop st).
  assert (P st) as HP.
  { destruct (move_rounds_inv P P (S (size layer_data_templates))
                init_state st) as (HP & _); try done.
    - intros s layer s' HPs Hfind Hmove l Hl.
      apply find_output_layer_spec in Hfind as (_ & _ & _ & Hdeps).
      unfold output_move_out in Hmove.
      apply bind_Some in Hmove as (needed & _ & Hmove).
      apply bind_Some in Hmove as (in_loop & Hrm & [= <-]). simpl.
      eapply list_remove_first_other; [done | by apply HPs |].
      intros ->. destruct (Hcycle _ Hl) as (_ & _ & Hex).
      apply Exists_exists in Hex as (other & Hother & Hdep).
      by apply (Hdeps other (HPs _ Hother)).
    - intros s layer s' HPs Hfind Hmove l Hl.
      apply find_input_layer_spec in Hfind as (_ & Hdeps).
      unfold input_move_out in Hmove.
      apply bind_Some in Hmove as (needed & _ & Hmove).
      apply bind_Some in Hmove as (in_loop & Hrm & [= <-]). simpl.
      eapply list_remove_first_other; [done | by apply HPs |].
      intros ->. destruct (Hcycle _ Hl) as (_ & Hex & _).
      apply Exists_exists in Hex as (other & Hother & Hdep).
      by apply (Hdeps other (HPs _ Hother)).
    - intros layer Hl. apply init_state_in_loop. by apply Hcycle. }
  assert (NoDup (layers_in_loop st ++ input_layers_moved_out st
                 ++ output_layers_moved_out st)) as Hnd
    by (rewrite Hperm; apply NoDup_fst_map_to_list).
  apply NoDup_app in Hnd as (_ & Hdisj & _).
  intros layer Hl. specialize (HP _ Hl). split; [done|].
  specialize (Hdisj _ HP). rewrite elem_of_app in Hdisj. tauto.
Qed.

(** X4: on a template graph without cycles everything is moved out.  If
    the template layers can be ranked so that every layer ranks above the
    template layers it depends on, the loop is left empty. *)
Theorem acyclic_templates_leave_loop_empty (rank : string → nat) :
  map_Forall (λ layer _,
    map_Forall (λ other _,
      SubnetLayer other ∈ deps layer → rank other < rank layer)
      layer_data_templates) layer_data_templates →
  ∃ st,
    move_outside_loop layer_data_templates prev_layers_needed
                      real_dep_layers (S (size layer_data_templates))
    = Finished st
    ∧ layers_in_loop st = []
    ∧ ∀ layer, is_Some (layer_data_templates !! layer) →
        layer ∈ input_layers_moved_out st ++ output_layers_moved_out st.
Proof.
  intros Hrank.
  destruct hoist_finishes as (st & Hfin & Hperm). exists st. split; [done|].
  destruct (move_rounds_inv (λ _, True) (λ _, True) _ _ _
              ltac:(done) ltac:(done) ltac:(done) ltac:(done) I Hfin)
    as (_ & _ & _ & Hfi).
  assert (layers_in_loop st = []) as Hempty.
  { destruct (decide (layers_in_loop st = [])) as [|Hne]; [done|]. exfalso.
    destruct (list_min_rank rank _ Hne) as (layer & Hl & Hmin).
    destruct (find_input_None _ _ Hfi Hl) as (other & Hother & Hdep).
    assert (∀ l, l ∈ layers_in_loop st → is_Some (layer_data_templates !! l))
      as Hsub.
    { intros l Hin. apply elem_of_template_names. rewrite <-Hperm.
      apply elem_of_app. by left. }
    destruct (Hsub _ Hl) as [tl Htl]. destruct (Hsub _ Hother) as [to Hto].
    pose proof (Hrank _ _ Htl _ _ Hto Hdep) as Hlt. simpl in Hlt.
    specialize (Hmin _ Hother). lia. }
  split; [done|]. intros layer Hl.
  apply elem_of_template_names in Hl. rewrite <-Hperm, Hempty in Hl. done.
Qed.

End HoistInvariants.

Lemma cyclic_layers_stay_in_loop_witness :
  ∃ st,
    move_outside_loop self_recurrent_templates {["s"]} (λ _, None)
                      (S (size self_recurrent_templates)) = Finished st
    ∧ ∀ layer, layer ∈ ["s"] →
        layer ∈ layers_in_loop st
        ∧ (layer ∉ input_layers_moved_out st)
        ∧ (layer ∉ output_layers_moved_out st).
Proof.
  apply (cyclic_layers_stay_in_loop self_recurrent_templates {["s"]}
           (λ _, None) ["s"]).
  refine (bool_decide_unpack _ _). vm_compute. exact I.
Defined.

Lemma acyclic_templates_leave_loop_empty_witness :
  ∃ st,
    move_outside_loop feed_forward_templates ∅ (λ _, None)
                      (S (size feed_forward_templates)) = Finished st
    ∧ layers_in_loop st = []
    ∧ ∀ layer, is_Some (feed_forward_templates !! layer) →
        layer ∈ input_layers_moved_out st ++ output_layers_moved_out st.
Proof.
  apply (acyclic_templates_leave_loop_empty feed_forward_templates ∅
           (λ _, None) (λ name, if decide (name = "output") then 1 else 0)).
  refine (bool_decide_unpack _ _). vm_compute. exact I.
Defined.

(** * The template graph the construction builds *)

Lemma cbind_Returned {A B} (m : Construct A) (f : A → Construct B) st b st' :
  cbind m f st = Returned b st' →
  ∃ a st1, m st = Returned a st1 ∧ f a st1 = Returned b st'.
Proof.
  unfold cbind. destruct (m st) as [a st1| |]; [|done..].
  intros Hf. by exists a, st1.
Qed.

Lemma elem_of_add_sources sources acc dep :
  dep ∈ add_sources acc sources
  ↔ dep ∈ acc ∨ ∃ source, source ∈ sources ∧ dep = layer_ref source.
Proof.
  revert acc. induction sources as [|src sources IH]; intros acc; simpl.
  - split; [by left|]. intros [?|(? & ?%elem_of_nil & _)]; done.
  - rewrite IH. unfold set_add. split.
    + intros [Hacc|(s & Hs & ->)].
      * case_decide; [by left|].
        apply elem_of_app in Hacc as [?| ->%list_elem_of_singleton];
          [by left|]. right. exists src. split; [by left|done].
      * right. exists s. split; [by right|done].
    + intros [Hacc|(s & [->|Hs]%elem_of_cons & ->)].
      * left. case_decide; [done|]. apply elem_of_app. by left.
      * left. case_decide; [done|]. apply elem_of_app. right. by left.
      * right. by exists s.
Qed.

Lemma NoDup_add_sources sources acc :
  NoDup acc → NoDup (add_sources acc sources).
Proof.
  revert acc. induction sources as [|src sources IH]; intros acc Hacc; simpl;
    [done|].
  apply IH. unfold set_add. case_decide; [done|].
  apply NoDup_app. split; [done|]. split; [|apply NoDup_singleton].
  intros x Hx ->%list_elem_of_singleton. done.
Qed.

Section ConstructTemplateResult.
Variable net_dict : gmap string LayerDesc.
Variable parent_layers : gset string.
Variable get_out_data_from_opts :
  string → LayerDesc → list LayerRef → Result unit.

Abbreviation templates st := (cs_layer_data_templates st).
Abbreviation prevs st := (cs_prev_layers_needed st).
Abbreviation gtl :=
  (get_templated_layer net_dict parent_layers get_out_data_from_opts).
Abbreviation complete := (template_complete net_dict parent_layers).
Abbreviation resolved := (source_resolved parent_layers).
Abbreviation refers := (refers_to net_dict).
Abbreviation add_dep layer :=
  (λ t, mkTemplateLayer (tl_name t) (tl_initialized t)
                        (set_add layer (dependencies t))).
Abbreviation with_sources sources :=
  (λ t, mkTemplateLayer (tl_name t) (tl_initialized t)
                        (add_sources (dependencies t) sources)).
Abbreviation is_prev name := (String.prefix "prev:" name = true).

(** The stack holds registered templates only, and no template is
    registered under a "base:" name. *)
Abbreviation stack_ok st :=
  (∀ n, n ∈ cs_layers st → is_Some (templates st !! n)).
Abbreviation keys_ok st :=
  (∀ n, is_Some (templates st !! n) → String.prefix "base:" n = false).

(** The templates registered by a call or a sequence of calls. *)
Abbreviation is_new st st' n :=
  (is_Some (templates st' !! n) ∧ templates st !! n = None).

(** Where a name recorded as needed from the previous step comes from. *)
Abbreviation prev_of_new st st' p :=
  (∃ n desc source,
     is_new st st' n ∧ net_dict !! n = Some desc
     ∧ source ∈ layer_from desc ∧ is_prev source ∧ p = layer_target source).

Lemma add_dependency_Returned layer st u st' :
  add_dependency layer st = Returned u st' →
  ∃ top, last (cs_layers st) = Some top
    ∧ st' = mkConstructState (alter (add_dep layer) top (templates st))
                             (prevs st) (cs_layers st).
Proof.
  unfold add_dependency. destruct (last (cs_layers st)) as [top|]; [|done].
  intros [= _ <-]. by exists top.
Qed.

Lemma add_templated_layer_Returned name desc sources st u st' :
  add_templated_layer get_out_data_from_opts name desc sources st
  = Returned u st' →
  ∃ layer, templates st !! name = Some layer
    ∧ st' = mkConstructState
              (<[name := mkTemplateLayer (tl_name layer) true
                                         (dependencies layer)]> (templates st))
              (prevs st) (cs_layers st).
Proof.
  unfold add_templated_layer.
  destruct (templates st !! name) as [layer|]; [|done].
  destruct (get_out_data_from_opts name desc sources); [|done].
  intros [= _ <-]. by exists layer.
Qed.

Lemma with_sources_nil t : with_sources [] t = t.
Proof. by destruct t. Qed.

Lemma resolved_mono T T' (P P' : gset string) source :
  (∀ n, is_Some (T !! n) → is_Some (T' !! n)) → P ⊆ P' →
  resolved T P source → resolved T' P' source.
Proof.
  intros HT HP [Href Hprev]. split.
  - destruct (layer_ref source); [by apply HT | done].
  - intros Hp. apply HP. by apply Hprev.
Qed.

Lemma complete_mono T T' (P P' : gset string) n :
  (∀ m, is_Some (T !! m) → is_Some (T' !! m)) → P ⊆ P' →
  T' !! n = T !! n →
  complete T P n → complete T' P' n.
Proof.
  intros HT HP Hn (desc & layer & Hdesc & Hl & Hname & Hinit & Hdeps & Hres).
  exists desc, layer. rewrite Hn. do 5 (split; [done|]).
  eapply Forall_impl; [done|]. intros source. by apply resolved_mono.
Qed.

(** What a returning call of [get_templated_layer] has done. *)
Abbreviation call_post name st l st' :=
  (l = layer_ref name
   ∧ cs_layers st' = cs_layers st
   ∧ keys_ok st'
   ∧ (∀ n t, templates st !! n = Some t →
        templates st' !! n
        = Some (if decide (last (cs_layers st) = Some n)
                then add_dep l t else t))
   ∧ resolved (templates st') (prevs st') name
   ∧ prevs st ⊆ prevs st'
   ∧ (∀ p, p ∈ prevs st' →
        p ∈ prevs st ∨ (is_prev name ∧ p = layer_target name)
        ∨ prev_of_new st st' p)
   ∧ (∀ n, is_new st st' n →
        complete (templates st') (prevs st') n
        ∧ ∃ m, l = SubnetLayer m ∧ rtc refers m n)).

(** What a returning resolution of a list of references has done, while
    [top] is on top of the stack. *)
Abbreviation calls_post top sources st ls st' :=
  (ls = layer_ref <$> sources
   ∧ cs_layers st' = cs_layers st
   ∧ keys_ok st'
   ∧ (∀ n t, templates st !! n = Some t →
        templates st' !! n
        = Some (if decide (n = top) then with_sources sources t else t))
   ∧ Forall (resolved (templates st') (prevs st')) sources
   ∧ prevs st ⊆ prevs st'
   ∧ (∀ p, p ∈ prevs st' →
        p ∈ prevs st
        ∨ (∃ source, source ∈ sources ∧ is_prev source
                     ∧ p = layer_target source)
        ∨ prev_of_new st st' p)
   ∧ (∀ n, is_new st st' n →
        complete (templates st') (prevs st') n
        ∧ ∃ source m, source ∈ sources ∧ layer_ref source = SubnetLayer m
                      ∧ rtc refers m n)).

Lemma resolve_sources_post fuel :
  (∀ name st l st',
     stack_ok st → keys_ok st →
     gtl fuel name st = Returned l st' → call_post name st l st') →
  ∀ sources top st ls st',
    stack_ok st → keys_ok st →
    last (cs_layers st) = Some top →
    cmapM (gtl fuel) sources st = Returned ls st' →
    calls_post top sources st ls st'.
Proof.
  intros Hone sources top.
  induction sources as [|source sources IH]; intros st ls st' Hs Hk Htop Hrun.
  - injection Hrun as <- <-.
    split; [done|]. split; [done|]. split; [done|]. split.
    { intros n t Ht. rewrite Ht. f_equal. case_decide; [|done].
      by rewrite with_sources_nil. }
    split; [done|]. split; [done|]. split; [by left|].
    intros n [[t Ht] Hnone]. congruence.
  - cbn [cmapM] in Hrun.
    apply cbind_Returned in Hrun as (l & st1 & Hget & Hrun).
    apply cbind_Returned in Hrun as (ls' & st2 & Hrest & Hret).
    injection Hret as <- <-.
    destruct (Hone _ _ _ _ Hs Hk Hget)
      as (Hl & Hs1 & Hk1 & Hf1 & Hr1 & Hp1 & Hpc1 & Hnew1).
    assert (∀ n, is_Some (templates st !! n) → is_Some (templates st1 !! n))
      as Hdom1 by (intros n [t Ht]; rewrite (Hf1 _ _ Ht); by eexists).
    assert (stack_ok st1) as Hs1'.
    { intros n Hn. rewrite Hs1 in Hn. by apply Hdom1, Hs. }
    destruct (IH st1 ls' st2 Hs1' Hk1 ltac:(congruence) Hrest)
      as (Hls & Hs2 & Hk2 & Hf2 & Hr2 & Hp2 & Hpc2 & Hnew2).
    assert (∀ n, is_Some (templates st1 !! n) → is_Some (templates st2 !! n))
      as Hdom2 by (intros n [t Ht]; rewrite (Hf2 _ _ Ht); by eexists).
    assert (is_Some (templates st !! top)) as Htop_in.
    { apply Hs. apply last_Some in Htop as [l' ->].
      apply elem_of_app. right. by left. }
    split; [by rewrite Hl, Hls|]. split; [congruence|]. split; [done|].
    split.
    { intros n t Ht. rewrite (Hf2 _ _ (Hf1 _ _ Ht)). f_equal.
      rewrite Htop. destruct (decide (n = top)) as [->|Hne].
      - rewrite decide_True by done. by rewrite Hl.
      - rewrite decide_False by congruence. done. }
    split.
    { constructor; [|done]. eapply resolved_mono; [exact Hdom2|done..]. }
    split; [set_solver|]. split.
    { intros p Hp. destruct (Hpc2 p Hp) as [Hp'|[Hp'|Hp']].
      - destruct (Hpc1 p Hp') as [?|[[? ?]|Hp'']]; [by left| |].
        + right. left. exists source. split; [by left|done].
        + right. right. destruct Hp'' as (n & desc & src & [Hn1 Hn0] & ?).
          exists n, desc, src. split; [|done]. split; [by apply Hdom2|done].
      - right. left. destruct Hp' as (src & ? & ?). exists src.
        split; [by right|done].
      - right. right. destruct Hp' as (n & desc & src & [Hn2 Hn1] & ?).
        exists n, desc, src. split; [|done]. split; [done|].
        destruct (templates st !! n) as [t|] eqn:Ht; [|done].
        rewrite (Hf1 _ _ Ht) in Hn1. done. }
    intros n [Hn2 Hn0].
    destruct (templates st1 !! n) as [t1|] eqn:Hn1.
    + (* registered while the first reference was resolved *)
      destruct (Hnew1 n) as [Hc (m & Hm & Hreach)];
        [split; [by eexists|done]|].
      split.
      * eapply complete_mono; [exact Hdom2 | done | | done].
        rewrite (Hf2 _ _ Hn1). rewrite decide_False; [done|].
        intros ->. destruct Htop_in as [? ?]. congruence.
      * exists source, m. split; [by left|]. split; [congruence|done].
    + destruct (Hnew2 n) as [Hc (src & m & Hsrc & Hm & Hreach)]; [done|].
      split; [done|]. exists src, m. split; [by right|done].
Qed.

Lemma get_templated_layer_post fuel :
  ∀ name st l st',
    stack_ok st → keys_ok st →
    gtl fuel name st = Returned l st' → call_post name st l st'.
Proof.
  induction fuel as [|fuel IH]; intros name st l st' Hs Hk Hget; [done|].
  cbn [get_templated_layer] in Hget.
  set (name' := layer_target name).
  set (st0 := if String.prefix "prev:" name
              then mkConstructState (templates st)
                     ({[name']} ∪ prevs st) (cs_layers st)
              else st).
  assert ((if String.prefix "prev:" name
           then (strip_prefix "prev:" name,
                 mkConstructState (templates st)
                   ({[strip_prefix "prev:" name]} ∪ prevs st)
                   (cs_layers st))
           else (name, st)) = (name', st0)) as Hpair
    by (subst name' st0; unfold layer_target;
        by destruct (String.prefix "prev:" name)).
  rewrite Hpair in Hget. clear Hpair.
  assert (templates st0 = templates st ∧ cs_layers st0 = cs_layers st)
    as [HT0 Hs0] by (subst st0; by destruct (String.prefix "prev:" name)).
  assert (prevs st ⊆ prevs st0) as Hp0
    by (subst st0; destruct (String.prefix "prev:" name); set_solver).
  assert (is_prev name → name' ∈ prevs st0) as Hp0'
    by (subst st0; intros ->; set_solver).
  assert (∀ p, p ∈ prevs st0 →
            p ∈ prevs st ∨ (is_prev name ∧ p = name')) as Hpc0.
  { subst st0. destruct (String.prefix "prev:" name); [|by left].
    intros p [->%elem_of_singleton|?]%elem_of_union; [by right | by left]. }
  assert (layer_ref name
          = if String.prefix "base:" name'
            then BaseLayer (strip_prefix "base:" name')
            else SubnetLayer name') as Href by done.
  clearbody st0.
  destruct (decide (is_Some (templates st0 !! name'))) as [Hin|Hnotin].
  { (* registered already *)
    apply cbind_Returned in Hget as (u & st1 & Hadd & Hret).
    injection Hret as <- <-.
    apply add_dependency_Returned in Hadd as (top & Htop & ->).
    rewrite HT0 in Hin. rewrite Hs0 in Htop.
    assert (layer_ref name = SubnetLayer name') as Href'
      by (by rewrite Href, (Hk _ Hin)).
    cbn [cs_layer_data_templates cs_prev_layers_needed cs_layers].
    rewrite HT0, Hs0, Htop.
    split; [done|]. split; [done|]. split.
    { intros n Hn. apply Hk. by rewrite lookup_alter_is_Some in Hn. }
    split.
    { intros n t Ht. destruct (decide (top = n)) as [->|Hne].
      - rewrite decide_True by done. by rewrite lookup_alter_eq, Ht.
      - rewrite decide_False by congruence.
        by rewrite lookup_alter_ne. }
    split.
    { split; [|done]. rewrite Href'. by rewrite lookup_alter_is_Some. }
    split; [done|]. split.
    { intros p Hp. destruct (Hpc0 p Hp) as [?|?]; [by left|right; by left]. }
    intros n [Hn Hnone]. rewrite lookup_alter_is_Some in Hn.
    rewrite Hnone in Hn. by destruct Hn. }
  destruct (String.prefix "base:" name') eqn:Hbase.
  { (* a layer of the parent network *)
    case_decide as Hparent; [|done].
    apply cbind_Returned in Hget as (u & st1 & Hadd & Hret).
    injection Hret as <- <-.
    apply add_dependency_Returned in Hadd as (top & Htop & ->).
    rewrite Hs0 in Htop.
    cbn [cs_layer_data_templates cs_prev_layers_needed cs_layers].
    rewrite HT0, Hs0, Htop.
    split; [done|]. split; [done|]. split.
    { intros n Hn. apply Hk. by rewrite lookup_alter_is_Some in Hn. }
    split.
    { intros n t Ht. destruct (decide (top = n)) as [->|Hne].
      - rewrite decide_True by done. by rewrite lookup_alter_eq, Ht.
      - rewrite decide_False by congruence.
        by rewrite lookup_alter_ne. }
    split.
    { split; [|done]. by rewrite Href. }
    split; [done|]. split.
    { intros p Hp. destruct (Hpc0 p Hp) as [?|?]; [by left|right; by left]. }
    intros n [Hn Hnone]. rewrite lookup_alter_is_Some in Hn.
    rewrite Hnone in Hn. by destruct Hn. }
  (* a new template *)
  rewrite HT0 in Hnotin.
  assert (templates st !! name' = None) as Hfresh
    by (destruct (templates st !! name'); [exfalso; apply Hnotin; by eexists
                                          | done]).
  apply cbind_Returned in Hget as (u1 & st1 & H1 & Hget).
  apply cbind_Returned in Hget as (u2 & st2 & H2 & Hget).
  apply cbind_Returned in Hget as (u3 & st4 & H3 & Hget).
  apply cbind_Returned in Hget as (u4 & st5 & H4 & Hret).
  injection Hret as <- <-. injection H2 as _ <-.
  assert (cs_layers st1 = cs_layers st ∧ prevs st1 = prevs st0
          ∧ (∀ n t, templates st !! n = Some t →
               templates st1 !! n
               = Some (if decide (last (cs_layers st) = Some n)
                       then add_dep (SubnetLayer name') t else t))
          ∧ (∀ n, templates st !! n = None → templates st1 !! n = None))
    as (Hs1 & Hp1 & Hf1 & Hn1).
  { destruct (cs_layers st0) as [|x xs] eqn:Hstack.
    - injection H1 as _ <-. rewrite HT0, <-Hs0.
      split; [done|]. split; [done|]. split; [|done].
      intros n t Ht. rewrite Ht. by rewrite decide_False by done.
    - apply add_dependency_Returned in H1 as (top & Htop & ->).
      cbn [cs_layer_data_templates cs_prev_layers_needed cs_layers].
      rewrite Hstack in Htop. rewrite <-Hs0, Htop, HT0.
      split; [done|]. split; [done|]. split.
      + intros n t Ht. destruct (decide (top = n)) as [->|Hne].
        * rewrite decide_True by done. by rewrite lookup_alter_eq, Ht.
        * rewrite decide_False by congruence. by rewrite lookup_alter_ne.
      + intros n Hnone. destruct (decide (top = n)) as [->|Hne].
        * by rewrite lookup_alter_eq, Hnone.
        * by rewrite lookup_alter_ne. }
  clear H1.
  unfold _construct_layer in H3.
  destruct (net_dict !! name') as [desc|] eqn:Hdesc; [|done].
  apply cbind_Returned in H3 as (ls & st3 & Hsources & Hadd).
  set (st2 := mkConstructState
                (<[name' := mkTemplateLayer name' false []]> (templates st1))
                (prevs st1) (cs_layers st1 ++ [name'])) in *.
  assert (stack_ok st2) as Hs2.
  { intros n Hn. subst st2. cbn [cs_layer_data_templates cs_layers] in *.
    apply elem_of_app in Hn as [Hn|Hn].
    - rewrite Hs1 in Hn. destruct (Hs _ Hn) as [t Ht].
      rewrite lookup_insert_is_Some. right. split; [congruence|].
      rewrite (Hf1 _ _ Ht). by eexists.
    - apply list_elem_of_singleton in Hn as ->.
      rewrite lookup_insert_is_Some. by left. }
  assert (keys_ok st2) as Hk2.
  { intros n Hn. subst st2. cbn [cs_layer_data_templates] in Hn.
    apply lookup_insert_is_Some in Hn as [<-|[_ Hn]]; [done|].
    apply Hk. destruct (templates st !! n) as [t|] eqn:Ht; [by eexists|].
    rewrite (Hn1 _ Ht) in Hn. by destruct Hn. }
  destruct (resolve_sources_post fuel IH (layer_from desc) name' st2 ls st3
              Hs2 Hk2) as (Hls & Hs3 & Hk3 & Hf3 & Hr3 & Hp3 & Hpc3 & Hnew3);
    [subst st2; cbn [cs_layers]; by rewrite last_snoc | done |].
  apply add_templated_layer_Returned in Hadd as (layer & Hlayer & ->).
  assert (layer = mkTemplateLayer name' false
                    (add_sources [] (layer_from desc))) as ->.
  { assert (templates st2 !! name' = Some (mkTemplateLayer name' false []))
      as Ht2 by (subst st2; cbn [cs_layer_data_templates];
                 by rewrite lookup_insert_eq).
    rewrite (Hf3 _ _ Ht2), decide_True in Hlayer by done.
    by injection Hlayer as <-. }
  cbn [cs_layer_data_templates cs_prev_layers_needed cs_layers
       tl_name dependencies] in H4.
  rewrite Hs3 in H4. subst st2. cbn [cs_layers] in H4.
  rewrite last_snoc, decide_True in H4 by done.
  injection H4 as _ <-.
  cbn [cs_layer_data_templates cs_prev_layers_needed cs_layers] in *.
  rewrite removelast_last.
  set (T3 := templates st3) in *. set (P3 := prevs st3) in *.
  set (final := mkTemplateLayer name' true
                  (add_sources [] (layer_from desc))).
  assert (∀ n t, templates st !! n = Some t →
            <[name' := final]> T3 !! n
            = Some (if decide (last (cs_layers st) = Some n)
                    then add_dep (SubnetLayer name') t else t)) as Hframe.
  { intros n t Ht.
    assert (n ≠ name') as Hne by (intros ->; congruence).
    rewrite lookup_insert_ne by done.
    assert (<[name' := mkTemplateLayer name' false []]> (templates st1) !! n
            = Some (if decide (last (cs_layers st) = Some n)
                    then add_dep (SubnetLayer name') t else t)) as Ht2
      by (rewrite lookup_insert_ne by done; by apply Hf1).
    rewrite (Hf3 _ _ Ht2). by rewrite decide_False by done. }
  assert (∀ n, is_Some (T3 !! n) → is_Some (<[name' := final]> T3 !! n))
    as Hdom4.
  { intros n Hn. rewrite lookup_insert_is_Some.
    destruct (decide (name' = n)); [by left | by right]. }
  split; [by rewrite Href|]. split; [done|]. split.
  { intros n Hn. apply lookup_insert_is_Some in Hn as [<-|[_ Hn]]; [done|].
    by apply Hk3. }
  split; [done|]. split.
  { split.
    - rewrite Href. rewrite lookup_insert_is_Some. by left.
    - intros Hp. apply Hp3. rewrite Hp1. by apply Hp0'. }
  split; [etrans; [exact Hp0|]; by rewrite <-Hp1|]. split.
  { intros p Hp. destruct (Hpc3 p Hp) as [Hp'|[Hp'|Hp']].
    - rewrite Hp1 in Hp'.
      destruct (Hpc0 p Hp') as [?|?]; [by left | right; by left].
    - right. right. destruct Hp' as (src & Hsrc & Hprev & ->).
      exists name', desc, src. split; [|done]. split; [|done].
      rewrite lookup_insert_is_Some. by left.
    - right. right. destruct Hp' as (n & d & src & [Hn3 Hn2] & ?).
      exists n, d, src. split; [|done].
      apply lookup_insert_None in Hn2 as [Hn2 Hne].
      split; [by apply Hdom4|].
      destruct (templates st !! n) as [t|] eqn:Ht; [|done].
      rewrite (Hf1 _ _ Ht) in Hn2. done. }
  intros n [Hn Hnone].
  destruct (decide (n = name')) as [->|Hne].
  - split.
    + exists desc, final. split; [done|].
      split; [by rewrite lookup_insert_eq|]. do 3 (split; [done|]).
      eapply Forall_impl; [exact Hr3|]. intros src.
      by apply resolved_mono.
    + exists name'. done.
  - rewrite lookup_insert_ne in Hn by done.
    destruct (Hnew3 n) as [Hc (src & m & Hsrc & Hm & Hreach)].
    { split; [done|]. rewrite lookup_insert_ne by done. by apply Hn1. }
    split.
    + apply (complete_mono T3 (<[name' := final]> T3) P3 P3 n Hdom4);
        [done | by rewrite lookup_insert_ne | done].
    + exists name'. split; [done|].
      eapply rtc_l; [|done]. by exists desc, src.
Qed.


(** Everything reachable from a complete template through the declaration
    is registered. *)
Lemma complete_closed st root n :
  (∀ m, is_Some (templates st !! m) → complete (templates st) (prevs st) m) →
  is_Some (templates st !! root) →
  rtc refers root n → is_Some (templates st !! n).
Proof.
  intros Hall Hroot Hreach. revert Hroot.
  induction Hreach as [|a b c (desc & source & Hdesc & Hsrc & Href) _ IH];
    [done|].
  intros Ha. apply IH.
  destruct (Hall a Ha) as (desc' & layer & Hdesc' & _ & _ & _ & _ & Hres).
  rewrite Hdesc in Hdesc'. injection Hdesc' as <-.
  rewrite Forall_forall in Hres. destruct (Hres _ Hsrc) as [Hr _].
  by rewrite Href in Hr.
Qed.

(** The state after the "output" phase of the construction. *)
Lemma output_phase_Returned fuel l st :
  gtl fuel "output" (mkConstructState ∅ ∅ []) = Returned l st →
  cs_layers st = []
  ∧ keys_ok st
  ∧ is_Some (templates st !! "output")
  ∧ (∀ n, is_Some (templates st !! n) →
       complete (templates st) (prevs st) n ∧ rtc refers "output" n)
  ∧ (∀ p, p ∈ prevs st →
       ∃ n desc source,
         is_Some (templates st !! n) ∧ net_dict !! n = Some desc
         ∧ source ∈ layer_from desc ∧ is_prev source
         ∧ p = layer_target source).
Proof.
  intros Hget.
  destruct (get_templated_layer_post fuel "output"
              (mkConstructState ∅ ∅ []) l st)
    as (Hl & Hs & Hk & _ & [Hr _] & _ & Hpc & Hnew);
    [ intros n Hn; by apply elem_of_nil in Hn
    | intros n Hn; cbn in Hn; rewrite lookup_empty in Hn; by destruct Hn
    | exact Hget |].
  cbn [cs_layer_data_templates cs_prev_layers_needed cs_layers] in *.
  split; [done|]. split; [done|]. split; [exact Hr|]. split.
  - intros n Hn. destruct (Hnew n) as [Hc (m & Hm & Hreach)];
      [split; [done | apply lookup_empty]|].
    split; [done|]. rewrite Hl in Hm. by injection Hm as <-.
  - intros p Hp. destruct (Hpc p Hp) as [Hp'|[[Hp' _]|Hp']].
    + by apply elem_of_empty in Hp'.
    + discriminate Hp'.
    + destruct Hp' as (n & desc & src & [Hn _] & ?). by exists n, desc, src.
Qed.

(** The state the construction returns. *)
Lemma construct_template_Returned fuel u st :
  _construct_template net_dict parent_layers get_out_data_from_opts fuel
  = Returned u st →
  cs_layers st = []
  ∧ keys_ok st
  ∧ is_Some (templates st !! "output")
  ∧ (is_Some (net_dict !! "end") → is_Some (templates st !! "end"))
  ∧ (∀ n, is_Some (templates st !! n) →
       complete (templates st) (prevs st) n
       ∧ (rtc refers "output" n
          ∨ (is_Some (net_dict !! "end") ∧ rtc refers "end" n)))
  ∧ (∀ p, p ∈ prevs st →
       ∃ n desc source,
         is_Some (templates st !! n) ∧ net_dict !! n = Some desc
         ∧ source ∈ layer_from desc ∧ is_prev source
         ∧ p = layer_target source).
Proof.
  unfold _construct_template. intros H.
  apply cbind_Returned in H as (l1 & st1 & H1 & H).
  apply cbind_Returned in H as (u2 & st2 & H2 & H).
  apply cbind_Returned in H as (u3 & st3 & H3 & H).
  cbv beta in H2, H3.
  destruct (decide (is_Some (templates st1 !! "output"))) as [Hout|];
    [|done].
  injection H2 as _ <-.
  destruct (cs_layers st1) eqn:Hstack1; [|done]. injection H3 as _ <-.
  destruct (output_phase_Returned _ _ _ H1)
    as (_ & Hk1 & _ & Hall1 & Hpc1).
  destruct (decide (is_Some (net_dict !! "end"))) as [Hend|Hend].
  - apply cbind_Returned in H as (l2 & st2 & H2 & Hret).
    injection Hret as _ <-.
    destruct (get_templated_layer_post fuel "end" st1 l2 st2)
      as (Hl & Hs & Hk & Hf & [Hr _] & Hp & Hpc & Hnew);
      [ intros n Hn; rewrite Hstack1 in Hn; by apply elem_of_nil in Hn
      | done | exact H2 |].
    rewrite Hstack1 in Hf, Hs. cbn [last] in Hf.
    assert (∀ n, is_Some (templates st1 !! n) → is_Some (templates st2 !! n))
      as Hdom by (intros n [t Ht]; rewrite (Hf _ _ Ht); by eexists).
    split; [done|]. split; [done|]. split; [by apply Hdom|].
    split; [intros _; exact Hr|].
    split.
    + intros n Hn. destruct (templates st1 !! n) as [t|] eqn:Ht.
      * destruct (Hall1 n) as [Hc Hreach]; [by eexists|]. split; [|by left].
        eapply complete_mono; [exact Hdom | exact Hp | | exact Hc].
        rewrite (Hf _ _ Ht), Ht. by rewrite decide_False by done.
      * destruct (Hnew n) as [Hc (m & Hm & Hreach)]; [done|].
        split; [done|]. right. split; [done|].
        rewrite Hl in Hm. by injection Hm as <-.
    + intros p Hp'. destruct (Hpc p Hp') as [Hp''|[[Hp'' _]|Hp'']].
      * destruct (Hpc1 p Hp'') as (n & desc & src & Hn & ?).
        exists n, desc, src. split; [by apply Hdom|done].
      * discriminate Hp''.
      * destruct Hp'' as (n & desc & src & [Hn _] & ?).
        by exists n, desc, src.
  - injection H as _ <-. split; [done|]. split; [done|]. split; [done|].
    split; [done|]. split; [|done].
    intros n Hn. destruct (Hall1 n Hn). split; [done | by left].
Qed.

(** X6: the construction builds a template for exactly the layers that
    "output" (and "end", when it is declared) refers to, directly or through
    other layers, in the same or in the previous step; a declared layer that
    nothing refers to gets no template. *)
Theorem construct_template_builds_what_is_referred_to fuel st :
  _construct_template net_dict parent_layers get_out_data_from_opts fuel
  = Returned tt st →
  ∀ n, is_Some (templates st !! n)
       ↔ rtc refers "output" n
         ∨ (is_Some (net_dict !! "end") ∧ rtc refers "end" n).
Proof.
  intros Hret n.
  destruct (construct_template_Returned _ _ _ Hret)
    as (_ & _ & Hout & Hend & Hall & _).
  split; [intros Hn; by apply Hall|].
  assert (∀ m, is_Some (templates st !! m)
               → complete (templates st) (prevs st) m) as Hc
    by (intros m Hm; by apply Hall).
  intros [Hreach|[Hdecl Hreach]].
  - by eapply complete_closed.
  - eapply complete_closed; [done | by apply Hend | done].
Qed.

Lemma returned_template_spec fuel st n layer :
  _construct_template net_dict parent_layers get_out_data_from_opts fuel
  = Returned tt st →
  templates st !! n = Some layer →
  tl_name layer = n
  ∧ tl_initialized layer = true
  ∧ ∃ desc,
      net_dict !! n = Some desc
      ∧ dependencies layer = add_sources [] (layer_from desc)
      ∧ (∀ dep, dep ∈ dependencies layer
                ↔ ∃ source, source ∈ layer_from desc ∧ dep = layer_ref source)
      ∧ NoDup (dependencies layer)
      ∧ (∀ other, SubnetLayer other ∈ dependencies layer →
           is_Some (templates st !! other))
      ∧ (∀ other, BaseLayer other ∈ dependencies layer →
           other ∈ parent_layers).
Proof.
  intros Hret Hn.
  destruct (construct_template_Returned _ _ _ Hret)
    as (_ & _ & _ & _ & Hall & _).
  destruct (Hall n) as [(desc & layer' & Hdesc & Hl & Hname & Hinit & Hdeps
                         & Hres) _]; [by eexists|].
  rewrite Hn in Hl. injection Hl as <-.
  split; [done|]. split; [done|]. exists desc. split; [done|].
  split; [done|].
  assert (∀ dep, dep ∈ dependencies layer
                 ↔ ∃ source, source ∈ layer_from desc ∧ dep = layer_ref source)
    as Hdeps'.
  { intros dep. rewrite Hdeps, elem_of_add_sources. split; [|by right].
    intros [?%elem_of_nil|?]; done. }
  split; [done|].
  split; [rewrite Hdeps; apply NoDup_add_sources, NoDup_nil_2|].
  rewrite Forall_forall in Hres. split.
  - intros other (src & Hsrc & Href)%Hdeps'.
    destruct (Hres _ Hsrc) as [Hr _]. by rewrite <-Href in Hr.
  - intros other (src & Hsrc & Href)%Hdeps'.
    destruct (Hres _ Hsrc) as [Hr _]. by rewrite <-Href in Hr.
Qed.

(** X7: every template the construction returns is initialized, carries
    the name it is registered under, and its dependency set holds exactly
    the layers its declaration refers to ("prev:" dropped, "base:" resolved
    in the parent network); each of them exists. *)
Theorem construct_template_dependencies_are_the_references fuel st n layer :
  _construct_template net_dict parent_layers get_out_data_from_opts fuel
  = Returned tt st →
  templates st !! n = Some layer →
  tl_name layer = n
  ∧ tl_initialized layer = true
  ∧ ∃ desc,
      net_dict !! n = Some desc
      ∧ dependencies layer = add_sources [] (layer_from desc)
      ∧ (∀ dep, dep ∈ dependencies layer
                ↔ ∃ source, source ∈ layer_from desc ∧ dep = layer_ref source)
      ∧ NoDup (dependencies layer)
      ∧ (∀ other, SubnetLayer other ∈ dependencies layer →
           is_Some (templates st !! other))
      ∧ (∀ other, BaseLayer other ∈ dependencies layer →
           other ∈ parent_layers).
Proof. apply returned_template_spec. Qed.

(** X8: the names recorded as needed from the previous step are exactly the
    names the declarations of the templated layers refer to with "prev:";
    each of them has a template, or is a "base:" name of a layer of the
    parent network (for which no template exists). *)
Theorem construct_template_prev_layers_needed fuel st :
  _construct_template net_dict parent_layers get_out_data_from_opts fuel
  = Returned tt st →
  (∀ p, p ∈ prevs st
        ↔ ∃ n desc source,
            is_Some (templates st !! n) ∧ net_dict !! n = Some desc
            ∧ source ∈ layer_from desc ∧ is_prev source
            ∧ p = layer_target source)
  ∧ (∀ p, p ∈ prevs st →
       (String.prefix "base:" p = false ∧ is_Some (templates st !! p))
       ∨ (String.prefix "base:" p = true
          ∧ strip_prefix "base:" p ∈ parent_layers
          ∧ templates st !! p = None)).
Proof.
  intros Hret.
  destruct (construct_template_Returned _ _ _ Hret)
    as (_ & Hkeys & _ & _ & Hall & Hpc).
  assert (∀ n desc source,
            is_Some (templates st !! n) → net_dict !! n = Some desc →
            source ∈ layer_from desc →
            resolved (templates st) (prevs st) source) as Hres.
  { intros n desc source Hn Hdesc Hsrc.
    destruct (Hall n Hn) as [(desc' & _ & Hdesc' & _ & _ & _ & _ & Hres) _].
    rewrite Hdesc in Hdesc'. injection Hdesc' as <-.
    rewrite Forall_forall in Hres. by apply Hres. }
  split.
  - intros p. split; [apply Hpc|].
    intros (n & desc & source & Hn & Hdesc & Hsrc & Hprev & ->).
    destruct (Hres _ _ _ Hn Hdesc Hsrc) as [_ Hp]. by apply Hp.
  - intros p (n & desc & source & Hn & Hdesc & Hsrc & Hprev & ->)%Hpc.
    destruct (Hres _ _ _ Hn Hdesc Hsrc) as [Hr _].
    unfold layer_ref in Hr.
    destruct (String.prefix "base:" (layer_target source)) eqn:Hb.
    + right. split; [done|]. split; [done|].
      destruct (templates st !! layer_target source) eqn:Ht; [|done].
      rewrite Hkeys in Hb by (by eexists). done.
    + left. done.
Qed.

End ConstructTemplateResult.

Lemma tc_last_step {A} (R : relation A) x z :
  tc R x z → ∃ y, rtc R x y ∧ R y z.
Proof.
  induction 1 as [x z HR|x y z HR _ (y' & Hreach & Hlast)].
  - by exists x.
  - exists y'. split; [by eapply rtc_l|done].
Qed.

Lemma tc_first_step {A} (R : relation A) x z :
  tc R x z → ∃ y, R x y ∧ rtc R y z.
Proof.
  destruct 1 as [x z HR|x y z HR Htc].
  - by exists z.
  - exists y. split; [done|by apply tc_rtc].
Qed.

Section ConstructThenHoist.
Variable net_dict : gmap string LayerDesc.
Variable parent_layers : gset string.
Variable get_out_data_from_opts :
  string → LayerDesc → list LayerRef → Result unit.

Abbreviation refers := (refers_to net_dict).

(** X9: a layer on a reference cycle is not moved out of the loop.  When
    the analysis runs on the templates the construction has returned (no
    layer of the step network built yet), every templated layer whose
    declaration refers to itself, directly or through other layers, in the
    same or in the previous step (as a layer reading "prev:" of itself
    does), is left in the loop. *)
Theorem recurrent_layers_stay_in_loop fuel st name :
  _construct_template net_dict parent_layers get_out_data_from_opts fuel
  = Returned tt st →
  is_Some (cs_layer_data_templates st !! name) →
  tc refers name name →
  ∃ hoisted,
    move_outside_loop (cs_layer_data_templates st)
                      (cs_prev_layers_needed st) (λ _, None)
                      (S (size (cs_layer_data_templates st)))
    = Finished hoisted
    ∧ name ∈ layers_in_loop hoisted.
Proof.
  intros Hret Hname Hcycle.
  set (T := cs_layer_data_templates st).
  set (deps := get_dep_layers T (λ _, None)).
  destruct (construct_template_Returned _ _ _ _ _ _ Hret)
    as (_ & _ & _ & _ & Hall & _).
  assert (∀ m, is_Some (T !! m) →
            template_complete net_dict parent_layers T
                              (cs_prev_layers_needed st) m) as Hc
    by (intros m Hm; by apply Hall).
  assert (∀ a b, is_Some (T !! a) → refers a b → SubnetLayer b ∈ deps a)
    as Hdep.
  { intros a b [layer Ha] (desc & source & Hdesc & Hsrc & Href).
    subst deps. unfold get_dep_layers. fold T. rewrite Ha.
    destruct (Hc a) as (desc' & layer' & Hdesc' & Hl' & _ & _ & Hdeps & _);
      [by eexists|].
    rewrite Hdesc in Hdesc'. injection Hdesc' as <-.
    fold T in Hl'. rewrite Ha in Hl'. injection Hl' as <-.
    rewrite Hdeps. apply elem_of_add_sources. right. by exists source. }
  pose (on_cycle := λ m, rtc refers name m ∧ rtc refers m name).
  assert (∀ m, on_cycle m → is_Some (T !! m)) as Hreg.
  { intros m [Hreach _]. by eapply complete_closed. }
  assert (∀ m, on_cycle m → ∃ o, on_cycle o ∧ refers m o) as Hsucc.
  { intros m [Hnm Hmn]. apply rtc_inv in Hmn as [->|(o & Hmo & Hon)].
    - apply tc_first_step in Hcycle as (o & Hno & Hon).
      exists o. split; [|done]. split; [by apply rtc_once|done].
    - exists o. split; [|done]. split; [by eapply rtc_r|done]. }
  assert (∀ m, on_cycle m → ∃ o, on_cycle o ∧ refers o m) as Hpred.
  { intros m [Hnm Hmn]. apply rtc_inv_r in Hnm as [<-|(o & Hno & Hom)].
    - apply tc_last_step in Hcycle as (o & Hno & Hon).
      exists o. split; [|done]. split; [done|by apply rtc_once].
    - exists o. split; [|done]. split; [done|by eapply rtc_l]. }
  destruct (hoist_finishes T (cs_prev_layers_needed st) (λ _, None))
    as (hoisted & Hfin & _).
  exists hoisted. split; [done|].
  pose (P := λ hst, ∀ m, on_cycle m → m ∈ layers_in_loop hst).
  destruct (move_rounds_inv T (cs_prev_layers_needed st) (λ _, None) P P
              (S (size T))
              (mkHoistState (fst <$> sorted_items (map_to_list T))
                            [] [] ["output"]) hoisted) as (HP & _);
    try done.
  - intros s layer s' HPs Hfind Hmove m Hm.
    apply find_output_layer_spec in Hfind as (_ & _ & _ & Hdeps).
    unfold output_move_out in Hmove.
    apply bind_Some in Hmove as (needed & _ & Hmove).
    apply bind_Some in Hmove as (in_loop & Hrm & [= <-]). simpl.
    eapply list_remove_first_other; [done | by apply HPs |].
    intros ->. destruct (Hpred _ Hm) as (o & Ho & Hrefers).
    apply (Hdeps o (HPs _ Ho)). apply Hdep; [by apply Hreg|done].
  - intros s layer s' HPs Hfind Hmove m Hm.
    apply find_input_layer_spec in Hfind as (_ & Hdeps).
    unfold input_move_out in Hmove.
    apply bind_Some in Hmove as (needed & _ & Hmove).
    apply bind_Some in Hmove as (in_loop & Hrm & [= <-]). simpl.
    eapply list_remove_first_other; [done | by apply HPs |].
    intros ->. destruct (Hsucc _ Hm) as (o & Ho & Hrefers).
    apply (Hdeps o (HPs _ Ho)). apply Hdep; [by apply Hreg|done].
  - intros m Hm. apply init_state_in_loop. by apply Hreg.
  - apply HP. split; done.
Qed.

End ConstructThenHoist.

Section ConstructTemplateOutcome.
Variable net_dict : gmap string LayerDesc.
Variable parent_layers : gset string.
Variable get_out_data_from_opts :
  string → LayerDesc → list LayerRef → Result unit.

Abbreviation refers := (refers_to net_dict).
Abbreviation construct :=
  (_construct_template net_dict parent_layers get_out_data_from_opts).
Abbreviation gtl :=
  (get_templated_layer net_dict parent_layers get_out_data_from_opts).

(** A request for a registered template while no template is under
    construction raises: there is no stack top to record the dependency
    on. *)
Lemma registered_with_empty_stack_raises fuel name st :
  cs_layers st = [] →
  is_Some (cs_layer_data_templates st !! layer_target name) →
  gtl (S fuel) name st = Raises "IndexError: list index out of range".
Proof.
  intros Hstack Hreg. cbn [get_templated_layer].
  unfold layer_target in Hreg.
  destruct (String.prefix "prev:" name).
  - cbn [cs_layer_data_templates]. rewrite decide_True by done.
    unfold cbind, add_dependency.
    cbn [cs_layers]. by rewrite Hstack.
  - rewrite decide_True by done.
    unfold cbind, add_dependency. by rewrite Hstack.
Qed.

Hypothesis closed : closed_net_dict net_dict parent_layers.
Hypothesis out_data_ok :
  ∀ name desc sources, get_out_data_from_opts name desc sources = Ok tt.

(** The two ways the construction ends on a declaration that has an
    "output" layer and refers only to existing names. *)
Lemma construct_template_cases :
  (∃ st,
     construct (S (size net_dict)) = Returned tt st
     ∧ ¬ (is_Some (net_dict !! "end") ∧ rtc refers "output" "end"))
  ∨ (construct (S (size net_dict))
     = Raises "IndexError: list index out of range"
     ∧ is_Some (net_dict !! "end")
     ∧ rtc refers "output" "end").
Proof.
  destruct (get_templated_layer_ok net_dict parent_layers
              get_out_data_from_opts closed out_data_ok
              (S (size net_dict)) "output" (mkConstructState ∅ ∅ []))
    as (layer & st1 & Hget & (Hstack & _ & Hdeclared) & Hout).
  { unfold resolvable. simpl. apply closed. }
  { simpl. rewrite dom_empty_L. set_solver. }
  { right. done. }
  { unfold missing_templates. simpl.
    rewrite dom_empty_L, difference_empty_L, size_dom. lia. }
  simpl in Hstack.
  destruct (output_phase_Returned _ _ _ _ _ _ Hget)
    as (_ & Hk1 & _ & Hall1 & _).
  assert (construct (S (size net_dict))
          = if decide (is_Some (net_dict !! "end"))
            then cbind (gtl (S (size net_dict)) "end") (λ _, cret tt) st1
            else Returned tt st1) as Hrun.
  { unfold _construct_template.
    unfold cbind at 1. rewrite Hget.
    unfold cbind at 1. rewrite decide_True by (by apply Hout).
    unfold cbind at 1. rewrite Hstack.
    by destruct (decide (is_Some (net_dict !! "end"))). }
  rewrite Hrun. clear Hrun.
  destruct (decide (is_Some (net_dict !! "end"))) as [Hend|Hend].
  - destruct (decide (is_Some (cs_layer_data_templates st1 !! "end")))
      as [Hreg|Hnreg].
    + right. split; [|split; [done|by apply Hall1]].
      unfold cbind.
      by rewrite (registered_with_empty_stack_raises _ "end" st1 Hstack Hreg).
    + left.
      destruct (get_templated_layer_ok net_dict parent_layers
                  get_out_data_from_opts closed out_data_ok
                  (S (size net_dict)) "end" st1)
        as (l2 & st2 & Hget2 & (Hstack2 & _) & _).
      { exact Hend. }
      { done. }
      { right. split; [done|]. split; [done|].
        destruct (cs_layer_data_templates st1 !! "end") eqn:Ht; [|done].
        exfalso. apply Hnreg. by eexists. }
      { unfold missing_templates.
        assert (size ((dom net_dict : gset string)
                      ∖ dom (cs_layer_data_templates st1))
                ≤ size (dom net_dict : gset string)) as Hle
          by (apply subseteq_size; set_solver).
        rewrite size_dom in Hle. lia. }
      exists st2. unfold cbind. rewrite Hget2.
      split; [done|].
      intros [_ Hreach]. apply Hnreg.
      eapply complete_closed; [|by apply Hout|exact Hreach].
      intros m Hm. by apply Hall1.
  - left. exists st1. split; [done|]. by intros [? _].
Qed.

(** X5: what the construction does on a declaration that has an "output"
    layer and refers only to existing names, when no layer kind raises on
    computing its output template.  It never runs on forever.  It returns,
    with an empty stack, unless "end" is declared and "output" refers to it,
    directly or through other layers: then the template of "end" exists
    already when "end" is requested at the end, with no template under
    construction, and the construction raises IndexError. *)
Theorem construct_template_outcome :
  (∃ st,
     _construct_template net_dict parent_layers get_out_data_from_opts
                         (S (size net_dict))
     = Returned tt st
     ∧ cs_layers st = []
     ∧ ¬ (is_Some (net_dict !! "end") ∧ rtc refers "output" "end"))
  ∨ (_construct_template net_dict parent_layers get_out_data_from_opts
                         (S (size net_dict))
     = Raises "IndexError: list index out of range"
     ∧ is_Some (net_dict !! "end")
     ∧ rtc refers "output" "end").
Proof.
  destruct construct_template_cases as [(st & Hret & Hno)|Hraise];
    [left|by right].
  exists st. split; [done|]. split; [|done].
  by destruct (construct_template_Returned _ _ _ _ _ _ Hret) as (? & _).
Qed.

(** C8 (as the code has it): the construction has no check for cycles.  A
    name whose template is already registered, also one that is still under
    construction further down the stack, is answered with that template, and
    the dependency on it is recorded on the template on top of the stack.
    So on a declaration that has an "output" layer and refers only to
    existing names, when no layer kind raises on computing its output
    template and "end" is not declared or "output" does not refer to it
    (directly or through other layers), the construction completes, whether
    the same-step dependencies cycle or not: with an empty stack, with a
    template for every layer that "output" refers to, directly or through
    other layers, and with every reference of a templated declaration
    recorded among the dependencies of its template. *)
Theorem c8_construct_template_completes :
  net_dict !! "end" = None ∨ ¬ rtc refers "output" "end" →
  (∃ st,
     _construct_template net_dict parent_layers get_out_data_from_opts
                         (S (size net_dict)) = Returned tt st
     ∧ cs_layers st = []
     ∧ (dom (cs_layer_data_templates st) : gset string) ⊆ dom net_dict
     ∧ (∀ n, rtc refers "output" n →
          is_Some (cs_layer_data_templates st !! n))
     ∧ (∀ n desc source,
          is_Some (cs_layer_data_templates st !! n) →
          net_dict !! n = Some desc →
          source ∈ layer_from desc →
          ∃ layer,
            cs_layer_data_templates st !! n = Some layer
            ∧ layer_ref source ∈ dependencies layer))
  ∧ (∀ fuel name st top template,
       String.prefix "prev:" name = false →
       is_Some (cs_layer_data_templates st !! name) →
       last (cs_layers st) = Some top →
       cs_layer_data_templates st !! top = Some template →
       ∃ st' template',
         get_templated_layer net_dict parent_layers get_out_data_from_opts
                             (S fuel) name st
         = Returned (SubnetLayer name) st'
         ∧ cs_layers st' = cs_layers st
         ∧ (dom (cs_layer_data_templates st') : gset string)
           = dom (cs_layer_data_templates st)
         ∧ cs_layer_data_templates st' !! top = Some template'
         ∧ SubnetLayer name ∈ dependencies template'
         ∧ dependencies template ⊆ dependencies template').
Proof.
  intros Hend. split.
  - destruct construct_template_cases as [(st & Hret & _)|(_ & Hdecl & Hreach)];
      cycle 1.
    { destruct Hend as [Hnone|Hno]; [|done].
      rewrite Hnone in Hdecl. by destruct Hdecl. }
    destruct (construct_template_Returned _ _ _ _ _ _ Hret)
      as (Hstack & _ & Hout & _ & Hall & _).
    exists st. split; [done|]. split; [done|]. split; [|split].
    + intros n [layer Hn]%elem_of_dom.
      destruct (Hall n) as [(desc & _ & Hdesc & _) _]; [by eexists|].
      by eapply elem_of_dom_2.
    + intros n Hn. eapply complete_closed; [|exact Hout|exact Hn].
      intros m Hm. by apply Hall.
    + intros n desc source Hn Hdesc Hsource.
      destruct (Hall n Hn)
        as [(desc' & layer & Hdesc' & Hl & _ & _ & Hdeps & _) _].
      rewrite Hdesc in Hdesc'. injection Hdesc' as <-.
      exists layer. split; [done|].
      rewrite Hdeps. apply elem_of_add_sources. right. by exists source.
  - intros fuel name st top template Hp Hin Hlast Htop.
    cbn [get_templated_layer]. rewrite Hp.
    rewrite decide_True by done.
    unfold cbind, add_dependency. rewrite Hlast.
    eexists _, _. split; [done|]. cbn.
    split; [done|]. split; [apply dom_alter_L|].
    rewrite lookup_alter_eq, Htop. cbn.
    split; [done|]. unfold set_add.
    destruct (decide (SubnetLayer name ∈ dependencies template)); [done|].
    split; [apply elem_of_app; right; by left|].
    intros dep Hdep. apply elem_of_app. by left.
Qed.

End ConstructTemplateOutcome.

Lemma construct_template_outcome_witness :
  (∃ st,
     _construct_template end_feedback_net_dict {["encoder"]} (λ _ _ _, Ok tt)
                         (S (size end_feedback_net_dict)) = Returned tt st
     ∧ cs_layers st = []
     ∧ ¬ (is_Some (end_feedback_net_dict !! "end")
          ∧ rtc (refers_to end_feedback_net_dict) "output" "end"))
  ∨ (_construct_template end_feedback_net_dict {["encoder"]}
                         (λ _ _ _, Ok tt) (S (size end_feedback_net_dict))
     = Raises "IndexError: list index out of range"
     ∧ is_Some (end_feedback_net_dict !! "end")
     ∧ rtc (refers_to end_feedback_net_dict) "output" "end").
Proof.
  apply (construct_template_outcome end_feedback_net_dict {["encoder"]}
           (λ _ _ _, Ok tt)).
  - refine (bool_decide_unpack _ _). vm_compute. exact I.
  - reflexivity.
Defined.

Lemma construct_template_builds_what_is_referred_to_witness :
  ∃ st,
    _construct_template recurrent_net_dict {["encoder"]} (λ _ _ _, Ok tt) 5
    = Returned tt st
    ∧ ∀ n, is_Some (cs_layer_data_templates st !! n)
           ↔ rtc (refers_to recurrent_net_dict) "output" n
             ∨ (is_Some (recurrent_net_dict !! "end")
                ∧ rtc (refers_to recurrent_net_dict) "end" n).
Proof.
  eexists. split; [vm_compute; reflexivity|].
  apply (construct_template_builds_what_is_referred_to
           recurrent_net_dict {["encoder"]} (λ _ _ _, Ok tt) 5).
  vm_compute. reflexivity.
Defined.

Lemma construct_template_dependencies_are_the_references_witness :
  ∃ st layer,
    _construct_template recurrent_net_dict {["encoder"]} (λ _ _ _, Ok tt) 5
    = Returned tt st
    ∧ cs_layer_data_templates st !! "s" = Some layer
    ∧ tl_name layer = "s"
    ∧ tl_initialized layer = true
    ∧ ∃ desc,
        recurrent_net_dict !! "s" = Some desc
        ∧ dependencies layer = add_sources [] (layer_from desc)
        ∧ (∀ dep, dep ∈ dependencies layer
                  ↔ ∃ source, source ∈ layer_from desc
                              ∧ dep = layer_ref source)
        ∧ NoDup (dependencies layer)
        ∧ (∀ other, SubnetLayer other ∈ dependencies layer →
             is_Some (cs_layer_data_templates st !! other))
        ∧ (∀ other, BaseLayer other ∈ dependencies layer →
             other ∈ ({["encoder"]} : gset string)).
Proof.
  eexists _, _. split; [vm_compute; reflexivity|].
  split; [vm_compute; reflexivity|].
  apply (construct_template_dependencies_are_the_references
           recurrent_net_dict {["encoder"]} (λ _ _ _, Ok tt) 5).
  - vm_compute. reflexivity.
  - vm_compute. reflexivity.
Defined.

Lemma construct_template_prev_layers_needed_witness :
  ∃ st,
    _construct_template recurrent_net_dict {["encoder"]} (λ _ _ _, Ok tt) 5
    = Returned tt st
    ∧ (∀ p, p ∈ cs_prev_layers_needed st
            ↔ ∃ n desc source,
                is_Some (cs_layer_data_templates st !! n)
                ∧ recurrent_net_dict !! n = Some desc
                ∧ source ∈ layer_from desc
                ∧ String.prefix "prev:" source = true
                ∧ p = layer_target source)
    ∧ (∀ p, p ∈ cs_prev_layers_needed st →
         (String.prefix "base:" p = false
          ∧ is_Some (cs_layer_data_templates st !! p))
         ∨ (String.prefix "base:" p = true
            ∧ strip_prefix "base:" p ∈ ({["encoder"]} : gset string)
            ∧ cs_layer_data_templates st !! p = None)).
Proof.
  eexists. split; [vm_compute; reflexivity|].
  apply (construct_template_prev_layers_needed
           recurrent_net_dict {["encoder"]} (λ _ _ _, Ok tt) 5).
  vm_compute. reflexivity.
Defined.

Lemma recurrent_layers_stay_in_loop_witness :
  ∃ st,
    _construct_template recurrent_net_dict {["encoder"]} (λ _ _ _, Ok tt) 5
    = Returned tt st
    ∧ ∃ hoisted,
        move_outside_loop (cs_layer_data_templates st)
                          (cs_prev_layers_needed st) (λ _, None)
                          (S (size (cs_layer_data_templates st)))
        = Finished hoisted
        ∧ "s" ∈ layers_in_loop hoisted.
Proof.
  eexists. split; [vm_compute; reflexivity|].
  apply (recurrent_layers_stay_in_loop
           recurrent_net_dict {["encoder"]} (λ _ _ _, Ok tt) 5 _ "s").
  - vm_compute. reflexivity.
  - eexists. vm_compute. reflexivity.
  - apply tc_once.
    exists (mkLayerDesc "rnn_cell" ["prev:s"; "prev:output"]), "prev:s".
    split; [reflexivity|]. split; [by left | reflexivity].
Defined.

Lemma c8_construct_template_witness :
  (∃ st,
     _construct_template cyclic_net_dict ∅ (λ _ _ _, Ok tt)
                         (S (size cyclic_net_dict)) = Returned tt st
     ∧ cs_layers st = []
     ∧ (dom (cs_layer_data_templates st) : gset string) ⊆ dom cyclic_net_dict
     ∧ (∀ n, rtc (refers_to cyclic_net_dict) "output" n →
          is_Some (cs_layer_data_templates st !! n))
     ∧ (∀ n desc source,
          is_Some (cs_layer_data_templates st !! n) →
          cyclic_net_dict !! n = Some desc →
          source ∈ layer_from desc →
          ∃ layer,
            cs_layer_data_templates st !! n = Some layer
            ∧ layer_ref source ∈ dependencies layer))
  ∧ (∀ fuel name st top template,
       String.prefix "prev:" name = false →
       is_Some (cs_layer_data_templates st !! name) →
       last (cs_layers st) = Some top →
       cs_layer_data_templates st !! top = Some template →
       ∃ st' template',
         get_templated_layer cyclic_net_dict ∅ (λ _ _ _, Ok tt)
                             (S fuel) name st
         = Returned (SubnetLayer name) st'
         ∧ cs_layers st' = cs_layers st
         ∧ (dom (cs_layer_data_templates st') : gset string)
           = dom (cs_layer_data_templates st)
         ∧ cs_layer_data_templates st' !! top = Some template'
         ∧ SubnetLayer name ∈ dependencies template'
         ∧ dependencies template ⊆ dependencies template').
Proof.
  apply (c8_construct_template_completes cyclic_net_dict ∅ (λ _ _ _, Ok tt)).
  - refine (bool_decide_unpack _ _). vm_compute. exact I.
  - reflexivity.
  - left. reflexivity.
Defined.

(** C8, the claim as stated, fails: on a declaration in which "output" is
    computed from "a" and "a" from "output", the construction completes; the
    two templates depend on each other. *)
Lemma c8_cyclic_declaration_is_constructed :
  ∃ st,
    _construct_template cyclic_net_dict ∅ (λ _ _ _, Ok tt) 3 = Returned tt st
    ∧ cs_layer_data_templates st !! "output"
      = Some (mkTemplateLayer "output" true [SubnetLayer "a"])
    ∧ cs_layer_data_templates st !! "a"
      = Some (mkTemplateLayer "a" true [SubnetLayer "output"])
    ∧ cs_layers st = [].
Proof.
  eexists. split; [vm_compute; reflexivity|].
  split; [vm_compute; reflexivity|].
  split; [vm_compute; reflexivity|].
  reflexivity.
Qed.

(** * The step loop on a batch with a dynamic end signal *)

Lemma reduce_max_ge (l : list nat) x : x ∈ l → x ≤ reduce_max l.
Proof.
  induction l as [|y l IH]; [by intros ?%elem_of_nil|].
  intros [->|Hx]%elem_of_cons; simpl; [lia|].
  specialize (IH Hx). lia.
Qed.

Lemma reduce_max_elem_of (l : list nat) : l ≠ [] → reduce_max l ∈ l.
Proof.
  induction l as [|y l IH]; [done|]. intros _. simpl.
  destruct l as [|z l]; [simpl; rewrite Nat.max_0_r; by left|].
  specialize (IH ltac:(done)).
  destruct (Nat.max_spec y (reduce_max (z :: l))) as [[_ ->]|[_ ->]];
    [by right | by left].
Qed.

Lemma reduce_max_fmap_min (l : list nat) n :
  reduce_max ((λ t, t `min` n) <$> l) = reduce_max l `min` n.
Proof.
  unfold reduce_max. induction l as [|y l IH]; [done|].
  rewrite fmap_cons. cbn [foldr]. rewrite IH. lia.
Qed.

Section DynamicBatch.
Context {NetVars Net Val : Type}.
Variable cell : Cell NetVars Net.
Variable cfg : LoopSetup Net Val.
Variable init_net_vars : NetVars.
(** For every example, the step at which its end signal first fires. *)
Variable fires : list nat.

Hypothesis dynamic : seq_len cfg = None.
Hypothesis filter_ok : filter_shape_ok cfg.
Hypothesis end_ok : end_shape_ok cell cfg.
Hypothesis fires_length : length fires = out_batch_dim cfg.
Hypothesis fires_first :
  ∀ b t0, fires !! b = Some t0 →
    end_at cell init_net_vars t0 !! b = Some true
    ∧ ∀ s, s < t0 → end_at cell init_net_vars s !! b = Some false.

Abbreviation info_at := (seq_len_info_at cell cfg init_net_vars).
Abbreviation vars_at := (loop_vars_at cell cfg init_net_vars).

(** The flag and the length counter of an example after [t] steps. *)
Lemma info_at_fires t b t0 end_flag dyn_seq_len :
  fires !! b = Some t0 →
  info_at t = Some (end_flag, dyn_seq_len) →
  end_flag !! b = Some (bool_decide (t0 < t))
  ∧ dyn_seq_len !! b = Some (t0 `min` t).
Proof.
  intros Hb Hinfo. destruct (fires_first _ _ Hb) as [Hfire Hquiet].
  assert (b < out_batch_dim cfg) as Hlt
    by (rewrite <-fires_length; by eapply lookup_lt_Some).
  destruct (decide (t0 < t)) as [Hlate|Hearly].
  - rewrite bool_decide_true by done.
    destruct (info_at_after_fire cell cfg init_net_vars b t0 t
                end_flag dyn_seq_len) as [-> ->]; try done.
    split; [done|]. f_equal. lia.
  - rewrite bool_decide_false by done.
    destruct (info_at_before_fire cell cfg init_net_vars b t
                end_flag dyn_seq_len) as [-> ->]; try done.
    + intros s Hs. apply Hquiet. lia.
    + split; [done|]. f_equal. lia.
Qed.

Lemma cond_fires t :
  0 < out_batch_dim cfg →
  cond cfg (vars_at t) = true
  ↔ t < max_seq_len cfg `min` S (reduce_max fires).
Proof.
  intros Hbatch.
  destruct (seq_len_info_at_dynamic cell cfg init_net_vars t dynamic end_ok)
    as (ef & dl & Hinfo & Hef & Hdl).
  rewrite cond_spec. cbn [loop_vars_at lv_i lv_seq_len_info].
  rewrite Hinfo. split.
  - intros [Ht [?|(ef' & dl' & b & [= <- <-] & Hb)]]; [done|].
    assert (is_Some (fires !! b)) as [t0 Ht0].
    { apply lookup_lt_is_Some. rewrite fires_length, <-Hef.
      by eapply lookup_lt_Some. }
    destruct (info_at_fires t b t0 ef dl Ht0 Hinfo) as [Hflag _].
    rewrite Hflag in Hb. injection Hb as Hb.
    apply bool_decide_eq_false in Hb.
    pose proof (reduce_max_ge fires t0
                  ltac:(by eapply list_elem_of_lookup_2)). lia.
  - intros Ht. split; [lia|]. right.
    assert (fires ≠ []) as Hne
      by (intros Hnil; rewrite Hnil in fires_length; simpl in *; lia).
    apply reduce_max_elem_of, list_elem_of_lookup in Hne as [b Hb].
    destruct (info_at_fires t b _ ef dl Hb Hinfo) as [Hflag _].
    exists ef, dl, b. split; [done|]. rewrite Hflag. f_equal.
    apply bool_decide_eq_false. lia.
Qed.

(** X10: a batch with a dynamic end signal.  When every example's end
    signal first fires at the step given by [fires], the loop runs one step
    beyond the last firing, capped at the maximum length; the recorded
    length of an example is its firing step, capped likewise.  When no
    search choices are collected, the array stacked at the end is the
    accumulator of "output", and the value that lines 934-938 compute from
    it holds the frames of the steps before the last firing (capped): the
    frame of the last firing step is accumulated and cut off. *)
Theorem dynamic_batch_runs_past_last_end (fuel : nat) (out : Net → Val) :
  0 < out_batch_dim cfg →
  0 < max_seq_len cfg →
  outputs_to_accumulate cfg !! 0 = Some out →
  max_seq_len cfg < fuel →
  ∃ final,
    final_loop_vars cell cfg fuel init_net_vars = Finished final
    ∧ length (body_calls (cond cfg) (body cell cfg) fuel
                         (init_loop_vars cfg init_net_vars))
      = max_seq_len cfg `min` S (reduce_max fires)
    ∧ final_seq_len cfg final
      = Some ((λ t0, t0 `min` max_seq_len cfg) <$> fires)
    ∧ (collected_choices cfg = [] →
       ∀ search_resolved,
         rec_layer_output cfg final search_resolved
         = Some ((λ t, out (filtered_net_at cell cfg init_net_vars t))
                 <$> seq 0 (max_seq_len cfg `min` reduce_max fires))).
Proof.
  intros Hbatch Hmax Hout Hfuel.
  destruct (run_from cell cfg init_net_vars 0 filter_ok)
    as (n & Hn & Hrun & Hstop & Hloop); [done | lia |].
  destruct (Hloop fuel ltac:(lia)) as [Hfin Hcalls].
  rewrite loop_vars_at_0 in Hfin, Hcalls. rewrite Nat.sub_0_r in Hcalls.
  assert (n = max_seq_len cfg `min` S (reduce_max fires)) as Hn'.
  { destruct (decide (n < max_seq_len cfg `min` S (reduce_max fires)))
      as [Hlt|Hge].
    - apply cond_fires in Hlt; [congruence|done].
    - destruct (decide (n = 0)) as [->|Hpos]; [lia|].
      pose proof (Hrun (n - 1) ltac:(lia)) as Hlast.
      apply cond_fires in Hlast; [lia|done]. }
  destruct (seq_len_info_at_dynamic cell cfg init_net_vars n dynamic end_ok)
    as (ef & dl & Hinfo & Hef & Hdl).
  assert (dl = (λ t0, t0 `min` max_seq_len cfg) <$> fires) as Hdl'.
  { apply list_eq_same_length with (out_batch_dim cfg);
      [by rewrite length_fmap | done |].
    intros b x y Hb Hx Hy.
    rewrite list_lookup_fmap in Hy.
    destruct (fires !! b) as [t0|] eqn:Ht0; [|done]. injection Hy as <-.
    destruct (info_at_fires n b t0 ef dl Ht0 Hinfo) as [_ Hlen].
    rewrite Hx in Hlen. injection Hlen as ->.
    pose proof (reduce_max_ge fires t0
                  ltac:(by eapply list_elem_of_lookup_2)). lia. }
  exists (vars_at n). split; [done|].
  split; [by rewrite Hcalls, length_fmap, length_seq|].
  assert (final_seq_len cfg (vars_at n)
          = Some ((λ t0, t0 `min` max_seq_len cfg) <$> fires)) as Hlen
    by (unfold final_seq_len; simpl; by rewrite Hinfo, Hdl').
  split; [done|].
  intros Hnosearch search_resolved.
  unfold rec_layer_output. rewrite Hnosearch, Hlen.
  cbn [loop_vars_at lv_acc_tas].
  assert (is_Some (acc_tas_at cell cfg init_net_vars n !! 0)) as [ta Hta].
  { apply lookup_lt_is_Some. unfold acc_tas_at. rewrite length_fmap.
    by eapply lookup_lt_Some. }
  rewrite Hta. cbn [mbind option_bind].
  destruct (acc_tas_at_stack cell cfg init_net_vars n 0 ta out)
    as [Hsize Hstack]; [|done..|].
  { unfold min_loop_len, have_known_seq_len. rewrite dynamic. lia. }
  rewrite decide_False by lia.
  rewrite Hstack. cbn [mbind option_bind].
  unfold have_known_seq_len. rewrite dynamic. cbn [mbind option_bind].
  f_equal. rewrite reduce_max_fmap_min, <-fmap_take, take_seq.
  do 2 f_equal. lia.
Qed.

End DynamicBatch.

Lemma dynamic_batch_runs_past_last_end_witness :
  ∃ final,
    final_loop_vars (counting_cell [1; 3]) (dynamic_setup 10 2) 11 0
    = Finished final
    ∧ length (body_calls (cond (dynamic_setup 10 2))
                         (body (counting_cell [1; 3]) (dynamic_setup 10 2))
                         11 (init_loop_vars (dynamic_setup 10 2) 0))
      = 10 `min` S (reduce_max [1; 3])
    ∧ final_seq_len (dynamic_setup 10 2) final
      = Some ((λ t0, t0 `min` 10) <$> [1; 3])
    ∧ (collected_choices (dynamic_setup 10 2) = [] →
       ∀ search_resolved,
         rec_layer_output (dynamic_setup 10 2) final search_resolved
         = Some ((λ t, 10 * filtered_net_at (counting_cell [1; 3])
                                            (dynamic_setup 10 2) 0 t)
                 <$> seq 0 (10 `min` reduce_max [1; 3]))).
Proof.
  apply (dynamic_batch_runs_past_last_end
           (counting_cell [1; 3]) (dynamic_setup 10 2) 0 [1; 3]).
  - reflexivity.
  - left. reflexivity.
  - intros net_vars i. reflexivity.
  - reflexivity.
  - intros b t0 Hb. split.
    + destruct b as [|[|b]]; simpl in Hb; [| |done];
        injection Hb as <-; reflexivity.
    + intros s Hs.
      destruct b as [|[|b]]; simpl in Hb; [| |done]; injection Hb as <-;
        unfold end_at, net_at; simpl; f_equal;
        apply bool_decide_eq_false; lia.
  - simpl. lia.
  - simpl. lia.
  - reflexivity.
  - simpl. lia.
Defined.

(** * Cell classes and the cuDNN parameter size *)

(** X11: when [_get_cudnn_param_size] raises.  An unknown direction is a
    KeyError, whatever the other arguments; with a known direction, an input
    mode other than the three known ones is an error; otherwise a size is
    returned.  "auto_select" is "skip_input" when the input has the size of
    the units and "linear_input" otherwise. *)
Theorem cudnn_param_size_outcome
    (num_units input_size num_layers : Z)
    (rnn_mode input_mode direction : string) :
  (direction ∉ ["unidirectional"; "bidirectional"] →
   _get_cudnn_param_size num_units input_size num_layers
                         rnn_mode input_mode direction
   = Raised "KeyError")
  ∧ (direction ∈ ["unidirectional"; "bidirectional"] →
     (input_mode ∉ ["linear_input"; "skip_input"; "auto_select"] →
      _get_cudnn_param_size num_units input_size num_layers
                            rnn_mode input_mode direction
      = Raised "invalid input_mode")
     ∧ (input_mode ∈ ["linear_input"; "skip_input"; "auto_select"] →
        ∃ size,
          _get_cudnn_param_size num_units input_size num_layers
                                rnn_mode input_mode direction
          = Ok size))
  ∧ _get_cudnn_param_size num_units input_size num_layers
                          rnn_mode "auto_select" direction
    = _get_cudnn_param_size num_units input_size num_layers rnn_mode
                            (if decide (num_units = input_size)
                             then "skip_input" else "linear_input")
                            direction.
Proof.
  unfold _get_cudnn_param_size. split; [|split].
  - intros Hdir.
    rewrite !decide_False by (intros ->; apply Hdir; set_solver). done.
  - intros Hdir.
    assert (∃ dir_count,
              (if decide (direction = "unidirectional") then Ok 1%Z
               else if decide (direction = "bidirectional") then Ok 2%Z
               else Raised "KeyError") = Ok dir_count) as [dir_count ->].
    { repeat case_decide; eauto. exfalso. set_solver. }
    cbn [result_bind]. split.
    + intros Hmode.
      rewrite !(bool_decide_false (input_mode = _))
        by (intros ->; apply Hmode; set_solver). done.
    + intros Hmode.
      repeat case_bool_decide; cbn [orb andb result_bind]; eauto;
        exfalso; set_solver.
  - destruct (decide (direction = "unidirectional"));
      [|destruct (decide (direction = "bidirectional")); [|done]];
      cbn [result_bind];
      (destruct (decide (num_units = input_size));
       repeat case_bool_decide; cbn [orb andb result_bind];
       done || congruence).
Qed.

(** X12: the gates only scale the size.  An LSTM has four times and a GRU
    three times the parameters of a plain RNN of the same shape; every
    [rnn_mode] other than "lstm" and "gru" is taken for a plain RNN. *)
Theorem cudnn_param_size_scales_with_gates
    (num_units input_size num_layers : Z)
    (rnn_mode input_mode direction : string) (plain : Z) :
  _get_cudnn_param_size num_units input_size num_layers
                        "rnn_tanh" input_mode direction = Ok plain →
  _get_cudnn_param_size num_units input_size num_layers
                        "lstm" input_mode direction = Ok (4 * plain)%Z
  ∧ _get_cudnn_param_size num_units input_size num_layers
                          "gru" input_mode direction = Ok (3 * plain)%Z
  ∧ (rnn_mode ∉ ["lstm"; "gru"] →
     _get_cudnn_param_size num_units input_size num_layers
                           rnn_mode input_mode direction = Ok plain).
Proof.
  unfold _get_cudnn_param_size.
  destruct (if decide (direction = "unidirectional") then Ok 1%Z
            else if decide (direction = "bidirectional") then Ok 2%Z
            else Raised "KeyError") as [dir_count|]; [|done].
  cbn [result_bind].
  rewrite (decide_False (P := "rnn_tanh" = "lstm")) by done.
  rewrite (decide_False (P := "rnn_tanh" = "gru")) by done.
  rewrite (decide_True (P := "lstm" = "lstm")) by done.
  rewrite (decide_False (P := "gru" = "lstm")) by done.
  rewrite (decide_True (P := "gru" = "gru")) by done.
  destruct (bool_decide (input_mode = "linear_input")
            || bool_decide (input_mode = "auto_select")
               && bool_decide (num_units ≠ input_size)).
  - cbn [result_bind]. intros [= <-].
    split; [f_equal; lia|]. split; [f_equal; lia|].
    intros Hmode.
    rewrite !decide_False by (intros ->; apply Hmode; set_solver). done.
  - destruct (bool_decide (input_mode = "skip_input")
              || bool_decide (input_mode = "auto_select")
                 && bool_decide (num_units = input_size)); [|done].
    cbn [result_bind]. intros [= <-].
    split; [f_equal; lia|]. split; [f_equal; lia|].
    intros Hmode.
    rewrite !decide_False by (intros ->; apply Hmode; set_solver). done.
Qed.

Lemma cudnn_param_size_scales_with_gates_witness :
  _get_cudnn_param_size 5 3 2 "lstm" "linear_input" "bidirectional"
  = Ok (4 * 270)%Z
  ∧ _get_cudnn_param_size 5 3 2 "gru" "linear_input" "bidirectional"
    = Ok (3 * 270)%Z
  ∧ ("LSTM" ∉ ["lstm"; "gru"] →
     _get_cudnn_param_size 5 3 2 "LSTM" "linear_input" "bidirectional"
     = Ok 270%Z).
Proof.
  apply (cudnn_param_size_scales_with_gates
           5 3 2 "LSTM" "linear_input" "bidirectional" 270).
  reflexivity.
Defined.

(** X13: layers of the same shape have the same size.  With linear input
    of the size the first layer would feed to a second one (the units, of
    both directions), the size for [num_layers] layers is [num_layers]
    times the size for one layer. *)
Theorem cudnn_param_size_of_equal_layers
    (num_units num_layers : Z) (rnn_mode direction : string) (one : Z) :
  _get_cudnn_param_size
    num_units
    (num_units * (if decide (direction = "bidirectional") then 2 else 1))
    1 rnn_mode "linear_input" direction = Ok one →
  _get_cudnn_param_size
    num_units
    (num_units * (if decide (direction = "bidirectional") then 2 else 1))
    num_layers rnn_mode "linear_input" direction = Ok (num_layers * one)%Z.
Proof.
  unfold _get_cudnn_param_size.
  destruct (decide (direction = "unidirectional")) as [->|Huni].
  - rewrite (decide_False (P := "unidirectional" = "bidirectional")) by done.
    rewrite bool_decide_true by done.
    cbn [orb result_bind]. intros [= <-]. f_equal. ring.
  - destruct (decide (direction = "bidirectional")) as [->|Hbi]; [|done].
    rewrite bool_decide_true by done.
    cbn [orb result_bind]. intros [= <-]. f_equal. ring.
Qed.

Lemma cudnn_param_size_of_equal_layers_witness :
  _get_cudnn_param_size
    5 (5 * (if decide ("bidirectional" = "bidirectional") then 2 else 1))
    3 "lstm" "linear_input" "bidirectional" = Ok (3 * 680)%Z.
Proof.
  apply (cudnn_param_size_of_equal_layers 5 3 "lstm" "bidirectional" 680).
  reflexivity.
Defined.

(** ** The registry of cell classes *)

Lemma ascii_lower_idemp (c : Stdlib.Strings.Ascii.ascii) :
  ascii_lower (ascii_lower c) = ascii_lower c.
Proof. destruct c as [[] [] [] [] [] [] [] []]; reflexivity. Qed.

Lemma str_lower_idemp (s : string) : str_lower (str_lower s) = str_lower s.
Proof.
  induction s as [|c s IH]; [done|]. simpl. by rewrite ascii_lower_idemp, IH.
Qed.

Section RnnCellsFacts.
Context {Class : Type} `{EqDecision Class}.
Variable is_gpu_available : bool.
Variable is_cell_class is_cudnn_class is_rec_seq_class : Class → bool.
Variable rnn_contrib TFNativeOp cudnn_rnn : list (string * Class).
Variable LSTMCell : Class.

Abbreviation allowed :=
  (allowed_types is_gpu_available is_cell_class is_cudnn_class).
Abbreviation add := (maybe_add is_gpu_available is_cell_class is_cudnn_class).
Abbreviation add_all :=
  (maybe_add_all is_gpu_available is_cell_class is_cudnn_class).
Abbreviation entries :=
  (rnn_cell_entries is_gpu_available rnn_contrib TFNativeOp cudnn_rnn
                    LSTMCell).
Abbreviation create :=
  (_create_rnn_cells_dict is_gpu_available is_cell_class is_cudnn_class
                          rnn_contrib TFNativeOp cudnn_rnn LSTMCell).
Abbreviation get_class :=
  (get_rnn_cell_class is_gpu_available is_cell_class is_cudnn_class
                      rnn_contrib TFNativeOp cudnn_rnn LSTMCell).
Abbreviation get_cell :=
  (_get_cell is_gpu_available is_cell_class is_cudnn_class is_rec_seq_class
             rnn_contrib TFNativeOp cudnn_rnn LSTMCell).

Lemma maybe_add_Ok key v d d' :
  add key v d = Ok d' →
  (allowed v = false ∧ d' = d)
  ∨ (allowed v = true ∧ d' = <[cell_name key := v]> d
     ∧ (d !! cell_name key = Some v ∨ d !! cell_name key = None)).
Proof.
  unfold maybe_add. destruct (allowed v); [|intros [= <-]; by left].
  unfold assert. case_bool_decide as Hfree; [|done].
  cbn [result_bind]. intros [= <-]. by right.
Qed.

Lemma maybe_add_Raised key v d err :
  add key v d = Raised err →
  err = "AssertionError"
  ∧ ∃ other, d !! cell_name key = Some other ∧ other ≠ v.
Proof.
  unfold maybe_add. destruct (allowed v); [|done].
  unfold assert. case_bool_decide as Hfree; [done|].
  cbn [result_bind]. intros [= <-]. split; [done|].
  destruct (d !! cell_name key) as [other|]; [|exfalso; apply Hfree; by right].
  exists other. split; [done|]. intros ->. apply Hfree. by left.
Qed.

Lemma maybe_add_all_Ok es d0 d :
  add_all es d0 = (d, Ok tt) →
  (∀ name v, d0 !! name = Some v → d !! name = Some v)
  ∧ (∀ key v, (key, v) ∈ es → allowed v = true →
       d !! cell_name key = Some v)
  ∧ (∀ name v, d !! name = Some v →
       d0 !! name = Some v
       ∨ ∃ key, (key, v) ∈ es ∧ allowed v = true ∧ cell_name key = name).
Proof.
  revert d0. induction es as [|[key v] es IH]; intros d0; cbn [maybe_add_all].
  - intros [= <-]. split; [done|]. split; [|by left].
    intros key v Hin. by apply elem_of_nil in Hin.
  - destruct (add key v d0) as [d1|] eqn:Hadd; [|done].
    intros Hrest. destruct (IH _ Hrest) as (Hkeep & Hall & Honly).
    assert (∀ name w, d0 !! name = Some w → d1 !! name = Some w) as Hkeep1.
    { intros name w Hw.
      apply maybe_add_Ok in Hadd as [[_ ->]|(_ & -> & Hfree)]; [done|].
      destruct (decide (cell_name key = name)) as [<-|Hne].
      - rewrite lookup_insert_eq. destruct Hfree; congruence.
      - by rewrite lookup_insert_ne. }
    split; [intros name w Hw; by apply Hkeep, Hkeep1|]. split.
    + intros key' v' [[= -> ->]|Hin]%elem_of_cons Hallowed;
        [|by apply Hall].
      apply Hkeep.
      apply maybe_add_Ok in Hadd as [[? _]|(_ & -> & _)]; [congruence|].
      by rewrite lookup_insert_eq.
    + intros name w Hw. destruct (Honly _ _ Hw) as [Hw1|(key' & ? & ? & ?)].
      * apply maybe_add_Ok in Hadd as [[_ ->]|(Hallowed & -> & _)];
          [by left|].
        destruct (decide (cell_name key = name)) as [<-|Hne].
        -- rewrite lookup_insert_eq in Hw1. injection Hw1 as <-.
           right. exists key. split; [by left|done].
        -- rewrite lookup_insert_ne in Hw1 by done. by left.
      * right. exists key'. split; [by right|done].
Qed.

Lemma maybe_add_all_Raised es d0 d err :
  add_all es d0 = (d, Raised err) → err = "AssertionError" ∧ d ≠ ∅.
Proof.
  revert d0. induction es as [|[key v] es IH]; intros d0; cbn [maybe_add_all];
    [done|].
  destruct (add key v d0) as [d1|err'] eqn:Hadd; [by apply IH|].
  intros [= <- <-].
  apply maybe_add_Raised in Hadd as (-> & other & Hother & _).
  split; [done|]. intros ->. by rewrite lookup_empty in Hother.
Qed.

Lemma standard_lstm_registered (d : gmap string Class) :
  create ∅ = (d, Ok tt) → allowed LSTMCell = true →
  d !! "standardlstm" = Some LSTMCell.
Proof.
  intros Hcreate Hallowed.
  apply maybe_add_all_Ok in Hcreate as (_ & Hall & _).
  apply (Hall "StandardLSTM" LSTMCell); [|done].
  unfold rnn_cell_entries. rewrite !elem_of_app. do 3 right. by left.
Qed.

(** X14: every allowed class of the modules is in the registry.  When the
    registry has been built from nothing, each module entry of an allowed
    type is found under its name without a trailing "Cell" and in lower
    case, the standard LSTM cell also under "standardlstm", and the
    registry holds nothing else. *)
Theorem rnn_cells_dict_holds_the_allowed_classes (d : gmap string Class) :
  create ∅ = (d, Ok tt) →
  (∀ key v, (key, v) ∈ entries → allowed v = true →
     d !! cell_name key = Some v)
  ∧ (allowed LSTMCell = true → d !! "standardlstm" = Some LSTMCell)
  ∧ (∀ name v, d !! name = Some v →
       ∃ key, (key, v) ∈ entries ∧ allowed v = true ∧ cell_name key = name).
Proof.
  intros Hcreate. pose proof (standard_lstm_registered d Hcreate) as Hstd.
  apply maybe_add_all_Ok in Hcreate as (_ & Hall & Honly).
  split; [done|]. split; [done|].
  - intros name v Hv. destruct (Honly _ _ Hv) as [Hempty|?]; [|done].
    by rewrite lookup_empty in Hempty.
Qed.

Lemma get_rnn_cell_class_lower (d : gmap string Class)
    (name name' : string) :
  str_lower name = str_lower name' →
  get_class d name = get_class d name'.
Proof.
  intros Hlower. unfold get_rnn_cell_class. rewrite Hlower.
  destruct (if decide (d = ∅) then create d else (d, Ok tt)) as [d1 r].
  f_equal. destruct r; [|done]. cbn [result_bind].
  destruct is_gpu_available; [by rewrite Hlower|].
  destruct (cpu_replacements !! str_lower name'); [done|].
  by rewrite Hlower.
Qed.

(** X15: a cell class is looked up by its name in lower case only, so in
    any spelling of upper and lower case; and without a GPU the names of the
    cuDNN units stand for the block cells. *)
Theorem rnn_cell_class_lookup_ignores_case (d : gmap string Class)
    (name name' : string) :
  str_lower name = str_lower name' →
  get_class d name = get_class d name'
  ∧ (is_gpu_available = false →
     (str_lower name = "cudnnlstm" →
      get_class d name = get_class d "LSTMBlockFused")
     ∧ (str_lower name = "cudnngru" →
        get_class d name = get_class d "GRUBlock")).
Proof.
  intros Hlower. split; [by apply get_rnn_cell_class_lower|].
  unfold get_rnn_cell_class. intros Hgpu. rewrite Hgpu.
  split; intros ->;
    destruct (if decide (d = ∅) then create d else (d, Ok tt)) as [d1 r];
    reflexivity.
Qed.

(** X16: the unit "lstm" is not the standard LSTM cell.  [_get_cell] takes
    "lstm" and "lstmp", in any spelling, for the native LSTM; the standard
    LSTM cell, although registered under "lstm", is made for the unit
    "StandardLSTM" (a plain call with the number of units). *)
Theorem lstm_unit_is_the_native_lstm (d : gmap string Class)
    (unit : string) (n_hidden input_dim : Z) (input_sparse : bool)
    (direction : Z) :
  (str_lower unit ∈ ["lstmp"; "lstm"] →
   get_cell d unit n_hidden input_dim input_sparse direction
   = get_cell d "NativeLSTM" n_hidden input_dim input_sparse direction)
  ∧ (create ∅ = (d, Ok tt) →
     is_cell_class LSTMCell = true →
     is_cudnn_class LSTMCell = false →
     is_rec_seq_class LSTMCell = false →
     get_cell ∅ "StandardLSTM" n_hidden input_dim input_sparse direction
     = (d, Ok (PlainCall LSTMCell n_hidden))).
Proof.
  split.
  - intros Hunit. unfold _get_cell.
    rewrite bool_decide_true by done.
    rewrite (bool_decide_false (str_lower "NativeLSTM" ∈ _))
      by (vm_compute; set_solver).
    by rewrite (get_rnn_cell_class_lower d "nativelstm" "NativeLSTM").
  - intros Hcreate Hcell Hcudnn Hrec.
    pose proof (standard_lstm_registered d Hcreate) as Hstd.
    unfold _get_cell.
    rewrite (bool_decide_false (str_lower "StandardLSTM" ∈ _))
      by (vm_compute; set_solver).
    unfold get_rnn_cell_class. rewrite decide_True by done.
    rewrite Hcreate. cbn [result_bind].
    assert ((if is_gpu_available then "StandardLSTM"
             else match cpu_replacements !! str_lower "StandardLSTM" with
                  | Some replacement => replacement
                  | None => "StandardLSTM"
                  end) = "StandardLSTM") as ->
      by (by destruct is_gpu_available).
    change (str_lower "StandardLSTM") with "standardlstm".
    rewrite Hstd by (unfold allowed_types; by rewrite Hcell).
    cbn [result_bind]. rewrite Hcudnn, Hrec, andb_false_r. done.
Qed.

(** X17: a failed construction of the registry is not tried again.  When
    the first lookup fails on the assertion (two classes of the modules
    have the same key), the registry is left with the entries added before
    the failure; it is not empty, so every later lookup goes to this partial
    registry and answers with a class or a KeyError. *)
Theorem failed_registry_is_not_rebuilt (d : gmap string Class)
    (name : string) :
  get_rnn_cell_class is_gpu_available is_cell_class is_cudnn_class
                     rnn_contrib TFNativeOp cudnn_rnn LSTMCell ∅ name
  = (d, Raised "AssertionError") →
  d ≠ ∅
  ∧ ∀ name',
      (get_class d name').1 = d
      ∧ (get_class d name').2 ≠ Raised "AssertionError".
Proof.
  unfold get_rnn_cell_class at 1. rewrite decide_True by done.
  destruct (create ∅) as [d1 [[]|err1]] eqn:Hcreate.
  - cbn [result_bind]. intros [= <- Hlookup]. exfalso.
    destruct (d1 !! _); done.
  - cbn [result_bind]. intros [= <- ->].
    apply maybe_add_all_Raised in Hcreate as [_ Hne].
    split; [done|]. intros name'.
    unfold get_rnn_cell_class. rewrite decide_False by done.
    split; [done|]. cbn [snd result_bind].
    by destruct (d1 !! _).
Qed.

End RnnCellsFacts.

Lemma rnn_cell_class_lookup_ignores_case_witness :
  get_rnn_cell_class false test_is_cell_class test_is_cudnn_class
                     test_rnn_contrib test_native_op test_cudnn_rnn 1
                     ∅ "CudnnLSTM"
  = get_rnn_cell_class false test_is_cell_class test_is_cudnn_class
                       test_rnn_contrib test_native_op test_cudnn_rnn 1
                       ∅ "cudnnlstm"
  ∧ (false = false →
     (str_lower "CudnnLSTM" = "cudnnlstm" →
      get_rnn_cell_class false test_is_cell_class test_is_cudnn_class
                         test_rnn_contrib test_native_op test_cudnn_rnn 1
                         ∅ "CudnnLSTM"
      = get_rnn_cell_class false test_is_cell_class test_is_cudnn_class
                           test_rnn_contrib test_native_op test_cudnn_rnn 1
                           ∅ "LSTMBlockFused")
     ∧ (str_lower "CudnnLSTM" = "cudnngru" →
        get_rnn_cell_class false test_is_cell_class test_is_cudnn_class
                           test_rnn_contrib test_native_op test_cudnn_rnn 1
                           ∅ "CudnnLSTM"
        = get_rnn_cell_class false test_is_cell_class test_is_cudnn_class
                             test_rnn_contrib test_native_op test_cudnn_rnn 1
                             ∅ "GRUBlock")).
Proof.
  apply (rnn_cell_class_lookup_ignores_case
           false test_is_cell_class test_is_cudnn_class
           test_rnn_contrib test_native_op test_cudnn_rnn 1
           ∅ "CudnnLSTM" "cudnnlstm").
  reflexivity.
Defined.


Lemma rnn_cells_dict_holds_the_allowed_classes_witness :
  ∃ d,
    _create_rnn_cells_dict true test_is_cell_class test_is_cudnn_class
                           test_rnn_contrib test_native_op test_cudnn_rnn 1 ∅
    = (d, Ok tt)
    ∧ (∀ key v,
         (key, v) ∈ rnn_cell_entries true test_rnn_contrib test_native_op
                                     test_cudnn_rnn 1 →
         allowed_types true test_is_cell_class test_is_cudnn_class v = true →
         d !! cell_name key = Some v)
    ∧ (allowed_types true test_is_cell_class test_is_cudnn_class 1 = true →
       d !! "standardlstm" = Some 1)
    ∧ (∀ name v, d !! name = Some v →
         ∃ key,
           (key, v) ∈ rnn_cell_entries true test_rnn_contrib test_native_op
                                       test_cudnn_rnn 1
           ∧ allowed_types true test_is_cell_class test_is_cudnn_class v
             = true
           ∧ cell_name key = name).
Proof.
  eexists. split; [vm_compute; reflexivity|].
  apply (rnn_cells_dict_holds_the_allowed_classes
           true test_is_cell_class test_is_cudnn_class
           test_rnn_contrib test_native_op test_cudnn_rnn 1).
  vm_compute. reflexivity.
Defined.

Lemma failed_registry_is_not_rebuilt_witness :
  ∃ d,
    get_rnn_cell_class false test_is_cell_class test_is_cudnn_class
                       conflicting_rnn_contrib [] [] 1 ∅ "lstm"
    = (d, Raised "AssertionError")
    ∧ d ≠ ∅
    ∧ ∀ name',
        (get_rnn_cell_class false test_is_cell_class test_is_cudnn_class
                            conflicting_rnn_contrib [] [] 1 d name').1 = d
        ∧ (get_rnn_cell_class false test_is_cell_class test_is_cudnn_class
                              conflicting_rnn_contrib [] [] 1 d name').2
          ≠ Raised "AssertionError".
Proof.
  eexists. split; [vm_compute; reflexivity|].
  apply (failed_registry_is_not_rebuilt
           false test_is_cell_class test_is_cudnn_class
           conflicting_rnn_contrib [] [] 1 _ "lstm").
  vm_compute. reflexivity.
Defined.

Lemma lstm_unit_is_the_native_lstm_witness :
  ∃ d,
    _create_rnn_cells_dict true test_is_cell_class test_is_cudnn_class
                           test_rnn_contrib test_native_op test_cudnn_rnn 1 ∅
    = (d, Ok tt)
    ∧ _get_cell true test_is_cell_class test_is_cudnn_class
                (λ v, bool_decide (v = 3))
                test_rnn_contrib test_native_op test_cudnn_rnn 1
                ∅ "LSTM" 5 3 false 1
      = _get_cell true test_is_cell_class test_is_cudnn_class
                  (λ v, bool_decide (v = 3))
                  test_rnn_contrib test_native_op test_cudnn_rnn 1
                  ∅ "NativeLSTM" 5 3 false 1
    ∧ _get_cell true test_is_cell_class test_is_cudnn_class
                (λ v, bool_decide (v = 3))
                test_rnn_contrib test_native_op test_cudnn_rnn 1
                ∅ "StandardLSTM" 5 3 false 1
      = (d, Ok (PlainCall 1 5%Z)).
Proof.
  eexists. split; [vm_compute; reflexivity|].
  split.
  - apply (lstm_unit_is_the_native_lstm
             true test_is_cell_class test_is_cudnn_class
             (λ v, bool_decide (v = 3))
             test_rnn_contrib test_native_op test_cudnn_rnn 1
             ∅ "LSTM" 5 3 false 1).
    refine (bool_decide_unpack _ _). vm_compute. exact I.
  - apply (lstm_unit_is_the_native_lstm
             true test_is_cell_class test_is_cudnn_class
             (λ v, bool_decide (v = 3))
             test_rnn_contrib test_native_op test_cudnn_rnn 1
             _ "LSTM" 5 3 false 1); vm_compute; reflexivity.
Defined.

(** * The dependencies on the parent network *)

Lemma add_parent_deps_spec (deps l : list LayerRef) :
  (NoDup l → NoDup (add_parent_deps l deps))
  ∧ ∀ dep, dep ∈ add_parent_deps l deps
           ↔ dep ∈ l ∨ (dep ∈ deps ∧ is_parent_layer dep = true).
Proof.
  revert l. induction deps as [|d deps IH]; intros l; cbn [add_parent_deps foldl].
  - split; [done|]. intros dep. split; [by left|].
    intros [?|[?%elem_of_nil _]]; done.
  - fold (add_parent_deps
            (if is_parent_layer d
             then if decide (d ∈ l) then l else l ++ [d] else l) deps).
    destruct (IH (if is_parent_layer d
                  then if decide (d ∈ l) then l else l ++ [d] else l))
      as [Hnd Hmem].
    split.
    + intros Hl. apply Hnd. destruct (is_parent_layer d); [|done].
      case_decide; [done|]. apply NoDup_app. split; [done|].
      split; [|apply NoDup_singleton].
      intros x Hx ->%list_elem_of_singleton. done.
    + intros dep. rewrite Hmem. destruct (is_parent_layer d) eqn:Hd.
      * case_decide as Hin.
        -- split.
           ++ intros [?|[? ?]]; [by left|]. right. split; [by right|done].
           ++ intros [?|[[->|?]%elem_of_cons ?]]; [by left | by left |].
              right. done.
        -- rewrite elem_of_app, list_elem_of_singleton. split.
           ++ intros [[?| ->]|[? ?]]; [by left | |].
              ** right. split; [by left|done].
              ** right. split; [by right|done].
           ++ intros [?|[[->|?]%elem_of_cons ?]].
              ** left. by left.
              ** left. by right.
              ** right. done.
      * split.
        -- intros [?|[? ?]]; [by left|]. right. split; [by right|done].
        -- intros [?|[[->|?]%elem_of_cons Hp]]; [by left | congruence |].
           right. done.
Qed.

Lemma fold_parent_deps_spec (layers : list (string * list LayerRef)) l :
  (NoDup l →
   NoDup (foldl (λ l layer, add_parent_deps l layer.2) l layers))
  ∧ ∀ dep, dep ∈ foldl (λ l layer, add_parent_deps l layer.2) l layers
           ↔ dep ∈ l
             ∨ (is_parent_layer dep = true
                ∧ ∃ layer, layer ∈ layers ∧ dep ∈ layer.2).
Proof.
  revert l. induction layers as [|layer layers IH]; intros l; cbn [foldl].
  - split; [done|]. intros dep. split; [by left|].
    intros [?|[_ (? & ?%elem_of_nil & _)]]; done.
  - destruct (IH (add_parent_deps l layer.2)) as [Hnd Hmem].
    destruct (add_parent_deps_spec layer.2 l) as [Hnd1 Hmem1].
    split; [intros Hl; by apply Hnd, Hnd1|].
    intros dep. rewrite Hmem, Hmem1. split.
    + intros [[?|[? ?]]|[? (layer' & ? & ?)]]; [by left | |].
      * right. split; [done|]. exists layer. split; [by left|done].
      * right. split; [done|]. exists layer'. split; [by right|done].
    + intros [?|[? (layer' & [->|?]%elem_of_cons & ?)]].
      * left. by left.
      * left. right. done.
      * right. split; [done|]. by exists layer'.
Qed.

Lemma get_parent_deps_spec
    (layer_data_templates : gmap string TemplateLayer)
    (net_layers : gmap string (list LayerRef)) :
  NoDup (get_parent_deps layer_data_templates net_layers)
  ∧ (∀ dep,
       dep ∈ get_parent_deps layer_data_templates net_layers
       ↔ ∃ other,
           dep = BaseLayer other
           ∧ if decide (net_layers = ∅)
             then ∃ name layer,
                    layer_data_templates !! name = Some layer
                    ∧ dep ∈ dependencies layer
             else ∃ name deps,
                    net_layers !! name = Some deps ∧ dep ∈ deps).
Proof.
  unfold get_parent_deps.
  set (layers := if decide (net_layers = ∅)
                 then dependencies <$> layer_data_templates
                 else net_layers).
  destruct (fold_parent_deps_spec (sorted_items (map_to_list layers)) [])
    as [Hnd Hmem].
  split; [apply Hnd, NoDup_nil_2|].
  assert (∀ dep : LayerRef,
            (∃ layer : string * list LayerRef,
               layer ∈ sorted_items (map_to_list layers) ∧ dep ∈ layer.2)
            ↔ ∃ name deps, layers !! name = Some deps ∧ dep ∈ deps) as Hin.
  { intros dep. split.
    - intros ([name deps] & Hl & Hdep). rewrite sorted_items_perm in Hl.
      apply elem_of_map_to_list in Hl. by exists name, deps.
    - intros (name & deps & Hl & Hdep). exists (name, deps).
      split; [|done]. rewrite sorted_items_perm.
      by apply elem_of_map_to_list. }
  intros dep. rewrite Hmem, Hin. split.
  - intros [?%elem_of_nil|[Hparent (name & deps & Hl & Hdep)]]; [done|].
    destruct dep as [|other]; [done|]. exists other. split; [done|].
    subst layers. case_decide.
    + rewrite lookup_fmap in Hl.
      destruct (layer_data_templates !! name) as [layer|] eqn:Hlayer;
        [|done].
      injection Hl as <-. by exists name, layer.
    + by exists name, deps.
  - intros (other & -> & Hfound). right. split; [done|].
    subst layers. case_decide.
    + destruct Hfound as (name & layer & Hlayer & Hdep).
      exists name, (dependencies layer). split; [|done].
      by rewrite lookup_fmap, Hlayer.
    + done.
Qed.

(** X18: the dependencies on the parent network are collected once each.
    [get_parent_deps] returns, without duplicates, exactly the layers of the
    parent network that some layer depends on: some layer of the step
    network when it is built, some template otherwise. *)
Theorem get_parent_deps_collects_parent_layers
    (layer_data_templates : gmap string TemplateLayer)
    (net_layers : gmap string (list LayerRef)) :
  NoDup (get_parent_deps layer_data_templates net_layers)
  ∧ (∀ dep,
       dep ∈ get_parent_deps layer_data_templates net_layers
       ↔ ∃ other,
           dep = BaseLayer other
           ∧ if decide (net_layers = ∅)
             then ∃ name layer,
                    layer_data_templates !! name = Some layer
                    ∧ dep ∈ dependencies layer
             else ∃ name deps,
                    net_layers !! name = Some deps ∧ dep ∈ deps).
Proof. apply get_parent_deps_spec. Qed.

(** X19: after the template construction, and before the step network is
    built, the dependencies of the subnetwork on the parent network are the
    layers that the declarations of the templated layers refer to with
    "base:"; all of them are layers of the parent network. *)
Theorem parent_deps_are_the_base_references
    (net_dict : gmap string LayerDesc) (parent_layers : gset string)
    (get_out_data_from_opts :
       string → LayerDesc → list LayerRef → Result unit)
    (fuel : nat) (st : ConstructState) :
  _construct_template net_dict parent_layers get_out_data_from_opts fuel
  = Returned tt st →
  ∀ dep,
    dep ∈ get_parent_deps (cs_layer_data_templates st) ∅
    ↔ ∃ other name desc source,
        dep = BaseLayer other
        ∧ other ∈ parent_layers
        ∧ is_Some (cs_layer_data_templates st !! name)
        ∧ net_dict !! name = Some desc
        ∧ source ∈ layer_from desc
        ∧ layer_ref source = BaseLayer other.
Proof.
  intros Hret dep.
  destruct (get_parent_deps_spec (cs_layer_data_templates st) ∅)
    as [_ Hspec].
  rewrite Hspec. rewrite decide_True by done. split.
  - intros (other & -> & name & layer & Hlayer & Hdep).
    destruct (returned_template_spec _ _ _ _ _ _ _ Hret Hlayer)
      as (_ & _ & desc & Hdesc & _ & Hmem & _ & _ & Hbase).
    apply Hmem in Hdep as Hsrc. destruct Hsrc as (source & Hsource & Href).
    exists other, name, desc, source.
    split; [done|]. split; [by apply Hbase|]. split; [by eexists|].
    done.
  - intros (other & name & desc & source & -> & _ & [layer Hlayer] & Hdesc
            & Hsource & Href).
    exists other. split; [done|]. exists name, layer. split; [done|].
    destruct (returned_template_spec _ _ _ _ _ _ _ Hret Hlayer)
      as (_ & _ & desc' & Hdesc' & _ & Hmem & _).
    rewrite Hdesc in Hdesc'. injection Hdesc' as <-.
    apply Hmem. by exists source.
Qed.

Lemma parent_deps_are_the_base_references_witness :
  ∃ st,
    _construct_template recurrent_net_dict {["encoder"]} (λ _ _ _, Ok tt) 5
    = Returned tt st
    ∧ ∀ dep,
        dep ∈ get_parent_deps (cs_layer_data_templates st) ∅
        ↔ ∃ other name desc source,
            dep = BaseLayer other
            ∧ other ∈ ({["encoder"]} : gset string)
            ∧ is_Some (cs_layer_data_templates st !! name)
            ∧ recurrent_net_dict !! name = Some desc
            ∧ source ∈ layer_from desc
            ∧ layer_ref source = BaseLayer other.
Proof.
  eexists. split; [vm_compute; reflexivity|].
  apply (parent_deps_are_the_base_references
           recurrent_net_dict {["encoder"]} (λ _ _ _, Ok tt) 5).
  vm_compute. reflexivity.
Defined.

(** * The first search step of a choice layer *)

Lemma fmap_constant {A B} (f : A → B) (c : B) (l : list A) :
  Forall (λ x, f x = c) l → f <$> l = replicate (length l) c.
Proof.
  induction 1 as [|x l Hx _ IH]; [done|].
  rewrite fmap_cons, Hx, IH. done.
Qed.

Section TopKIndices.
Context {Score : Type} {ops : ScoreOps Score}.

Lemma top_k_lt k (row : list Score) vals idxs idx :
  top_k k row = Some (vals, idxs) → idx ∈ idxs → idx < length row.
Proof.
  intros Htop Hin. apply list_elem_of_lookup in Hin as [j Hj].
  destruct (top_k_Some _ _ _ _ Htop) as (_ & _ & Hsel).
  destruct (Hsel _ _ Hj) as (v & _ & Hv). by eapply lookup_lt_Some.
Qed.

End TopKIndices.

Section FirstSearchStep.
Context {Score : Type} {ops : ScoreOps Score}.
Variable score_zero : Score.

Hypothesis ltb_asym :
  ∀ x y : Score, score_ltb x y = true → score_ltb y x = false.
Hypothesis geb_trans :
  ∀ x y z : Score,
    score_ltb x y = false → score_ltb y z = false → score_ltb x z = false.
Hypothesis add_zero : ∀ x : Score, score_add x score_zero = x.

(** A value of a row that is strictly above every other one. *)
Abbreviation strict_best r j :=
  (∃ v : Score,
     r !! j = Some v
     ∧ ∀ j' v', r !! j' = Some v' → j' ≠ j → score_ltb v' v = true).

(** The candidates of one example: every incoming slot holds the same
    scores, so among [beam] times [dim] candidates the best value occurs
    once per slot, and [top_k] takes exactly these. *)
Lemma top_k_of_equal_slots beam dim (r row : list Score) j vals idxs :
  length r = dim →
  length row = beam * dim →
  (∀ i d x, i < beam → r !! d = Some x → row !! (i * dim + d) = Some x) →
  strict_best r j →
  top_k beam row = Some (vals, idxs) →
  idxs ≡ₚ (λ i, i * dim + j) <$> seq 0 beam.
Proof.
  intros Hr Hrow Hcand (v & Hv & Hstrict) Htop.
  assert (j < dim) as Hj by (rewrite <-Hr; by eapply lookup_lt_Some).
  set (M := (λ i, i * dim + j) <$> seq 0 beam).
  assert (NoDup M) as HM.
  { subst M. apply NoDup_fmap_2_strong; [|apply NoDup_seq].
    intros x y _ _ Hxy. nia. }
  assert (length M = beam) as HMlen
    by (subst M; by rewrite length_fmap, length_seq).
  pose proof (top_k_NoDup _ _ _ _ Htop) as Hnd.
  destruct (top_k_Some _ _ _ _ Htop) as (_ & Hlen & _).
  assert (∀ m, m ∈ M → row !! m = Some v) as Hmax.
  { intros m (i & -> & Hi)%list_elem_of_fmap.
    apply elem_of_seq in Hi. apply Hcand; [lia|done]. }
  assert (∀ idx, idx ∈ idxs → idx ∈ M) as Hsub.
  { intros idx Hidx.
    pose proof (top_k_lt _ _ _ _ _ Htop Hidx) as Hlt. rewrite Hrow in Hlt.
    assert (dim ≠ 0) as Hdim by lia.
    assert (idx / dim < beam) as Hi
      by (apply Nat.Div0.div_lt_upper_bound; lia).
    assert (idx mod dim < dim) as Hd by (by apply Nat.mod_upper_bound).
    assert (idx = idx / dim * dim + idx mod dim) as Hsplit
      by (rewrite (Nat.div_mod_eq idx dim) at 1; lia).
    destruct (decide (idx mod dim = j)) as [Hbest|Hother].
    { subst M. apply list_elem_of_fmap. exists (idx / dim).
      split; [lia|]. apply elem_of_seq. lia. }
    exfalso.
    assert (is_Some (r !! (idx mod dim))) as [v' Hv']
      by (apply lookup_lt_is_Some; lia).
    assert (row !! idx = Some v') as Hrow_idx
      by (rewrite Hsplit; by apply Hcand).
    destruct (decide (Forall (λ m, m ∈ idxs) M)) as [Hall|Hmiss].
    - rewrite Forall_forall in Hall.
      assert (M ≡ₚ idxs) as Hperm.
      { apply submseteq_length_Permutation; [by apply NoDup_submseteq|].
        lia. }
      rewrite <-Hperm in Hidx.
      apply list_elem_of_fmap in Hidx as (i & Hi' & _).
      apply Hother. rewrite Hi'.
      rewrite Nat.add_comm, Nat.Div0.mod_add. by apply Nat.mod_small.
    - apply not_Forall_Exists in Hmiss; [|intros ?; apply _].
      apply Exists_exists in Hmiss as (m & Hm & Hout). simpl in Hout.
      pose proof (top_k_best ltb_asym geb_trans _ _ _ _ _ _ _ _
                    Htop Hidx Hout Hrow_idx (Hmax _ Hm)) as Hge.
      rewrite (Hstrict _ _ Hv' Hother) in Hge. done. }
  apply submseteq_length_Permutation; [|lia].
  by apply NoDup_submseteq.
Qed.

(** X20: the first search step fills the beam with one hypothesis.  The
    initial beam scores are zero in every slot; so when all incoming slots
    of an example carry the same scores (as they do in the first step) and
    one label is strictly the best, every outgoing slot of the example
    chooses this label, each from another incoming slot. *)
Theorem first_search_step_repeats_best_label
    (beam_size batch dim : nat) (rows : list (list Score))
    (best : list nat) :
  length rows = batch →
  Forall (λ r, length r = dim) rows →
  Forall2 (λ r j, strict_best r j) rows best →
  ∃ parents scores labels,
    choice_layer_search
      beam_size "log_prob" batch
      (get_rec_initial_extra_outputs score_zero true batch beam_size
       !!! "choice_scores")
      (mjoin (replicate beam_size <$> rows)) dim
    = Some (mkChoiceResult (Some parents) (Some scores) (Labels labels))
    ∧ labels = mjoin (replicate beam_size <$> best)
    ∧ length parents = batch
    ∧ Forall (λ row, row ≡ₚ seq 0 beam_size) parents.
Proof.
  intros Hrows Hdims Hbest.
  unfold get_rec_initial_extra_outputs.
  rewrite lookup_total_singleton, decide_True by done.
  set (base := replicate batch (replicate beam_size score_zero)).
  set (scores_in := mjoin (replicate beam_size <$> rows)).
  assert (∀ b, b < batch → beam_in base = beam_size) as Hbeam.
  { intros b Hb. subst base. destruct batch; [lia|]. simpl.
    by rewrite length_replicate. }
  assert (Forall (λ l : list (list Score), length l = beam_size)
                 (replicate beam_size <$> rows)) as Htiles.
  { apply Forall_fmap, Forall_forall. intros r _. simpl.
    by rewrite length_replicate. }
  assert (length scores_in = batch * beam_in base) as Hin_len.
  { subst scores_in.
    rewrite length_join, (sum_list_fmap_same beam_size) by done.
    rewrite length_fmap, Hrows.
    destruct (decide (batch = 0)) as [->|Hpos]; [done|].
    rewrite (Hbeam 0) by lia. done. }
  assert (∀ b i r, i < beam_size → rows !! b = Some r →
            scores_in !! (b * beam_size + i) = Some r) as Hin_lookup.
  { intros b i r Hi Hr. subst scores_in.
    apply (join_lookup_Some_same_length' beam_size); [done..|].
    exists (replicate beam_size r). rewrite list_lookup_fmap, Hr.
    split; [done|]. by apply lookup_replicate_2. }
  destruct (scores_in_flat_spec "log_prob" batch dim base scores_in)
    as (flat & Hflat & Hflat_len & Hflat_rows & Hcand).
  { by right. }
  { subst base. by rewrite length_replicate. }
  { apply Forall_forall. intros r Hr.
    apply list_elem_of_lookup in Hr as [b Hr].
    pose proof (lookup_lt_Some _ _ _ Hr) as Hb.
    unfold base in Hb. rewrite length_replicate in Hb.
    rewrite (Hbeam b Hb). unfold base in Hr.
    apply lookup_replicate in Hr as [-> _]. by rewrite length_replicate. }
  { done. }
  { subst scores_in. apply Forall_forall. intros r Hr.
    apply list_elem_of_join in Hr as (tile & Hr & Htile).
    apply list_elem_of_fmap in Htile as (r' & -> & Hr').
    apply elem_of_replicate in Hr as [-> _].
    rewrite Forall_forall in Hdims. by apply Hdims. }
  (* the candidates of example [b] *)
  assert (∀ b r row i d x,
            rows !! b = Some r → flat !! b = Some row →
            i < beam_size → r !! d = Some x →
            row !! (i * dim + d) = Some x) as Hrow_cand.
  { intros b r row i d x Hr Hrow Hi Hx.
    assert (b < batch) as Hb by (rewrite <-Hrows; by eapply lookup_lt_Some).
    destruct (Hcand b i d r x (replicate beam_size score_zero) score_zero)
      as (row' & Hrow' & Hval).
    - rewrite (Hbeam b Hb). by apply Hin_lookup.
    - done.
    - subst base. by apply lookup_replicate_2.
    - by apply lookup_replicate_2.
    - rewrite Hrow in Hrow'. injection Hrow' as <-.
      rewrite Hval. unfold score_contribution.
      rewrite decide_False by done. by rewrite add_zero. }
  assert (∀ b row, flat !! b = Some row → length row = beam_size * dim)
    as Hrow_len.
  { intros b row Hrow.
    assert (b < batch) as Hb
      by (rewrite <-Hflat_len; by eapply lookup_lt_Some).
    rewrite Forall_forall in Hflat_rows.
    rewrite (Hflat_rows row) by (by eapply list_elem_of_lookup_2).
    by rewrite (Hbeam b Hb). }
  assert (is_Some (mapM (top_k beam_size) flat)) as [bests Hbests].
  { apply mapM_is_Some, Forall_forall. intros row Hrow.
    apply list_elem_of_lookup in Hrow as [b Hrow].
    apply top_k_is_Some. rewrite (Hrow_len _ _ Hrow).
    assert (is_Some (rows !! b)) as [r Hr].
    { apply lookup_lt_is_Some. rewrite Hrows, <-Hflat_len.
      by eapply lookup_lt_Some. }
    destruct (Forall2_lookup_l _ _ _ _ _ Hbest Hr) as (j & _ & v & Hv & _).
    rewrite Forall_forall in Hdims.
    pose proof (Hdims r ltac:(by eapply list_elem_of_lookup_2)) as Hlen.
    apply lookup_lt_Some in Hv. nia. }
  pose proof Hbests as Hbests2. apply mapM_Some in Hbests2.
  assert (length bests = batch) as Hbests_len
    by (by rewrite <-(Forall2_length _ _ _ Hbests2)).
  (* the indices selected for example [b] *)
  assert (∀ b r j vals idxs,
            rows !! b = Some r → best !! b = Some j →
            bests !! b = Some (vals, idxs) →
            j < dim ∧ idxs ≡ₚ (λ i, i * dim + j) <$> seq 0 beam_size)
    as Hsel.
  { intros b r j vals idxs Hr Hj Hb.
    destruct (Forall2_lookup_r _ _ _ _ _ Hbests2 Hb) as (row & Hrow & Htop).
    pose proof (Forall2_lookup_lr _ _ _ _ _ _ Hbest Hr Hj) as Hstrict.
    rewrite Forall_forall in Hdims.
    pose proof (Hdims r ltac:(by eapply list_elem_of_lookup_2)) as Hlen.
    split.
    - destruct Hstrict as (v & Hv & _). rewrite <-Hlen.
      by eapply lookup_lt_Some.
    - eapply (top_k_of_equal_slots beam_size dim r row); [done | | | done..].
      + by eapply Hrow_len.
      + intros i d x Hi Hx. by eapply Hrow_cand. }
  eexists _, _, _. split.
  { unfold choice_layer_search. rewrite decide_False by done.
    rewrite Hflat. cbn [mbind option_bind]. rewrite Hbests.
    cbn [mbind option_bind]. done. }
  assert (length best = batch) as Hbest_len
    by (by rewrite <-(Forall2_length _ _ _ Hbest)).
  split; [|split].
  - f_equal.
    apply list_eq_same_length with batch;
      [by rewrite length_fmap | by rewrite !length_fmap |].
    intros b x y Hb Hx Hy.
    rewrite !list_lookup_fmap in Hx. rewrite list_lookup_fmap in Hy.
    destruct (bests !! b) as [[vals idxs]|] eqn:Hbs; [|done].
    destruct (best !! b) as [j|] eqn:Hj; [|done].
    injection Hx as <-. injection Hy as <-.
    assert (is_Some (rows !! b)) as [r Hr]
      by (apply lookup_lt_is_Some; lia).
    destruct (Hsel b r j vals idxs Hr Hj Hbs) as [Hjd Hperm]. simpl.
    assert (length idxs = beam_size) as Hlen
      by (by rewrite Hperm, length_fmap, length_seq).
    rewrite <-Hlen. apply fmap_constant.
    rewrite Hperm. apply Forall_fmap, Forall_forall. intros i _. simpl.
    rewrite Nat.add_comm, Nat.Div0.mod_add. by apply Nat.mod_small.
  - by rewrite !length_fmap.
  - apply Forall_fmap, Forall_fmap, Forall_forall. intros [vals idxs] Hbs.
    apply list_elem_of_lookup in Hbs as [b Hbs]. simpl.
    assert (b < batch) as Hb by (rewrite <-Hbests_len; by eapply lookup_lt_Some).
    assert (is_Some (rows !! b)) as [r Hr]
      by (apply lookup_lt_is_Some; lia).
    assert (is_Some (best !! b)) as [j Hj]
      by (apply lookup_lt_is_Some; lia).
    destruct (Hsel b r j vals idxs Hr Hj Hbs) as [Hjd Hperm].
    rewrite Hperm, <-list_fmap_compose.
    assert ((λ l, l / dim) ∘ (λ i, i * dim + j) <$> seq 0 beam_size
            = seq 0 beam_size) as ->; [|done].
    rewrite <-(list_fmap_id (seq 0 beam_size)) at 2.
    apply list_fmap_ext. intros _ i _. simpl.
    rewrite Nat.div_add_l by lia. rewrite Nat.div_small by done. lia.
Qed.

End FirstSearchStep.

Lemma first_search_step_repeats_best_label_witness :
  ∃ parents scores labels,
    choice_layer_search (ops := Z_scores)
      2 "log_prob" 1
      (get_rec_initial_extra_outputs 0%Z true 1 2 !!! "choice_scores")
      (mjoin (replicate 2 <$> [[(-3)%Z; (-1)%Z; (-2)%Z]])) 3
    = Some (mkChoiceResult (Some parents) (Some scores) (Labels labels))
    ∧ labels = mjoin (replicate 2 <$> [1])
    ∧ length parents = 1
    ∧ Forall (λ row, row ≡ₚ seq 0 2) parents.
Proof.
  apply (first_search_step_repeats_best_label
           (ops := Z_scores) 0%Z).
  - intros x y. simpl. lia.
  - intros x y z. simpl. lia.
  - intros x. simpl. lia.
  - reflexivity.
  - repeat constructor.
  - constructor; [|constructor].
    exists (-1)%Z. split; [reflexivity|].
    intros [|[|[|j']]] v' Hv' Hne; simpl in Hv'; try done;
      injection Hv' as <-; reflexivity.
Defined.

(** * Resolving a search in which no hypothesis changes its slot *)

Lemma chunks_join {B} (beam n : nat) (raw : list B) :
  length raw = n * beam →
  mjoin ((λ b, take beam (drop (b * beam) raw)) <$> seq 0 n) = raw.
Proof.
  revert raw. induction n as [|n IH]; intros raw Hlen.
  - by destruct raw.
  - cbn [seq]. rewrite <-fmap_S_seq, fmap_cons, <-list_fmap_compose.
    cbn [mjoin list_join]. simpl drop.
    transitivity (take beam raw ++ drop beam raw); [|apply take_drop].
    f_equal.
    transitivity (mjoin ((λ b, take beam (drop (b * beam) (drop beam raw)))
                           <$> seq 0 n));
      [|apply IH; rewrite length_drop; lia].
    f_equal. apply list_fmap_ext. intros _ b _. simpl.
    by rewrite drop_drop.
Qed.

Lemma ta_stack_elems {B} (ta : TensorArray B) outs :
  ta_stack ta = Some outs → ta_elems ta = Some <$> outs.
Proof.
  unfold ta_stack. intros Hstack. apply mapM_Some in Hstack.
  induction Hstack as [|x y l k Hxy _ IH]; [done|].
  simpl in Hxy. by rewrite Hxy, fmap_cons, IH.
Qed.

Section IdentityParents.
Context {A : Type}.
Variable batch_dim output_beam_size : nat.
Variable choice_tas : gmap string (TensorArray (list (list nat))).
Variable output_ta : TensorArray (list A).
Variable name : string.

Abbreviation init := (initial_beam_choices batch_dim output_beam_size).
Abbreviation base := (SrcTemplate name true).
Abbreviation T := (ta_size output_ta).

Lemma gather_nd_identity {B} (x : list (list B)) :
  length x = batch_dim →
  Forall (λ r, length r = output_beam_size) x →
  gather_nd x (nd_indices init) = Some x.
Proof.
  intros Hlen Hrows. unfold gather_nd, nd_indices, initial_beam_choices.
  apply mapM_Some, Forall2_same_length_lookup_2.
  { by rewrite length_imap, length_replicate. }
  intros b irow xrow Hi Hx. rewrite list_lookup_imap in Hi.
  rewrite lookup_replicate_2 in Hi
    by (rewrite <-Hlen; by eapply lookup_lt_Some).
  injection Hi as <-.
  assert (length xrow = output_beam_size) as Hxrow.
  { rewrite Forall_forall in Hrows. apply Hrows.
    by eapply list_elem_of_lookup_2. }
  apply mapM_Some, Forall2_same_length_lookup_2.
  { by rewrite length_fmap, length_seq. }
  intros k bk y Hk Hy. rewrite list_lookup_fmap in Hk.
  destruct (seq 0 output_beam_size !! k) as [k'|] eqn:Hseq; [|done].
  apply lookup_seq in Hseq as [-> _]. injection Hk as <-. simpl.
  by rewrite Hx.
Qed.

Lemma gather_output_identity t (raw : list A) :
  ta_read output_ta t = Some raw →
  length raw = batch_dim * output_beam_size →
  gather_output batch_dim output_beam_size output_ta t init = Some raw.
Proof.
  intros Hread Hlen. unfold gather_output. rewrite Hread.
  cbn [mbind option_bind]. unfold reshape_to_beams.
  rewrite decide_True by done. cbn [mbind option_bind].
  rewrite gather_nd_identity.
  - cbn [mbind option_bind]. unfold reshape_from_beams.
    rewrite chunks_join by done. by rewrite decide_True.
  - by rewrite length_fmap, length_seq.
  - apply Forall_fmap, Forall_forall. intros b Hb. simpl.
    apply elem_of_seq in Hb. rewrite length_take, length_drop. nia.
Qed.

(** X21: a search in which no hypothesis ever changes its slot resolves to
    the accumulated output.  When the parent slots recorded at every step
    are the slots themselves, the backward pass returns, step by step, the
    raw accumulated output. *)
Theorem search_resolve_with_steady_slots
    (outs : list (list A)) (fuel : nat) :
  ta_stack output_ta = Some outs →
  Forall (λ o, length o = batch_dim * output_beam_size) outs →
  (∀ t, t < T →
     choice_tas !! name ≫= (λ ta, ta_read ta t) = Some init) →
  T < fuel →
  ∃ new_acc_output_ta,
    search_resolve batch_dim output_beam_size choice_tas output_ta base fuel
    = Finished ((-1)%Z, init, new_acc_output_ta)
    ∧ ta_stack new_acc_output_ta = Some outs.
Proof.
  intros Hstack Hshape Hparents Hfuel.
  pose proof (ta_stack_elems _ _ Hstack) as Helems.
  assert (T = length outs) as HT
    by (unfold ta_size; by rewrite Helems, length_fmap).
  assert (∀ t o, outs !! t = Some o → ta_read output_ta t = Some o) as Hread.
  { intros t o Ho. unfold ta_read.
    by rewrite Helems, list_lookup_fmap, Ho. }
  assert (length init = batch_dim
          ∧ Forall (λ r, length r = output_beam_size) init) as [Hilen Hirows].
  { unfold initial_beam_choices. rewrite length_replicate. split; [done|].
    apply Forall_replicate. by rewrite length_seq. }
  assert (∀ d, d ≤ T →
            tracked_slots batch_dim output_beam_size choice_tas output_ta
                          base d = Some init) as Htracked.
  { induction d as [|d IH]; intros Hd; [done|].
    cbn [tracked_slots]. rewrite IH by lia. cbn [mbind option_bind].
    cbn [chain_parents choice_base_name]. rewrite Hparents by lia.
    cbn [mbind option_bind]. by rewrite gather_nd_identity. }
  destruct (search_resolve_finishes batch_dim output_beam_size choice_tas
              output_ta base outs init fuel) as [Hfin _]; [|by apply Htracked|done|].
  { apply mapM_Some, Forall2_same_length_lookup_2;
      [by rewrite length_seq|].
    intros i t o Hi Ho. apply lookup_seq in Hi as [-> Hi].
    unfold lineage_output. rewrite Htracked by lia.
    cbn [mbind option_bind]. apply gather_output_identity; [by apply Hread|].
    rewrite Forall_forall in Hshape. apply Hshape.
    by eapply list_elem_of_lookup_2. }
  eexists. split; [done|]. apply ta_stack_written.
Qed.

End IdentityParents.

Lemma search_resolve_with_steady_slots_witness :
  ∃ new_acc_output_ta,
    search_resolve 1 2 steady_choice_tas steady_output_ta
                   (SrcTemplate "output" true) 3
    = Finished ((-1)%Z, initial_beam_choices 1 2, new_acc_output_ta)
    ∧ ta_stack new_acc_output_ta = Some [[10; 11]; [20; 21]].
Proof.
  apply (search_resolve_with_steady_slots
           1 2 steady_choice_tas steady_output_ta "output"
           [[10; 11]; [20; 21]] 3).
  - reflexivity.
  - repeat constructor.
  - intros [|[|t]] Ht; [reflexivity | reflexivity | unfold ta_size in Ht; simpl in Ht; lia].
  - unfold ta_size. simpl. lia.
Defined.

(** * The initial loop variables of a constructed template graph *)

(** X22: a "prev:" reference to a layer of the parent network leaves the
    cell without initial loop variables.  The construction records the name
    "base:..." as needed from the previous frame and registers no template
    under it, so [get_init_loop_vars] raises KeyError when it looks up the
    template of that name. *)
Theorem prev_base_reference_breaks_init_loop_vars {Tensor : Type}
    (net_dict : gmap string LayerDesc) (parent_layers : gset string)
    (get_out_data_from_opts :
       string → LayerDesc → list LayerRef → Result unit)
    (fuel : nat) (st : ConstructState)
    (get_rec_initial_output : TemplateLayer → Tensor)
    (get_rec_initial_extra_outputs : TemplateLayer → gmap string Tensor)
    (has_initial_output : TemplateLayer → bool) (initial_end : Tensor)
    (n : string) (desc : LayerDesc) (source : string) :
  _construct_template net_dict parent_layers get_out_data_from_opts fuel
  = Returned tt st →
  is_Some (cs_layer_data_templates st !! n) →
  net_dict !! n = Some desc →
  source ∈ layer_from desc →
  String.prefix "prev:" source = true →
  String.prefix "base:" (layer_target source) = true →
  layer_target source ∈ cs_prev_layers_needed st
  ∧ cs_layer_data_templates st !! layer_target source = None
  ∧ get_init_loop_vars (cs_layer_data_templates st)
                       (cs_prev_layers_needed st)
                       get_rec_initial_output get_rec_initial_extra_outputs
                       has_initial_output initial_end
    = Raised "KeyError".
Proof.
  intros Hret Hn Hdesc Hsource Hprev Hbase.
  destruct (construct_template_Returned _ _ _ _ _ _ Hret)
    as (_ & Hkeys & _ & _ & Hall & _).
  destruct (Hall n Hn) as [(desc' & _ & Hdesc' & _ & _ & _ & _ & Hres) _].
  rewrite Hdesc in Hdesc'. injection Hdesc' as <-.
  rewrite Forall_forall in Hres. destruct (Hres _ Hsource) as [_ Hneeded].
  specialize (Hneeded Hprev).
  assert (cs_layer_data_templates st !! layer_target source = None) as Hnone.
  { destruct (cs_layer_data_templates st !! layer_target source) eqn:Ht;
      [|done].
    rewrite Hkeys in Hbase by (by eexists). done. }
  split; [done|]. split; [done|].
  by eapply get_init_loop_vars_KeyError.
Qed.

Lemma prev_base_reference_breaks_init_loop_vars_witness :
  ∃ st,
    _construct_template prev_base_net_dict {["encoder"]} (λ _ _ _, Ok tt) 2
    = Returned tt st
    ∧ layer_target "prev:base:encoder" ∈ cs_prev_layers_needed st
    ∧ cs_layer_data_templates st !! layer_target "prev:base:encoder" = None
    ∧ get_init_loop_vars (cs_layer_data_templates st)
                         (cs_prev_layers_needed st)
                         test_initial_output test_initial_extra
                         (λ _, false) 0
      = Raised "KeyError".
Proof.
  eexists. split; [vm_compute; reflexivity|].
  apply (prev_base_reference_breaks_init_loop_vars
           prev_base_net_dict {["encoder"]} (λ _ _ _, Ok tt) 2 _
           test_initial_output test_initial_extra (λ _, false) 0
           "output" (mkLayerDesc "linear" ["prev:base:encoder"])
           "prev:base:encoder").
  - vm_compute. reflexivity.
  - eexists. vm_compute. reflexivity.
  - reflexivity.
  - by left.
  - reflexivity.
  - reflexivity.
Defined.
